(** * mcmc_io: streaming CSV ingestion for the influenza MCMC project

    A shallow embedding of [src/mcmc_io.c] (current version, v1.01):
    the two typed converters, the field and record callbacks of both
    pipelines, the accumulator (re)allocation and the two drivers
    [read_ili_csv] and [read_csv_double_vector].

    Conventions of the model.
    - [size_t] is 64 bits wide, [long] is 64 bits wide (LP64), [int] is
      32 bits wide; unsigned arithmetic wraps and is written out with
      [size_t].
    - An array is a list of cells; a cell is [None] while its content is
      indeterminate (fresh from [malloc] or [realloc]) and [Some v] once
      written.  A store outside the allocated cells is undefined behaviour
      in C and makes the modelled function return [None].
    - [malloc] and [realloc] succeed in the main definitions of the
      callbacks and drivers; their [_heap] variants take the outcome of
      every allocation call as a parameter, a failed call returning [NULL].
    - The tokenizer (libcsv) is external: an ingestion receives the field
      and record events that the tokenizer emits, grouped by the chunk of
      the file ([csv_parse] call) that produced them, plus the events
      emitted by the finalisation call [csv_fini].
    - [errno] is carried explicitly; only [strtol], [strtod] and a failed
      allocation change it. *)

From Stdlib Require Import ZArith String Ascii List Lia Bool.
From stdpp Require Import base option list.

Open Scope Z_scope.

(** ** Machine integers *)

Definition size_t (z : Z) : Z := z mod 2 ^ 64.

Definition INT_MAX : Z := 2 ^ 31 - 1.
Definition INT_MIN : Z := - 2 ^ 31.
Definition LONG_MAX : Z := 2 ^ 63 - 1.
Definition LONG_MIN : Z := - 2 ^ 63.
Definition ERANGE : Z := 34.
Definition ENOMEM : Z := 12.

Definition EXIT_SUCCESS : Z := 0.
Definition EXIT_FAILURE : Z := 1.

Definition FILE_NUM_COLS : Z := 4.

Definition sizeof_int : Z := 4.
Definition sizeof_double : Z := 8.

(** Conversion of a value to [int].  It is only applied to the increment of
    the [int] row counter of the single-column reader, where an overflow is
    undefined in C and wraps (two's complement) in the model. *)
Definition to_int (z : Z) : Z := (z + 2 ^ 31) mod 2 ^ 32 - 2 ^ 31.

(** ** Arrays *)

Abbreviation cell A := (option A) (only parsing).

(** [a[i] = v]; [None] when [i] is outside the allocated cells. *)
Definition store {A} (a : list (cell A)) (i : Z) (v : A) : option (list (cell A)) :=
  if (0 <=? i) && (i <? Z.of_nat (length a))
  then Some (<[Z.to_nat i := Some v]> a)
  else None.

(** [malloc (bytes)] for cells of [elt] bytes: as many indeterminate cells
    as fit. *)
Definition malloc_cells {A} (bytes elt : Z) : list (cell A) :=
  replicate (Z.to_nat (bytes / elt)) None.

(** [realloc (a, bytes)]: the common prefix is kept, new cells are
    indeterminate. *)
Definition realloc_cells {A} (a : list (cell A)) (bytes elt : Z) : list (cell A) :=
  let n := Z.to_nat (bytes / elt) in
  take n a ++ replicate (n - length a)%nat None.

(** The same calls when they may fail: [ok] tells whether the call succeeds.
    A failed call returns [NULL], which has no cell.  (The block handed to a
    failed [realloc] stays allocated, but every caller in this program
    overwrites its only pointer to the block with the result.) *)
Definition malloc_or_null {A} (ok : bool) (bytes elt : Z) : list (cell A) :=
  if ok then malloc_cells bytes elt else [].

Definition realloc_or_null {A} (ok : bool) (a : list (cell A)) (bytes elt : Z)
    : list (cell A) :=
  if ok then realloc_cells a bytes elt else [].

(** [errno] after allocation calls: a failed call sets it to [ENOMEM]. *)
Definition errno_after (all_ok : bool) (errno : Z) : Z :=
  if all_ok then errno else ENOMEM.

(** ** C strings *)

Definition NUL : ascii := Ascii.zero.

(** The C string starting at the first byte of [s]: the bytes before the
    first NUL ([strcpy] copies exactly these). *)
Fixpoint c_str (s : string) : string :=
  match s with
  | EmptyString => EmptyString
  | String c r => if Ascii.eqb c NUL then EmptyString else String c (c_str r)
  end.

Definition strlen (s : string) : Z := Z.of_nat (String.length s).

Definition code (c : ascii) : Z := Z.of_N (N_of_ascii c).

(** [isspace] in the C locale: space, and the controls 9 to 13. *)
Definition isspace (c : ascii) : bool :=
  (code c =? 32) || ((9 <=? code c) && (code c <=? 13)).

Definition isdigit (c : ascii) : bool := (48 <=? code c) && (code c <=? 57).

(** ** strtol (base 10) *)

(** Number of leading white-space characters. *)
Fixpoint span_space (s : string) : Z :=
  match s with
  | String c r => if isspace c then 1 + span_space r else 0
  | EmptyString => 0
  end.

Fixpoint drop_space (s : string) : string :=
  match s with
  | String c r => if isspace c then drop_space r else s
  | EmptyString => s
  end.

(** Leading decimal digits of [s]: the value accumulated from [acc] and the
    number of digits read. *)
Fixpoint scan_digits (s : string) (acc : Z) : Z * Z :=
  match s with
  | String c r =>
      if isdigit c
      then let '(v, n) := scan_digits r (10 * acc + (code c - 48)) in (v, 1 + n)
      else (acc, 0)
  | EmptyString => (acc, 0)
  end.

(** An optional sign: whether it is a minus, its length, and the rest. *)
Definition scan_sign (s : string) : bool * Z * string :=
  match s with
  | String "-" t => (true, 1, t)
  | String "+" t => (false, 1, t)
  | _ => (false, 0, s)
  end.

Record strtol_result := mkStrtol {
  sl_value : Z;   (* returned long *)
  sl_end : Z;     (* endptr - str *)
  sl_errno : Z    (* errno after the call *)
}.

(** [strtol (str, &cursor, 10)]: white space, an optional sign, decimal
    digits.  Without a digit nothing is converted and [cursor = str]; a
    value outside [long] is clamped and sets [errno] to [ERANGE]; [errno] is
    otherwise left as it was. *)
Definition strtol (str : string) (errno : Z) : strtol_result :=
  let ws := span_space str in
  let r := drop_space str in
  let '(neg, sg, r') := scan_sign r in
  let '(v, nd) := scan_digits r' 0 in
  if nd =? 0 then mkStrtol 0 0 errno
  else
    let x := if neg then - v else v in
    if LONG_MAX <? x then mkStrtol LONG_MAX (ws + sg + nd) ERANGE
    else if x <? LONG_MIN then mkStrtol LONG_MIN (ws + sg + nd) ERANGE
    else mkStrtol x (ws + sg + nd) errno.

(** ** Typed converter: integers *)

Record conv_result (A : Type) := mkConv {
  cv_ret : A;     (* returned value *)
  cv_err : Z;     (* *err_p after the call *)
  cv_errno : Z    (* errno after the call *)
}.
Arguments mkConv {A} _ _ _.
Arguments cv_ret {A} _.
Arguments cv_err {A} _.
Arguments cv_errno {A} _.

Definition parse_int_error_check (str : string) (err : Z) (errno : Z) (len : Z)
  : conv_result Z :=
  let r := strtol str errno in
  let tmp := sl_value r in
  let pdif := sl_end r in
  if negb (size_t pdif =? len) then mkConv 0 1 (sl_errno r)
  else if (sl_errno r =? ERANGE) || (tmp <? INT_MIN) || (INT_MAX <? tmp)
  then mkConv 0 2 (sl_errno r)
  else mkConv tmp err (sl_errno r).

(** ** strtod

    The decimal-to-binary conversion of [strtod] and its underflow policy
    are implementation-defined; the converter only depends on how many
    characters were consumed, on [errno], and on the value being passed
    through.  The library function is therefore an interface, with the
    guarantee of ISO C 7.22.1.3 for an empty subject sequence: nothing is
    converted, zero is returned, [cursor = str] and [errno] is untouched. *)

Record strtod_result (D : Type) := mkStrtod {
  sd_value : D;   (* returned double *)
  sd_end : Z;     (* endptr - str *)
  sd_errno : Z    (* errno after the call *)
}.
Arguments mkStrtod {D} _ _ _.
Arguments sd_value {D} _.
Arguments sd_end {D} _.
Arguments sd_errno {D} _.

Class Strtod := {
  double : Type;
  dzero : double;
  strtod : string -> Z -> strtod_result double;
  strtod_empty : forall errno, strtod EmptyString errno = mkStrtod dzero 0 errno
}.

(** A decimal instance of the interface: white space, an optional sign,
    digits with an optional fraction, an optional exponent.  The value is
    kept as the decimal that was read (its rounding to binary64 is left
    implicit); a magnitude that rounds beyond the largest finite binary64
    gives [Huge] and [ERANGE].  Hexadecimal constants, infinities and NaNs
    are not recognised and underflow is not reported. *)

Inductive decimal :=
  | Finite (neg : bool) (mant exp10 : Z)
  | Huge (neg : bool).

Fixpoint drop_digits (s : string) : string :=
  match s with
  | String c r => if isdigit c then drop_digits r else s
  | EmptyString => s
  end.

Definition scan_exponent (s : string) : Z * Z :=
  match s with
  | String c t =>
      if (code c =? 101) || (code c =? 69)
      then
        let '(eneg, esg, t') := scan_sign t in
        let '(ev, en) := scan_digits t' 0 in
        if en =? 0 then (0, 0) else (if eneg then - ev else ev, 1 + esg + en)
      else (0, 0)
  | EmptyString => (0, 0)
  end.

(** Round-to-nearest overflows from [2^1024 - 2^970] upwards. *)
Definition overflows (mant exp10 : Z) : bool :=
  let bound := 2 ^ 1024 - 2 ^ 970 in
  if 0 <=? exp10 then bound <=? mant * 10 ^ exp10
  else bound * 10 ^ (- exp10) <=? mant.

Definition strtod_decimal (str : string) (errno : Z) : strtod_result decimal :=
  let ws := span_space str in
  let '(neg, sg, r1) := scan_sign (drop_space str) in
  let '(m1, n1) := scan_digits r1 0 in
  let r2 := drop_digits r1 in
  let '(m2, n2, dot, r3) :=
    match r2 with
    | String "." t => let '(m, n) := scan_digits t m1 in (m, n, 1, drop_digits t)
    | _ => (m1, 0, 0, r2)
    end in
  if n1 + n2 =? 0 then mkStrtod (Finite false 0 0) 0 errno
  else
    let '(e, ne) := scan_exponent r3 in
    let fin := ws + sg + n1 + dot + n2 + ne in
    if overflows m2 (e - n2) then mkStrtod (Huge neg) fin ERANGE
    else mkStrtod (Finite neg m2 (e - n2)) fin errno.

Definition decimal_strtod : Strtod := {|
  double := decimal;
  dzero := Finite false 0 0;
  strtod := strtod_decimal;
  strtod_empty := fun errno => eq_refl
|}.

(** ** Typed converter: doubles *)

Definition parse_double_error_check `{Strtod} (str : string) (err : Z) (errno : Z)
  (len : Z) : conv_result double :=
  let r := strtod str errno in
  let out := sd_value r in
  if negb (size_t (sd_end r) =? len) then mkConv dzero 1 (sd_errno r)
  else if sd_errno r =? ERANGE then mkConv dzero 2 (sd_errno r)
  else mkConv out err (sd_errno r).

(** ** Printed integers and field texts *)

Definition digit_char (d : Z) : ascii := ascii_of_N (Z.to_N (48 + d)).

(** The decimal digits of [n], most significant first, in front of [acc]. *)
Fixpoint print_digits (fuel : nat) (n : Z) (acc : string) : string :=
  match fuel with
  | O => acc
  | S f =>
      let acc' := String (digit_char (n mod 10)) acc in
      if n <? 10 then acc' else print_digits f (n / 10) acc'
  end.

(** The text that [printf] writes for the conversion [%d] of an [int], as
    the test program prints the cells. *)
Definition print_int (z : Z) : string :=
  if z <? 0 then String "-" (print_digits 10 (- z) EmptyString)
  else print_digits 10 z EmptyString.

Fixpoint all_chars (p : ascii -> bool) (s : string) : bool :=
  match s with
  | EmptyString => true
  | String c r => p c && all_chars p r
  end.

(** A text that is an integer numeral over its whole length: white space,
    an optional sign, then at least one digit and nothing but digits. *)
Definition integer_text (s : string) : bool :=
  let '(_, _, r) := scan_sign (drop_space s) in
  match r with
  | EmptyString => false
  | String _ _ => all_chars isdigit r
  end.

(** ** Error messages *)

Definition PARSE_EINVALID : Z := 4.

Definition parse_errors : list string :=
  [ "success";
    "could not convert string to int";
    "value is out of range for int";
    "line has too many fields";
    "previous line has not enough fields";
    "invalid status code" ]%string.

Definition cb_err_str (err_status : Z) : string :=
  if (PARSE_EINVALID <=? err_status) || (err_status <? 0)
  then nth (Z.to_nat PARSE_EINVALID) parse_errors EmptyString
  else nth (Z.to_nat err_status) parse_errors EmptyString.

Definition PARSE_EINVALID_DOUBLE : Z := 4.

Definition parse_errors_double : list string :=
  [ "success";
    "could not convert string to double";
    "value is out of range for double";
    "line has too many fields";
    "previous line has not enough fields";
    "invalid status code" ]%string.

Definition cb_err_str_double (err_status : Z) : string :=
  if (PARSE_EINVALID_DOUBLE <=? err_status) || (err_status <? 0)
  then nth (Z.to_nat PARSE_EINVALID_DOUBLE) parse_errors_double EmptyString
  else nth (Z.to_nat err_status) parse_errors_double EmptyString.

(** ** Tokenizer events *)

Inductive event :=
  | Field (s : string)      (* field callback, with [len = strlen s] bytes *)
  | EndOfRecord (c : Z).    (* record callback, with the terminating character *)

(** One [csv_parse] call: the events it delivered and whether it reported
    the whole buffer as consumed. *)
Record chunk := mkChunk {
  events : list event;
  parse_ok : bool
}.

(** What the environment hands to a driver. *)
Record input := mkInput {
  csv_init_ok : bool;
  fopen_ok : bool;
  chunks : list chunk;         (* successive [fread] + [csv_parse] rounds *)
  ferror : bool;               (* stream error flag after the loop *)
  fini_events : list event;    (* events delivered by [csv_fini] *)
  errno0 : Z                   (* [errno] on entry *)
}.

(** Number of events delivered by the [csv_parse] calls of a file. *)
Definition event_count (cs : list chunk) : Z :=
  Z.of_nat (length (concat (map events cs))).

(** * Fixed-schema pipeline (ILI input) *)

Module Ili.

Record ILIinput := mkILIinput {
  size : Z;
  year : list (cell Z);
  week : list (cell Z);
  estInc : list (cell Z)
}.

Record ILIinputAux := mkAux {
  data_p : ILIinput;
  capacity : Z;
  curr_row : Z;
  curr_col : Z;
  err_status : Z;
  err_field : option string
}.

(** The callbacks' view of the machine: the auxiliary struct (which owns
    the only reference to the caller's dataset) and [errno]. *)
Record world := mkWorld {
  aux : ILIinputAux;
  errno : Z
}.

Definition set_data (a : ILIinputAux) (d : ILIinput) : ILIinputAux :=
  mkAux d (capacity a) (curr_row a) (curr_col a) (err_status a) (err_field a).
Definition set_capacity (a : ILIinputAux) (v : Z) : ILIinputAux :=
  mkAux (data_p a) v (curr_row a) (curr_col a) (err_status a) (err_field a).
Definition set_curr_row (a : ILIinputAux) (v : Z) : ILIinputAux :=
  mkAux (data_p a) (capacity a) v (curr_col a) (err_status a) (err_field a).
Definition set_curr_col (a : ILIinputAux) (v : Z) : ILIinputAux :=
  mkAux (data_p a) (capacity a) (curr_row a) v (err_status a) (err_field a).
Definition set_err_status (a : ILIinputAux) (v : Z) : ILIinputAux :=
  mkAux (data_p a) (capacity a) (curr_row a) (curr_col a) v (err_field a).
Definition set_err_field (a : ILIinputAux) (v : option string) : ILIinputAux :=
  mkAux (data_p a) (capacity a) (curr_row a) (curr_col a) (err_status a) v.

Definition set_size (d : ILIinput) (v : Z) : ILIinput :=
  mkILIinput v (year d) (week d) (estInc d).
Definition set_year (d : ILIinput) (v : list (cell Z)) : ILIinput :=
  mkILIinput (size d) v (week d) (estInc d).
Definition set_week (d : ILIinput) (v : list (cell Z)) : ILIinput :=
  mkILIinput (size d) (year d) v (estInc d).
Definition set_estInc (d : ILIinput) (v : list (cell Z)) : ILIinput :=
  mkILIinput (size d) (year d) (week d) v.

(** [alloc_ili_input] and [realloc_ili_input] return 0, since allocation
    succeeds; the model keeps the dataset they leave behind. *)
Definition alloc_ili_input (reserve_size : Z) : ILIinput :=
  mkILIinput 0
    (malloc_cells (size_t (reserve_size * sizeof_int)) sizeof_int)
    (malloc_cells (size_t (reserve_size * sizeof_int)) sizeof_int)
    (malloc_cells (size_t (reserve_size * sizeof_int)) sizeof_int).

Definition realloc_ili_input (d : ILIinput) (new_capacity : Z) : ILIinput :=
  mkILIinput (size d)
    (realloc_cells (year d) (size_t (new_capacity * sizeof_int)) sizeof_int)
    (realloc_cells (week d) (size_t (new_capacity * sizeof_int)) sizeof_int)
    (realloc_cells (estInc d) (size_t (new_capacity * sizeof_int)) sizeof_int).

(** The three converting cases of the switch in [cb1]: convert, then store
    the returned value at index [size] of the selected array. *)
Definition convert_into (get : ILIinput -> list (cell Z))
    (set : ILIinput -> list (cell Z) -> ILIinput)
    (s : string) (len : Z) (w : world) : option world :=
  let a := aux w in
  let d := data_p a in
  let r := parse_int_error_check s (err_status a) (errno w) len in
  arr ← store (get d) (size d) (cv_ret r);
  Some (mkWorld (set_err_status (set_data a (set d arr)) (cv_err r)) (cv_errno r)).

(** Field callback. *)
Definition cb1 (s : string) (len : Z) (w : world) : option world :=
  let a := aux w in
  if curr_row a =? 1 then Some w
  else if negb (err_status a =? 0) then Some w
  else
    w1 ← (match curr_col a with
          | 0 | 1 => Some w
          | 2 => convert_into year set_year s len w
          | 3 => convert_into week set_week s len w
          | 4 => convert_into estInc set_estInc s len w
          | _ => Some w
          end);
    let a1 := aux w1 in
    if negb (err_status a1 =? 0)
    then Some (mkWorld (set_err_field a1 (Some (c_str s))) (errno w1))
    else Some (mkWorld (set_curr_col a1 (size_t (curr_col a1 + 1))) (errno w1)).

(** Record callback. *)
Definition cb2 (c : Z) (a : ILIinputAux) : ILIinputAux :=
  if negb (err_status a =? 0) then a
  else
    let a1 :=
      if (size_t (curr_col a - 1) <? FILE_NUM_COLS) && (1 <? curr_row a)
      then set_err_field (set_err_status a 4) (Some EmptyString)
      else a in
    let a2 := set_curr_col a1 1 in
    let row := curr_row a2 in
    let a3 := set_curr_row a2 (size_t (row + 1)) in
    if row =? 1 then a3
    else
      let d := set_size (data_p a3) (size_t (size (data_p a3) + 1)) in
      if capacity a3 <=? size d
      then
        let cap := size_t (capacity a3 * 2) in
        set_data (set_capacity a3 cap) (realloc_ili_input d cap)
      else set_data a3 d.

Definition deliver (ev : event) (w : world) : option world :=
  match ev with
  | Field s => cb1 s (strlen s) w
  | EndOfRecord c => Some (mkWorld (cb2 c (aux w)) (errno w))
  end.

(** The callbacks run by one [csv_parse] or [csv_fini] call. *)
Fixpoint run (evs : list event) (w : world) : option world :=
  match evs with
  | [] => Some w
  | ev :: evs' => w' ← deliver ev w; run evs' w'
  end.

(** The read loop; the boolean is [parser.status != 0] at its exit. *)
Fixpoint read_loop (cs : list chunk) (w : world) : option (world * bool) :=
  match cs with
  | [] => Some (w, false)
  | c :: cs' =>
      w' ← run (events c) w;
      if negb (parse_ok c) then Some (w', true)
      else if negb (err_status (aux w') =? 0) then Some (w', false)
      else read_loop cs' w'
  end.

Definition reserve_size : Z := 53.

(** The arguments of the message that the driver prints when the read loop
    finds [err_status] set: field number, offending text, line number and
    the description of the error. *)
Record diagnostic := mkDiagnostic {
  dg_field : Z;
  dg_text : option string;
  dg_line : Z;
  dg_message : string
}.

Definition report (a : ILIinputAux) : option diagnostic :=
  if negb (err_status a =? 0)
  then Some (mkDiagnostic (curr_col a) (err_field a) (curr_row a)
                          (cb_err_str (err_status a)))
  else None.

Definition shrink_to_fit (w : world) : world :=
  let a := aux w in
  if size (data_p a) <? capacity a
  then mkWorld (set_data a (realloc_ili_input (data_p a) (size (data_p a)))) (errno w)
  else w.

(** [read_ili_csv]: the exit code and the final machine, whose [data_p] is
    the caller's dataset.  The dataset's previous content is overwritten by
    the initial allocation before anything reads it. *)
Definition read_ili_csv (inp : input) : option (Z * world) :=
  let w0 := mkWorld (mkAux (alloc_ili_input reserve_size) reserve_size 1 1 0 None)
                    (errno0 inp) in
  if negb (csv_init_ok inp) then Some (EXIT_FAILURE, w0)
  else if negb (fopen_ok inp) then Some (EXIT_FAILURE, w0)
  else
    '(w1, parser_status) ← read_loop (chunks inp) w0;
    let w2 := shrink_to_fit w1 in
    if ferror inp || negb (err_status (aux w2) =? 0) || parser_status
    then Some (EXIT_FAILURE, w2)
    else
      w3 ← run (fini_events inp) w2;
      Some (EXIT_SUCCESS, w3).

(** *** The diagnostic of the read loop

    The read loop once more, together with the field diagnostic that it
    prints: none when the loop leaves because [csv_parse] failed (that exit
    comes first in the loop body) or because the file is exhausted, and
    [report] of the machine when it leaves because [err_status] is set. *)
Fixpoint read_loop_log (cs : list chunk) (w : world)
    : option (world * bool * option diagnostic) :=
  match cs with
  | [] => Some (w, false, None)
  | c :: cs' =>
      w' ← run (events c) w;
      if negb (parse_ok c) then Some (w', true, None)
      else if negb (err_status (aux w') =? 0) then Some (w', false, report (aux w'))
      else read_loop_log cs' w'
  end.

(** The machine on which the first callback runs. *)
Definition initial_world (inp : input) : world :=
  mkWorld (mkAux (alloc_ili_input reserve_size) reserve_size 1 1 0 None) (errno0 inp).

(** [read_ili_csv] with the field diagnostic it has printed, if any.  Nothing
    is printed about what [csv_fini] delivers. *)
Definition read_ili_csv_log (inp : input)
    : option (Z * world * option diagnostic) :=
  let w0 := initial_world inp in
  if negb (csv_init_ok inp) then Some (EXIT_FAILURE, w0, None)
  else if negb (fopen_ok inp) then Some (EXIT_FAILURE, w0, None)
  else
    '(w1, parser_status, printed) ← read_loop_log (chunks inp) w0;
    let w2 := shrink_to_fit w1 in
    if ferror inp || negb (err_status (aux w2) =? 0) || parser_status
    then Some (EXIT_FAILURE, w2, printed)
    else
      w3 ← run (fini_events inp) w2;
      Some (EXIT_SUCCESS, w3, printed).

(** *** Allocation that may fail

    The definitions above are the program on the runs in which every
    [malloc] and [realloc] call succeeds.  Below, [heap k] tells whether the
    [k]-th allocation call made by this file's functions succeeds, and the
    machine carries the number of calls made so far.  The text of a rejected
    field is copied into a block that is not tested, so a failed [malloc]
    there is a copy through [NULL]; the result of [realloc_ili_input] is
    not looked at by any caller. *)
Section Heap.
Variable heap : nat -> bool.

Definition three_ok (k : nat) : bool := heap k && heap (S k) && heap (S (S k)).

(** [alloc_ili_input], with its return value. *)
Definition alloc_ili_input_heap (reserve_size : Z) (k : nat) : ILIinput * Z :=
  (mkILIinput 0
     (malloc_or_null (heap k) (size_t (reserve_size * sizeof_int)) sizeof_int)
     (malloc_or_null (heap (S k)) (size_t (reserve_size * sizeof_int)) sizeof_int)
     (malloc_or_null (heap (S (S k))) (size_t (reserve_size * sizeof_int)) sizeof_int),
   if three_ok k then 0 else 1).

Definition realloc_ili_input_heap (d : ILIinput) (new_capacity : Z) (k : nat)
    : ILIinput :=
  mkILIinput (size d)
    (realloc_or_null (heap k) (year d)
       (size_t (new_capacity * sizeof_int)) sizeof_int)
    (realloc_or_null (heap (S k)) (week d)
       (size_t (new_capacity * sizeof_int)) sizeof_int)
    (realloc_or_null (heap (S (S k))) (estInc d)
       (size_t (new_capacity * sizeof_int)) sizeof_int).

Definition cb1_heap (s : string) (len : Z) (w : world) (k : nat)
    : option (world * nat) :=
  let a := aux w in
  if curr_row a =? 1 then Some (w, k)
  else if negb (err_status a =? 0) then Some (w, k)
  else
    w1 ← (match curr_col a with
          | 0 | 1 => Some w
          | 2 => convert_into year set_year s len w
          | 3 => convert_into week set_week s len w
          | 4 => convert_into estInc set_estInc s len w
          | _ => Some w
          end);
    let a1 := aux w1 in
    if negb (err_status a1 =? 0)
    then
      if heap k
      then Some (mkWorld (set_err_field a1 (Some (c_str s))) (errno w1), S k)
      else None
    else Some (mkWorld (set_curr_col a1 (size_t (curr_col a1 + 1))) (errno w1), k).

Definition cb2_heap (c : Z) (w : world) (k : nat) : option (world * nat) :=
  let a := aux w in
  if negb (err_status a =? 0) then Some (w, k)
  else
    let short := (size_t (curr_col a - 1) <? FILE_NUM_COLS) && (1 <? curr_row a) in
    if short && negb (heap k) then None
    else
      let k1 := if short then S k else k in
      let a1 :=
        if short then set_err_field (set_err_status a 4) (Some EmptyString)
        else a in
      let a2 := set_curr_col a1 1 in
      let row := curr_row a2 in
      let a3 := set_curr_row a2 (size_t (row + 1)) in
      if row =? 1 then Some (mkWorld a3 (errno w), k1)
      else
        let d := set_size (data_p a3) (size_t (size (data_p a3) + 1)) in
        if capacity a3 <=? size d
        then
          let cap := size_t (capacity a3 * 2) in
          Some (mkWorld (set_data (set_capacity a3 cap)
                           (realloc_ili_input_heap d cap k1))
                        (errno_after (three_ok k1) (errno w)),
                S (S (S k1)))
        else Some (mkWorld (set_data a3 d) (errno w), k1).

Definition deliver_heap (ev : event) (w : world) (k : nat) : option (world * nat) :=
  match ev with
  | Field s => cb1_heap s (strlen s) w k
  | EndOfRecord c => cb2_heap c w k
  end.

Fixpoint run_heap (evs : list event) (w : world) (k : nat) : option (world * nat) :=
  match evs with
  | [] => Some (w, k)
  | ev :: evs' => '(w', k') ← deliver_heap ev w k; run_heap evs' w' k'
  end.

Fixpoint read_loop_heap (cs : list chunk) (w : world) (k : nat)
    : option (world * nat * bool) :=
  match cs with
  | [] => Some (w, k, false)
  | c :: cs' =>
      '(w', k') ← run_heap (events c) w k;
      if negb (parse_ok c) then Some (w', k', true)
      else if negb (err_status (aux w') =? 0) then Some (w', k', false)
      else read_loop_heap cs' w' k'
  end.

Definition shrink_to_fit_heap (w : world) (k : nat) : world * nat :=
  let a := aux w in
  if size (data_p a) <? capacity a
  then (mkWorld (set_data a (realloc_ili_input_heap (data_p a) (size (data_p a)) k))
                (errno_after (three_ok k) (errno w)),
        S (S (S k)))
  else (w, k).

(** [read_ili_csv]; the three blocks of the initial allocation are the
    calls 0, 1 and 2. *)
Definition read_ili_csv_heap (inp : input) : option (Z * world) :=
  let '(d0, failed) := alloc_ili_input_heap reserve_size 0 in
  let w0 := mkWorld (mkAux d0 reserve_size 1 1 0 None)
                    (errno_after (three_ok 0) (errno0 inp)) in
  if negb (failed =? 0) then Some (EXIT_FAILURE, w0)
  else if negb (csv_init_ok inp) then Some (EXIT_FAILURE, w0)
  else if negb (fopen_ok inp) then Some (EXIT_FAILURE, w0)
  else
    '(w1, k1, parser_status) ← read_loop_heap (chunks inp) w0 3;
    let '(w2, k2) := shrink_to_fit_heap w1 k1 in
    if ferror inp || negb (err_status (aux w2) =? 0) || parser_status
    then Some (EXIT_FAILURE, w2)
    else
      '(w3, _) ← run_heap (fini_events inp) w2 k2;
      Some (EXIT_SUCCESS, w3).

End Heap.

(** *** Predicates used to state properties of the pipeline *)

(** The field callback is about to convert: a data row, no error so far,
    and the column cursor on one of the three integer columns. *)
Definition data_column (a : ILIinputAux) : Prop :=
  curr_row a <> 1 /\ err_status a = 0 /\ 2 <= curr_col a <= FILE_NUM_COLS.

(** The array that column [col] is routed to. *)
Definition column_array (col : Z) (d : ILIinput) : list (cell Z) :=
  match col with
  | 2 => year d
  | 3 => week d
  | 4 => estInc d
  | _ => []
  end.

(** Index [size] is an allocated cell of the three arrays. *)
Definition in_bounds (d : ILIinput) : Prop :=
  0 <= size d /\
  size d < Z.of_nat (length (year d)) /\
  size d < Z.of_nat (length (week d)) /\
  size d < Z.of_nat (length (estInc d)).

(** The three arrays have [n] allocated cells each. *)
Definition allocated (n : Z) (d : ILIinput) : Prop :=
  Z.of_nat (length (year d)) = n /\
  Z.of_nat (length (week d)) = n /\
  Z.of_nat (length (estInc d)) = n.

(** The accumulator between two callbacks of the read loop: [capacity]
    cells allocated in each array, the next row's index among them, and a
    capacity whose double (in bytes) still fits [size_t]. *)
Definition consistent (a : ILIinputAux) : Prop :=
  allocated (capacity a) (data_p a) /\
  0 <= size (data_p a) < capacity a /\
  capacity a * 2 * sizeof_int < 2 ^ 64.

(** [consistent], with room for [n] more events before any counter can
    wrap. *)
Definition inv (n : Z) (a : ILIinputAux) : Prop :=
  allocated (capacity a) (data_p a) /\
  0 <= size (data_p a) < capacity a /\
  capacity a <= reserve_size + 2 * size (data_p a) /\
  0 <= n /\ size (data_p a) + n <= 2 ^ 59.

(** A machine in the middle of the second row of a file: [n] rows are
    already stored and the column cursor is on [col]. *)
Definition sample_world (n col : Z) : world :=
  mkWorld
    (mkAux (set_size (alloc_ili_input reserve_size) n) reserve_size 2 col 0 None)
    0.

(** Events of sample files.  [csv_fini] passes -1 as the terminating
    character of the record it flushes. *)
Definition header_row : list event :=
  [Field "idx"; Field "year"; Field "week"; Field "est"; EndOfRecord 10].

(** A header and the data line [0,2020,1], each ended by a line feed. *)
Definition short_row_file : input :=
  mkInput true true
    [mkChunk (header_row ++ [Field "0"; Field "2020"; Field "1"; EndOfRecord 10]) true]
    false [] 0.

(** A header and the data line [0,2020,1,100,x] with no line feed after it:
    the last field and the record are delivered by [csv_fini]. *)
Definition unterminated_file : input :=
  mkInput true true
    [mkChunk (header_row ++ [Field "0"; Field "2020"; Field "1"; Field "100"]) true]
    false [Field "x"; EndOfRecord (-1)] 0.

(** A header, the data line [0,2020,1,100] ended by a line feed, and the
    data line [1,2020,2,150,x] with no line feed after it. *)
Definition unterminated_second_row_file : input :=
  mkInput true true
    [mkChunk (header_row ++
              [Field "0"; Field "2020"; Field "1"; Field "100"; EndOfRecord 10;
               Field "1"; Field "2020"; Field "2"; Field "150"]) true]
    false [Field "x"; EndOfRecord (-1)] 0.

(** A header and the data line [0] with no line feed after it: the line is
    short, and its only field and its record end are delivered by
    [csv_fini]. *)
Definition short_unterminated_file : input :=
  mkInput true true [mkChunk header_row true] false [Field "0"; EndOfRecord (-1)] 0.

(** A header and the data line [0,,1,100], whose year field is empty. *)
Definition empty_year_file : input :=
  mkInput true true
    [mkChunk (header_row ++
              [Field "0"; Field ""; Field "1"; Field "100"; EndOfRecord 10]) true]
    false [] 0.

(** The reading of "a short row is reported with its own row number": the
    record callback flags the row and leaves the row cursor on it. *)
Definition short_row_reported_in_place (c : Z) (a : ILIinputAux) : Prop :=
  err_status (cb2 c a) = 4 /\
  err_field (cb2 c a) = Some EmptyString /\
  curr_row (cb2 c a) = curr_row a.

(** *** Lines of a file *)

(** A data line as the tokenizer delivers it: the first field, which is
    ignored, the three data fields, any fields beyond the schema and the
    character that ended the record. *)
Record line := mkLine {
  l_index : string;
  l_year : string;
  l_week : string;
  l_estInc : string;
  l_extra : list string;
  l_term : Z
}.

Definition line_events (l : line) : list event :=
  Field (l_index l) :: Field (l_year l) :: Field (l_week l) :: Field (l_estInc l)
    :: map Field (l_extra l) ++ [EndOfRecord (l_term l)].

(** The events of a file: a header record, then the data lines. *)
Definition file_events (header : list string) (c : Z) (ls : list line)
  : list event :=
  map Field header ++ [EndOfRecord c] ++ concat (map line_events ls).

(** The field text converts, with [errno] as it is on entry, and the value
    it converts to. *)
Definition converts (errno : Z) (s : string) : Prop :=
  cv_err (parse_int_error_check s 0 errno (strlen s)) = 0.

Definition value (errno : Z) (s : string) : Z :=
  cv_ret (parse_int_error_check s 0 errno (strlen s)).

Definition line_ok (errno : Z) (l : line) : Prop :=
  converts errno (l_year l) /\ converts errno (l_week l) /\
  converts errno (l_estInc l).

Definition all_parsed (cs : list chunk) : Prop :=
  Forall (fun c => parse_ok c = true) cs.

(** The machine between two data lines. *)
Definition row_start (e : Z) (w : world) : Prop :=
  errno w = e /\ err_status (aux w) = 0 /\ curr_col (aux w) = 1 /\
  curr_row (aux w) = size (data_p (aux w)) + 2.

(** The rows stored so far are the given values. *)
Definition holds (d : ILIinput) (ys ws es : list Z) : Prop :=
  size d = Z.of_nat (length ys) /\
  length ws = length ys /\ length es = length ys /\
  (forall i v, ys !! i = Some v -> year d !! i = Some (Some v)) /\
  (forall i v, ws !! i = Some v -> week d !! i = Some (Some v)) /\
  (forall i v, es !! i = Some v -> estInc d !! i = Some (Some v)).

(** Nothing that concerns the stored rows differs between two machines. *)
Definition keeps_rows (w w' : world) : Prop :=
  size (data_p (aux w')) = size (data_p (aux w)) /\
  capacity (aux w') = capacity (aux w) /\
  curr_row (aux w') = curr_row (aux w) /\
  length (year (data_p (aux w'))) = length (year (data_p (aux w))) /\
  length (week (data_p (aux w'))) = length (week (data_p (aux w))) /\
  length (estInc (data_p (aux w'))) = length (estInc (data_p (aux w))) /\
  forall i : nat,
    Z.of_nat i < size (data_p (aux w)) ->
    year (data_p (aux w')) !! i = year (data_p (aux w)) !! i /\
    week (data_p (aux w')) !! i = week (data_p (aux w)) !! i /\
    estInc (data_p (aux w')) !! i = estInc (data_p (aux w)) !! i.

End Ili.

(** * Single-column pipeline (contacts input) *)

Module Column.
Section Pipeline.
Context `{Strtod}.

(** [size_p] and [vec_p] point to the caller's [int] and [double*]; the
    struct owns the only live references, so the pointees are held here. *)
Record ColumnInputAux := mkAux {
  size_p : Z;
  vec_p : list (cell double);
  capacity : Z;
  curr_row : Z;
  curr_col : Z;
  err_status : Z;
  err_field : option string
}.

Record world := mkWorld {
  aux : ColumnInputAux;
  errno : Z
}.

Definition set_size (a : ColumnInputAux) (v : Z) : ColumnInputAux :=
  mkAux v (vec_p a) (capacity a) (curr_row a) (curr_col a) (err_status a) (err_field a).
Definition set_vec (a : ColumnInputAux) (v : list (cell double)) : ColumnInputAux :=
  mkAux (size_p a) v (capacity a) (curr_row a) (curr_col a) (err_status a) (err_field a).
Definition set_capacity (a : ColumnInputAux) (v : Z) : ColumnInputAux :=
  mkAux (size_p a) (vec_p a) v (curr_row a) (curr_col a) (err_status a) (err_field a).
Definition set_curr_row (a : ColumnInputAux) (v : Z) : ColumnInputAux :=
  mkAux (size_p a) (vec_p a) (capacity a) v (curr_col a) (err_status a) (err_field a).
Definition set_curr_col (a : ColumnInputAux) (v : Z) : ColumnInputAux :=
  mkAux (size_p a) (vec_p a) (capacity a) (curr_row a) v (err_status a) (err_field a).
Definition set_err_status (a : ColumnInputAux) (v : Z) : ColumnInputAux :=
  mkAux (size_p a) (vec_p a) (capacity a) (curr_row a) (curr_col a) v (err_field a).
Definition set_err_field (a : ColumnInputAux) (v : option string) : ColumnInputAux :=
  mkAux (size_p a) (vec_p a) (capacity a) (curr_row a) (curr_col a) (err_status a) v.

(** Field callback. *)
Definition contacts_cb1 (s : string) (len : Z) (w : world) : option world :=
  let a := aux w in
  let size := size_p a in
  if curr_row a =? 1 then Some w
  else if negb (err_status a =? 0) then Some w
  else
    w1 ← (match curr_col a with
          | 0 | 1 => Some w
          | 2 =>
              let r := parse_double_error_check s (err_status a) (errno w) len in
              arr ← store (vec_p a) size (cv_ret r);
              Some (mkWorld (set_err_status (set_vec a arr) (cv_err r)) (cv_errno r))
          | _ => Some w
          end);
    let a1 := aux w1 in
    if negb (err_status a1 =? 0)
    then Some (mkWorld (set_err_field a1 (Some (c_str s))) (errno w1))
    else Some (mkWorld (set_curr_col a1 (size_t (curr_col a1 + 1))) (errno w1)).

(** Record callback. *)
Definition contacts_cb2 (c : Z) (a : ColumnInputAux) : ColumnInputAux :=
  if negb (err_status a =? 0) then a
  else
    let a1 :=
      if (size_t (curr_col a - 1) <? 2) && (1 <? curr_row a)
      then set_err_field (set_err_status a 4) (Some EmptyString)
      else a in
    let a2 := set_curr_col a1 1 in
    let row := curr_row a2 in
    let a3 := set_curr_row a2 (size_t (row + 1)) in
    if row =? 1 then a3
    else
      let a4 := set_size a3 (to_int (size_p a3 + 1)) in
      if capacity a4 <=? size_t (size_p a4)
      then
        let cap := size_t (capacity a4 * 2) in
        set_vec (set_capacity a4 cap)
                (realloc_cells (vec_p a4) (size_t (cap * sizeof_double)) sizeof_double)
      else a4.

Definition deliver (ev : event) (w : world) : option world :=
  match ev with
  | Field s => contacts_cb1 s (strlen s) w
  | EndOfRecord c => Some (mkWorld (contacts_cb2 c (aux w)) (errno w))
  end.

Fixpoint run (evs : list event) (w : world) : option world :=
  match evs with
  | [] => Some w
  | ev :: evs' => w' ← deliver ev w; run evs' w'
  end.

Fixpoint read_loop (cs : list chunk) (w : world) : option (world * bool) :=
  match cs with
  | [] => Some (w, false)
  | c :: cs' =>
      w' ← run (events c) w;
      if negb (parse_ok c) then Some (w', true)
      else if negb (err_status (aux w') =? 0) then Some (w', false)
      else read_loop cs' w'
  end.

Definition reserve_size : Z := 25.

Definition shrink_to_fit (w : world) : world :=
  let a := aux w in
  if size_t (size_p a) <? capacity a
  then mkWorld (set_vec a (realloc_cells (vec_p a)
                             (size_t (size_t (size_p a) * sizeof_double)) sizeof_double))
               (errno w)
  else w.

(** What the caller of [read_csv_double_vector] observes. *)
Record outcome := mkOutcome {
  exit_code : Z;
  vec : list (cell double);   (* *vec_p *)
  vsize : Z                   (* *vsize_p *)
}.

(** [read_csv_double_vector], from the caller's [*vec_p] and [*vsize_p]
    (left as they were when the parser cannot be initialised). *)
Definition read_csv_double_vector (inp : input)
    (vec0 : list (cell double)) (vsize0 : Z) : option outcome :=
  if negb (csv_init_ok inp) then Some (mkOutcome EXIT_FAILURE vec0 vsize0)
  else
    let v := malloc_cells (size_t (reserve_size * sizeof_double)) sizeof_double in
    let w0 := mkWorld (mkAux 0 v reserve_size 1 1 0 None) (errno0 inp) in
    if negb (fopen_ok inp) then Some (mkOutcome EXIT_FAILURE v 0)
    else
      '(w1, parser_status) ← read_loop (chunks inp) w0;
      let w2 := shrink_to_fit w1 in
      if ferror inp || negb (err_status (aux w2) =? 0) || parser_status
      then Some (mkOutcome EXIT_FAILURE (vec_p (aux w2)) (size_p (aux w2)))
      else
        w3 ← run (fini_events inp) w2;
        Some (mkOutcome EXIT_SUCCESS (vec_p (aux w3)) (size_p (aux w3))).

(** *** Allocation that may fail

    As for the fixed-schema pipeline: [heap k] tells whether the [k]-th
    allocation call made by this file's functions succeeds.  Only the first
    allocation of the vector is tested. *)
Section Heap.
Variable heap : nat -> bool.

Definition contacts_cb1_heap (s : string) (len : Z) (w : world) (k : nat)
    : option (world * nat) :=
  let a := aux w in
  let size := size_p a in
  if curr_row a =? 1 then Some (w, k)
  else if negb (err_status a =? 0) then Some (w, k)
  else
    w1 ← (match curr_col a with
          | 0 | 1 => Some w
          | 2 =>
              let r := parse_double_error_check s (err_status a) (errno w) len in
              arr ← store (vec_p a) size (cv_ret r);
              Some (mkWorld (set_err_status (set_vec a arr) (cv_err r)) (cv_errno r))
          | _ => Some w
          end);
    let a1 := aux w1 in
    if negb (err_status a1 =? 0)
    then
      if heap k
      then Some (mkWorld (set_err_field a1 (Some (c_str s))) (errno w1), S k)
      else None
    else Some (mkWorld (set_curr_col a1 (size_t (curr_col a1 + 1))) (errno w1), k).

Definition contacts_cb2_heap (c : Z) (w : world) (k : nat) : option (world * nat) :=
  let a := aux w in
  if negb (err_status a =? 0) then Some (w, k)
  else
    let short := (size_t (curr_col a - 1) <? 2) && (1 <? curr_row a) in
    if short && negb (heap k) then None
    else
      let k1 := if short then S k else k in
      let a1 :=
        if short then set_err_field (set_err_status a 4) (Some EmptyString)
        else a in
      let a2 := set_curr_col a1 1 in
      let row := curr_row a2 in
      let a3 := set_curr_row a2 (size_t (row + 1)) in
      if row =? 1 then Some (mkWorld a3 (errno w), k1)
      else
        let a4 := set_size a3 (to_int (size_p a3 + 1)) in
        if capacity a4 <=? size_t (size_p a4)
        then
          let cap := size_t (capacity a4 * 2) in
          Some (mkWorld (set_vec (set_capacity a4 cap)
                           (realloc_or_null (heap k1) (vec_p a4)
                              (size_t (cap * sizeof_double)) sizeof_double))
                        (errno_after (heap k1) (errno w)),
                S k1)
        else Some (mkWorld a4 (errno w), k1).

Definition deliver_heap (ev : event) (w : world) (k : nat) : option (world * nat) :=
  match ev with
  | Field s => contacts_cb1_heap s (strlen s) w k
  | EndOfRecord c => contacts_cb2_heap c w k
  end.

Fixpoint run_heap (evs : list event) (w : world) (k : nat) : option (world * nat) :=
  match evs with
  | [] => Some (w, k)
  | ev :: evs' => '(w', k') ← deliver_heap ev w k; run_heap evs' w' k'
  end.

Fixpoint read_loop_heap (cs : list chunk) (w : world) (k : nat)
    : option (world * nat * bool) :=
  match cs with
  | [] => Some (w, k, false)
  | c :: cs' =>
      '(w', k') ← run_heap (events c) w k;
      if negb (parse_ok c) then Some (w', k', true)
      else if negb (err_status (aux w') =? 0) then Some (w', k', false)
      else read_loop_heap cs' w' k'
  end.

Definition shrink_to_fit_heap (w : world) (k : nat) : world * nat :=
  let a := aux w in
  if size_t (size_p a) <? capacity a
  then (mkWorld (set_vec a (realloc_or_null (heap k) (vec_p a)
                              (size_t (size_t (size_p a) * sizeof_double))
                              sizeof_double))
                (errno_after (heap k) (errno w)),
        S k)
  else (w, k).

(** [read_csv_double_vector]; the first allocation of the vector is call 0,
    and [*vsize_p] is not yet written when it fails. *)
Definition read_csv_double_vector_heap (inp : input)
    (vec0 : list (cell double)) (vsize0 : Z) : option outcome :=
  if negb (csv_init_ok inp) then Some (mkOutcome EXIT_FAILURE vec0 vsize0)
  else
    let v := malloc_or_null (heap 0%nat)
               (size_t (reserve_size * sizeof_double)) sizeof_double in
    if negb (heap 0%nat) then Some (mkOutcome EXIT_FAILURE v vsize0)
    else
      let w0 := mkWorld (mkAux 0 v reserve_size 1 1 0 None) (errno0 inp) in
      if negb (fopen_ok inp) then Some (mkOutcome EXIT_FAILURE v 0)
      else
        '(w1, k1, parser_status) ← read_loop_heap (chunks inp) w0 1%nat;
        let '(w2, k2) := shrink_to_fit_heap w1 k1 in
        if ferror inp || negb (err_status (aux w2) =? 0) || parser_status
        then Some (mkOutcome EXIT_FAILURE (vec_p (aux w2)) (size_p (aux w2)))
        else
          '(w3, _) ← run_heap (fini_events inp) w2 k2;
          Some (mkOutcome EXIT_SUCCESS (vec_p (aux w3)) (size_p (aux w3))).

End Heap.

(** The field callback is about to convert the data column into an
    allocated cell. *)
Definition value_column (a : ColumnInputAux) : Prop :=
  curr_row a <> 1 /\ err_status a = 0 /\ curr_col a = 2 /\
  0 <= size_p a < Z.of_nat (length (vec_p a)).

(** A machine in the middle of the second row of a file: [n] values are
    already stored and the column cursor is on [col]. *)
Definition contacts_sample_world (n col : Z) : world :=
  mkWorld
    (mkAux n (malloc_cells (size_t (reserve_size * sizeof_double)) sizeof_double)
           reserve_size 2 col 0 None)
    0.

(** *** Lines of a file and predicates on the machine *)

(** A data line as the tokenizer delivers it: the ignored first field, the
    value field, any further fields and the character that ended it. *)
Record contacts_line := mkContactsLine {
  cl_index : string;
  cl_value : string;
  cl_extra : list string;
  cl_term : Z
}.

Definition contacts_line_events (l : contacts_line) : list event :=
  Field (cl_index l) :: Field (cl_value l)
    :: map Field (cl_extra l) ++ [EndOfRecord (cl_term l)].

Definition contacts_file_events (header : list string) (c : Z)
    (ls : list contacts_line) : list event :=
  map Field header ++ [EndOfRecord c] ++ concat (map contacts_line_events ls).

(** The value text converts, with [errno] as it is on entry and left as it
    was, and the value it converts to. *)
Definition value_converts (e : Z) (s : string) : Prop :=
  cv_err (parse_double_error_check s 0 e (strlen s)) = 0 /\
  cv_errno (parse_double_error_check s 0 e (strlen s)) = e.

Definition value_of (e : Z) (s : string) : double :=
  cv_ret (parse_double_error_check s 0 e (strlen s)).

Definition contacts_all_parsed (cs : list chunk) : Prop :=
  Forall (fun c => parse_ok c = true) cs.

Definition contacts_row_start (e : Z) (w : world) : Prop :=
  errno w = e /\ err_status (aux w) = 0 /\ curr_col (aux w) = 1 /\
  curr_row (aux w) = size_p (aux w) + 2.

Definition contacts_holds (a : ColumnInputAux) (vs : list double) : Prop :=
  size_p a = Z.of_nat (length vs) /\
  forall i v, vs !! i = Some v -> vec_p a !! i = Some (Some v).

Definition contacts_keeps_rows (w w' : world) : Prop :=
  size_p (aux w') = size_p (aux w) /\
  capacity (aux w') = capacity (aux w) /\
  curr_row (aux w') = curr_row (aux w) /\
  length (vec_p (aux w')) = length (vec_p (aux w)) /\
  forall i : nat,
    Z.of_nat i < size_p (aux w) -> vec_p (aux w') !! i = vec_p (aux w) !! i.

(** The vector between two callbacks of the read loop: [capacity] cells,
    the next value's index among them, and a capacity that is an [int]. *)
Definition contacts_consistent (a : ColumnInputAux) : Prop :=
  Z.of_nat (length (vec_p a)) = capacity a /\
  0 <= size_p a < capacity a /\
  capacity a <= INT_MAX.

(** [contacts_consistent], with room for [n] more events before the [int]
    counter can overflow. *)
Definition contacts_inv (n : Z) (a : ColumnInputAux) : Prop :=
  Z.of_nat (length (vec_p a)) = capacity a /\
  0 <= size_p a < capacity a /\
  capacity a <= reserve_size + 2 * size_p a /\
  0 <= n /\ size_p a + n <= 2 ^ 29.

End Pipeline.

Definition contacts_header_row : list event :=
  [Field "idx"; Field "contacts"; EndOfRecord 10].

(** A header and the data line [0,1.5,x] with no line feed after it: the
    last field and the record are delivered by [csv_fini]. *)
Definition contacts_unterminated_file : input :=
  mkInput true true
    [mkChunk (contacts_header_row ++ [Field "0"; Field "1.5"]) true]
    false [Field "x"; EndOfRecord (-1)] 0.

(** A header and the data line [0,] whose value field is empty. *)
Definition empty_value_file : input :=
  mkInput true true
    [mkChunk (contacts_header_row ++ [Field "0"; Field ""; EndOfRecord 10]) true]
    false [] 0.

End Column.

(** * Properties *)

(** ** The converters *)

Example parse_int_2020 :
  parse_int_error_check "2020" 0 0 4 = mkConv 2020 0 0.
Proof. reflexivity. Qed.

Example parse_int_signed :
  parse_int_error_check " -17" 0 0 4 = mkConv (-17) 0 0.
Proof. reflexivity. Qed.

Example parse_int_long_overflow :
  parse_int_error_check "99999999999999999999" 0 0 20 = mkConv 0 2 ERANGE.
Proof. reflexivity. Qed.

Example parse_int_blank :
  parse_int_error_check " " 0 0 1 = mkConv 0 1 0.
Proof. reflexivity. Qed.

Lemma strtol_errno_cases (s : string) (errno : Z) :
  sl_errno (strtol s errno) = errno \/ sl_errno (strtol s errno) = ERANGE.
Proof.
  unfold strtol.
  destruct (scan_sign (drop_space s)) as [[neg sg] r'].
  destruct (scan_digits r' 0) as [v nd].
  repeat case_match; simpl; auto.
Qed.

(** An error written by the integer converter comes with the value 0. *)
Lemma parse_int_error_zero (s : string) (errno len : Z) :
  cv_err (parse_int_error_check s 0 errno len) <> 0 ->
  cv_ret (parse_int_error_check s 0 errno len) = 0.
Proof.
  unfold parse_int_error_check.
  repeat case_match; simpl; congruence.
Qed.

Lemma parse_int_error_kind (s : string) (errno len : Z) :
  cv_err (parse_int_error_check s 0 errno len) = 0 \/
  cv_err (parse_int_error_check s 0 errno len) = 1 \/
  cv_err (parse_int_error_check s 0 errno len) = 2.
Proof.
  unfold parse_int_error_check.
  repeat case_match; simpl; auto.
Qed.

(** A value returned without error is an [int]. *)
Lemma parse_int_ok_range (s : string) (errno len : Z) :
  cv_err (parse_int_error_check s 0 errno len) = 0 ->
  INT_MIN <= cv_ret (parse_int_error_check s 0 errno len) <= INT_MAX.
Proof.
  unfold parse_int_error_check.
  repeat case_match; simpl; try congruence.
  intros _.
  repeat match goal with
         | E : (_ || _) = false |- _ => apply orb_false_iff in E; destruct E
         end.
  lia.
Qed.

(** An error written by the floating-point converter comes with 0.0. *)
Lemma parse_double_error_zero `{Strtod} (s : string) (errno len : Z) :
  cv_err (parse_double_error_check s 0 errno len) <> 0 ->
  cv_ret (parse_double_error_check s 0 errno len) = dzero.
Proof.
  unfold parse_double_error_check.
  repeat case_match; simpl; congruence.
Qed.

Lemma strtol_int_overflow_text (errno : Z) :
  strtol "2147483648" errno = mkStrtol 2147483648 10 errno.
Proof. reflexivity. Qed.

Lemma strtol_trailing_letter (errno : Z) :
  strtol "12a" errno = mkStrtol 12 2 errno.
Proof. reflexivity. Qed.

Lemma parse_int_2_pow_31 (err errno : Z) :
  parse_int_error_check "2147483648" err errno 10 = mkConv 0 2 errno.
Proof.
  unfold parse_int_error_check. rewrite strtol_int_overflow_text. simpl.
  replace (INT_MAX <? 2147483648) with true by reflexivity.
  by rewrite orb_true_r.
Qed.

Lemma parse_int_12a (err errno : Z) :
  parse_int_error_check "12a" err errno 3 = mkConv 0 1 errno.
Proof.
  unfold parse_int_error_check. rewrite strtol_trailing_letter. reflexivity.
Qed.

(** ** The fixed-schema pipeline *)

Module IliTheory.
Import Ili.

Lemma data_column_cases (a : ILIinputAux) :
  data_column a -> curr_col a = 2 \/ curr_col a = 3 \/ curr_col a = 4.
Proof. unfold data_column, FILE_NUM_COLS. lia. Qed.

Lemma store_in_bounds {A} (arr : list (cell A)) (i : Z) (v : A) :
  0 <= i < Z.of_nat (length arr) ->
  store arr i v = Some (<[Z.to_nat i := Some v]> arr).
Proof.
  intros Hi. unfold store.
  destruct (Z.leb_spec 0 i); [|lia].
  destruct (Z.ltb_spec i (Z.of_nat (length arr))); [|lia].
  reflexivity.
Qed.

Lemma store_lookup {A} (arr : list (cell A)) (i : Z) (v : A) :
  0 <= i < Z.of_nat (length arr) ->
  <[Z.to_nat i := Some v]> arr !! Z.to_nat i = Some (Some v).
Proof. intros Hi. apply list_lookup_insert_eq. lia. Qed.

(** What the field callback does on a data column whose target cell is
    allocated: it always returns, the converter's value is in the cell at
    index [size] of the column's array, the converter's error kind is in
    [err_status], and the column cursor advances exactly when there was no
    error. *)
Lemma cb1_data_column (s : string) (len : Z) (w : world) :
  data_column (aux w) ->
  in_bounds (data_p (aux w)) ->
  let r := parse_int_error_check s 0 (errno w) len in
  exists w',
    cb1 s len w = Some w' /\
    errno w' = cv_errno r /\
    err_status (aux w') = cv_err r /\
    column_array (curr_col (aux w)) (data_p (aux w'))
      !! Z.to_nat (size (data_p (aux w))) = Some (Some (cv_ret r)) /\
    size (data_p (aux w')) = size (data_p (aux w)) /\
    capacity (aux w') = capacity (aux w) /\
    curr_row (aux w') = curr_row (aux w) /\
    (cv_err r <> 0 ->
     curr_col (aux w') = curr_col (aux w) /\ err_field (aux w') = Some (c_str s)) /\
    (cv_err r = 0 ->
     curr_col (aux w') = size_t (curr_col (aux w) + 1) /\
     err_field (aux w') = err_field (aux w)).
Proof.
  intros Hcol Hb r.
  pose proof (data_column_cases _ Hcol) as Hc.
  destruct Hcol as (Hrow & Herr & _).
  destruct Hb as (H0 & Hy & Hw & He).
  unfold cb1.
  destruct (Z.eqb_spec (curr_row (aux w)) 1) as [|_]; [contradiction|].
  rewrite Herr. simpl negb. cbv iota.
  destruct Hc as [Hc | [Hc | Hc]]; rewrite Hc; cbv iota;
    unfold convert_into; rewrite Herr; fold r;
    rewrite store_in_bounds by lia; simpl;
    destruct (Z.eqb_spec (cv_err r) 0) as [E|E]; simpl;
    eexists; (split; [reflexivity|]); simpl;
    rewrite ?store_lookup by lia; repeat split; try congruence; try tauto.
Qed.

(** C6: in an integer data column the field text 2147483648 (2^31) yields
    the error kind OutOfRange (code 2) and the field text 12a yields
    InvalidFormat (code 1), both at the converter and, through the field
    callback, in [err_status] with the cursor left on that row and column. *)
Theorem int_boundary_fields (w : world) :
  data_column (aux w) ->
  in_bounds (data_p (aux w)) ->
  (forall err errno,
     cv_err (parse_int_error_check "2147483648" err errno 10) = 2 /\
     cv_err (parse_int_error_check "12a" err errno 3) = 1) /\
  (exists w',
     cb1 "2147483648" 10 w = Some w' /\
     err_status (aux w') = 2 /\
     curr_row (aux w') = curr_row (aux w) /\
     curr_col (aux w') = curr_col (aux w) /\
     err_field (aux w') = Some "2147483648"%string) /\
  (exists w',
     cb1 "12a" 3 w = Some w' /\
     err_status (aux w') = 1 /\
     curr_row (aux w') = curr_row (aux w) /\
     curr_col (aux w') = curr_col (aux w) /\
     err_field (aux w') = Some "12a"%string).
Proof.
  intros Hcol Hb. split; [|split].
  - intros err errno. by rewrite parse_int_2_pow_31, parse_int_12a.
  - destruct (cb1_data_column "2147483648" 10 w Hcol Hb)
      as (w' & Hrun & _ & Herr & _ & _ & _ & Hrow & Hfail & _).
    rewrite parse_int_2_pow_31 in Herr, Hfail. simpl in Herr, Hfail.
    destruct Hfail as [Hc Hf]; [lia|].
    exists w'. by repeat split.
  - destruct (cb1_data_column "12a" 3 w Hcol Hb)
      as (w' & Hrun & _ & Herr & _ & _ & _ & Hrow & Hfail & _).
    rewrite parse_int_12a in Herr, Hfail. simpl in Herr, Hfail.
    destruct Hfail as [Hc Hf]; [lia|].
    exists w'. by repeat split.
Qed.

Lemma int_boundary_fields_witness :
  data_column (aux (sample_world 0 2)) /\
  in_bounds (data_p (aux (sample_world 0 2))) /\
  exists w',
    cb1 "2147483648" 10 (sample_world 0 2) = Some w' /\ err_status (aux w') = 2.
Proof.
  assert (Hc : data_column (aux (sample_world 0 2))).
  { unfold data_column, FILE_NUM_COLS; simpl; lia. }
  assert (Hb : in_bounds (data_p (aux (sample_world 0 2)))).
  { unfold in_bounds; simpl; lia. }
  split; [exact Hc|]. split; [exact Hb|].
  destruct (int_boundary_fields (sample_world 0 2) Hc Hb)
    as (_ & (w' & Hrun & Herr & _) & _).
  exists w'. by split.
Defined.

(** *** Sticky error *)

Lemma cb1_sticky (s : string) (len : Z) (w : world) :
  err_status (aux w) <> 0 -> cb1 s len w = Some w.
Proof.
  intros He. unfold cb1.
  destruct (curr_row (aux w) =? 1); [reflexivity|].
  destruct (Z.eqb_spec (err_status (aux w)) 0); [contradiction|reflexivity].
Qed.

Lemma cb2_sticky (c : Z) (a : ILIinputAux) :
  err_status a <> 0 -> cb2 c a = a.
Proof.
  intros He. unfold cb2.
  destruct (Z.eqb_spec (err_status a) 0); [contradiction|reflexivity].
Qed.

Lemma deliver_sticky (ev : event) (w : world) :
  err_status (aux w) <> 0 -> deliver ev w = Some w.
Proof.
  intros He. destruct ev as [s|c]; simpl.
  - by apply cb1_sticky.
  - rewrite cb2_sticky by done. by destruct w.
Qed.

Lemma run_after_error (evs : list event) (w : world) :
  err_status (aux w) <> 0 -> run evs w = Some w.
Proof.
  intros He. induction evs as [|ev evs IH]; [reflexivity|].
  simpl. rewrite deliver_sticky by done. exact IH.
Qed.

(** C8: once [err_status] is nonzero, every later field event and record
    event leaves the whole machine as it is: arrays, logical size and both
    cursors are never modified again. *)
Theorem sticky_error (evs : list event) (w : world) :
  err_status (aux w) <> 0 -> run evs w = Some w.
Proof.
  intros He. induction evs as [|ev evs IH]; [reflexivity|].
  simpl. rewrite deliver_sticky by done. exact IH.
Qed.

Lemma sticky_error_witness :
  run [Field "2021"; Field "7"; EndOfRecord 10; Field "1"]
      (mkWorld (set_err_status (aux (sample_world 3 2)) 1) 0)
  = Some (mkWorld (set_err_status (aux (sample_world 3 2)) 1) 0).
Proof. apply sticky_error. simpl. lia. Defined.

Lemma run_app (l1 l2 : list event) (w : world) :
  run (l1 ++ l2) w = w' ← run l1 w; run l2 w'.
Proof.
  revert w. induction l1 as [|ev l1 IH]; intros w; [reflexivity|].
  simpl. destruct (deliver ev w) as [w1|]; simpl; [apply IH|reflexivity].
Qed.

(** *** Columns beyond the schema width *)

Lemma switch_default {A} (col : Z) (x y z t : A) :
  col <> 2 -> col <> 3 -> col <> 4 ->
  match col with
  | 0 | 1 => x | 2 => y | 3 => z | 4 => t | _ => x
  end = x.
Proof.
  intros H2 H3 H4. destruct col as [|p|p]; try reflexivity.
  do 3 (try destruct p as [p|p|]); try reflexivity; lia.
Qed.

Lemma cb1_beyond_schema (s : string) (len : Z) (w : world) :
  curr_row (aux w) <> 1 ->
  err_status (aux w) = 0 ->
  FILE_NUM_COLS < curr_col (aux w) ->
  cb1 s len w =
  Some (mkWorld (set_curr_col (aux w) (size_t (curr_col (aux w) + 1))) (errno w)).
Proof.
  intros Hrow Herr Hcol. unfold FILE_NUM_COLS in Hcol. unfold cb1.
  destruct (Z.eqb_spec (curr_row (aux w)) 1); [contradiction|].
  rewrite Herr. simpl negb. cbv iota.
  rewrite switch_default by lia. simpl. rewrite Herr. reflexivity.
Qed.

Lemma run_beyond_schema (extras : list string) (w : world) :
  curr_row (aux w) <> 1 ->
  err_status (aux w) = 0 ->
  FILE_NUM_COLS < curr_col (aux w) ->
  curr_col (aux w) + Z.of_nat (length extras) < 2 ^ 64 ->
  run (map Field extras) w =
  Some (mkWorld (set_curr_col (aux w)
                   (curr_col (aux w) + Z.of_nat (length extras)))
                (errno w)).
Proof.
  revert w. induction extras as [|s extras IH]; intros w Hrow Herr Hcol Hfit.
  - destruct w as [[d cap row col e f] en]. simpl. by rewrite Z.add_0_r.
  - simpl map. simpl run. rewrite cb1_beyond_schema by done. simpl.
    unfold FILE_NUM_COLS in *. simpl length in Hfit.
    assert (Hs : size_t (curr_col (aux w) + 1) = curr_col (aux w) + 1).
    { unfold size_t. apply Z.mod_small. lia. }
    rewrite Hs. rewrite IH; simpl; try done; try lia.
    do 2 f_equal. unfold set_curr_col. simpl. f_equal. lia.
Qed.

Lemma cb2_cursor_irrelevant (c k : Z) (a : ILIinputAux) :
  err_status a = 0 ->
  (size_t (k - 1) <? FILE_NUM_COLS) = (size_t (curr_col a - 1) <? FILE_NUM_COLS) ->
  cb2 c (set_curr_col a k) = cb2 c a.
Proof.
  intros He Hk. destruct a as [d cap row col e f]. unfold cb2. simpl in *.
  subst e. simpl negb. cbv iota. rewrite Hk.
  destruct ((size_t (col - 1) <? FILE_NUM_COLS) && (1 <? row)); cbn;
    destruct (row =? 1); try reflexivity;
    destruct (cap <=? size_t (size d + 1)); reflexivity.
Qed.

(** The record callback on a data row that has all its fields. *)
Lemma cb2_full_row (c : Z) (a : ILIinputAux) :
  err_status a = 0 ->
  curr_row a <> 1 ->
  FILE_NUM_COLS <= size_t (curr_col a - 1) ->
  err_status (cb2 c a) = 0 /\
  err_field (cb2 c a) = err_field a /\
  curr_col (cb2 c a) = 1 /\
  curr_row (cb2 c a) = size_t (curr_row a + 1) /\
  size (data_p (cb2 c a)) = size_t (size (data_p a) + 1).
Proof.
  intros Herr Hrow Hcol. unfold cb2. rewrite Herr. simpl negb. cbv iota.
  destruct (Z.ltb_spec (size_t (curr_col a - 1)) FILE_NUM_COLS); [lia|].
  simpl andb. cbv iota. simpl.
  destruct (Z.eqb_spec (curr_row a) 1); [contradiction|].
  case_match; simpl; by repeat split.
Qed.

(** C7: on a data row whose schema columns have all been seen, any further
    fields are ignored: they raise no error and write no array cell (only
    the column cursor moves), and the record is then accepted exactly as
    if the extra fields had not been there. *)
Theorem extra_columns_ignored (extras : list string) (c : Z) (w : world) :
  curr_row (aux w) <> 1 ->
  err_status (aux w) = 0 ->
  FILE_NUM_COLS < curr_col (aux w) ->
  curr_col (aux w) + Z.of_nat (length extras) < 2 ^ 64 ->
  run (map Field extras) w =
    Some (mkWorld (set_curr_col (aux w)
                     (curr_col (aux w) + Z.of_nat (length extras)))
                  (errno w)) /\
  run (map Field extras ++ [EndOfRecord c]) w = run [EndOfRecord c] w /\
  exists w',
    run (map Field extras ++ [EndOfRecord c]) w = Some w' /\
    err_status (aux w') = 0 /\
    size (data_p (aux w')) = size_t (size (data_p (aux w)) + 1).
Proof.
  intros Hrow Herr Hcol Hfit.
  pose proof (run_beyond_schema extras w Hrow Herr Hcol Hfit) as Hrun.
  unfold FILE_NUM_COLS in *.
  assert (Hw : size_t (curr_col (aux w) - 1) = curr_col (aux w) - 1).
  { unfold size_t. apply Z.mod_small. lia. }
  assert (Hk : size_t (curr_col (aux w) + Z.of_nat (length extras) - 1)
               = curr_col (aux w) + Z.of_nat (length extras) - 1).
  { unfold size_t. apply Z.mod_small. lia. }
  assert (Heq : run (map Field extras ++ [EndOfRecord c]) w = run [EndOfRecord c] w).
  { rewrite run_app, Hrun. simpl. rewrite cb2_cursor_irrelevant; [done|done|].
    unfold FILE_NUM_COLS. rewrite Hw, Hk.
    destruct (Z.ltb_spec (curr_col (aux w) + Z.of_nat (length extras) - 1) 4);
      destruct (Z.ltb_spec (curr_col (aux w) - 1) 4); try reflexivity; lia. }
  split; [exact Hrun|]. split; [exact Heq|].
  rewrite Heq. simpl. eexists. split; [reflexivity|]. simpl.
  destruct (cb2_full_row c (aux w) Herr Hrow) as (He & _ & _ & _ & Hs).
  { unfold FILE_NUM_COLS. rewrite Hw. lia. }
  by split.
Qed.

Lemma extra_columns_ignored_witness :
  run [Field "0"; Field "2020"; Field "1"; Field "100"] (sample_world 0 1)
    = Some (mkWorld (set_data (aux (sample_world 0 5))
                       (mkILIinput 0
                          (<[0%nat := Some 2020]> (year (alloc_ili_input reserve_size)))
                          (<[0%nat := Some 1]> (week (alloc_ili_input reserve_size)))
                          (<[0%nat := Some 100]> (estInc (alloc_ili_input reserve_size)))))
                    0) /\
  run (map Field ["x"; "y"]%string ++ [EndOfRecord 10]) (sample_world 0 5)
    = run [EndOfRecord 10] (sample_world 0 5).
Proof.
  split; [reflexivity|].
  apply (extra_columns_ignored ["x"; "y"]%string 10 (sample_world 0 5)).
  - simpl; lia.
  - reflexivity.
  - unfold FILE_NUM_COLS; simpl; lia.
  - simpl; lia.
Defined.

(** *** Rows with too few fields *)

Lemma cb2_short_row (c : Z) (a : ILIinputAux) :
  err_status a = 0 ->
  1 < curr_row a ->
  size_t (curr_col a - 1) < FILE_NUM_COLS ->
  err_status (cb2 c a) = 4 /\
  err_field (cb2 c a) = Some EmptyString /\
  curr_col (cb2 c a) = 1 /\
  curr_row (cb2 c a) = size_t (curr_row a + 1) /\
  size (data_p (cb2 c a)) = size_t (size (data_p a) + 1).
Proof.
  intros Herr Hrow Hcol. unfold cb2. rewrite Herr. simpl negb. cbv iota.
  destruct (Z.ltb_spec (size_t (curr_col a - 1)) FILE_NUM_COLS); [|lia].
  destruct (Z.ltb_spec 1 (curr_row a)); [|lia].
  simpl andb. cbv iota. simpl.
  destruct (Z.eqb_spec (curr_row a) 1); [lia|].
  case_match; simpl; by repeat split.
Qed.

Lemma run_error_free (evs : list event) (w w' : world) :
  run evs w = Some w' -> err_status (aux w') = 0 -> err_status (aux w) = 0.
Proof.
  intros Hr He. destruct (Z.eq_dec (err_status (aux w)) 0) as [E|E]; [exact E|].
  rewrite run_after_error in Hr by exact E. injection Hr as <-. exact He.
Qed.

Lemma read_loop_log_app (before cs : list chunk) (w w1 : world) :
  all_parsed before ->
  run (concat (map events before)) w = Some w1 ->
  err_status (aux w1) = 0 ->
  read_loop_log (before ++ cs) w = read_loop_log cs w1.
Proof.
  intros Hall. revert w. induction Hall as [|ch before Hok _ IH]; intros w Hr He.
  - simpl in Hr. by injection Hr as ->.
  - simpl in Hr. rewrite run_app in Hr. simpl.
    destruct (run (events ch) w) as [w'|]; simpl in *; [|discriminate].
    rewrite Hok. simpl. rewrite (run_error_free _ _ _ Hr He). simpl.
    by apply IH.
Qed.

(** Without the diagnostic, the logging loop and driver are the loop and
    the driver. *)
Lemma read_loop_log_result (cs : list chunk) (w : world) :
  (fun r => (r.1.1, r.1.2)) <$> read_loop_log cs w = read_loop cs w.
Proof.
  revert w. induction cs as [|ch cs IH]; intros w; [reflexivity|].
  simpl. destruct (run (events ch) w) as [w'|]; simpl; [|reflexivity].
  destruct (negb (parse_ok ch)); [reflexivity|].
  destruct (negb (err_status (aux w') =? 0)); [reflexivity|]. apply IH.
Qed.

Lemma read_ili_csv_log_result (inp : input) :
  (fun r => (r.1.1, r.1.2)) <$> read_ili_csv_log inp = read_ili_csv inp.
Proof.
  unfold read_ili_csv_log, read_ili_csv, initial_world.
  destruct (negb (csv_init_ok inp)); [reflexivity|].
  destruct (negb (fopen_ok inp)); [reflexivity|].
  rewrite <- read_loop_log_result.
  destruct (read_loop_log (chunks inp) _) as [[[w1 st] d]|]; simpl; [|reflexivity].
  destruct (ferror inp || negb (err_status (aux (shrink_to_fit w1)) =? 0) || st);
    [reflexivity|].
  destruct (run (fini_events inp) (shrink_to_fit w1)); reflexivity.
Qed.

(** C3 (amended): a completed non-header record, reached with no pending
    error, with fewer fields than the schema width sets [err_status] to
    InsufficientFields (code 4) with an empty offending-field text and moves
    the row cursor to the next line, and no later event changes the machine.
    When the end of that record is delivered by a [csv_parse] call, after
    calls that all succeeded, the driver reads no further chunk and returns
    [EXIT_FAILURE]; if that call itself succeeded, the diagnostic it prints
    names field 1, an empty text, the line after the short row and the
    message for code 4. *)
Theorem short_row_flagged (c : Z) (a : ILIinputAux) :
  err_status a = 0 ->
  1 < curr_row a < 2 ^ 64 - 1 ->
  size_t (curr_col a - 1) < FILE_NUM_COLS ->
  err_status (cb2 c a) = 4 /\
  err_field (cb2 c a) = Some EmptyString /\
  curr_row (cb2 c a) = curr_row a + 1 /\
  (forall evs errno,
     run evs (mkWorld (cb2 c a) errno) = Some (mkWorld (cb2 c a) errno)) /\
  (forall inp before evs1 evs2 ok after errno,
     csv_init_ok inp = true ->
     fopen_ok inp = true ->
     chunks inp = before ++ mkChunk (evs1 ++ EndOfRecord c :: evs2) ok :: after ->
     all_parsed before ->
     run (concat (map events before) ++ evs1) (initial_world inp)
       = Some (mkWorld a errno) ->
     read_ili_csv_log inp
     = Some (EXIT_FAILURE, shrink_to_fit (mkWorld (cb2 c a) errno),
             if ok
             then Some (mkDiagnostic 1 (Some EmptyString) (curr_row a + 1)
                          "previous line has not enough fields")
             else None)).
Proof.
  intros Herr Hrow Hcol.
  destruct (cb2_short_row c a Herr ltac:(lia) Hcol) as (He & Hf & Hc & Hr & _).
  assert (Hr' : curr_row (cb2 c a) = curr_row a + 1).
  { rewrite Hr. unfold size_t. apply Z.mod_small. lia. }
  assert (Hsticky : forall evs errno,
             run evs (mkWorld (cb2 c a) errno) = Some (mkWorld (cb2 c a) errno)).
  { intros evs errno. apply run_after_error. simpl. lia. }
  do 4 (split; [done|]).
  intros inp before evs1 evs2 ok after errno Hinit Hopen Hch Hall Hrun.
  rewrite run_app in Hrun.
  destruct (run (concat (map events before)) (initial_world inp)) as [w1|] eqn:Hb;
    simpl in Hrun; [|discriminate].
  assert (He1 : err_status (aux w1) = 0) by exact (run_error_free _ _ _ Hrun Herr).
  unfold read_ili_csv_log. rewrite Hinit, Hopen, Hch. simpl negb. cbv iota.
  rewrite (read_loop_log_app before _ _ w1 Hall Hb He1).
  simpl read_loop_log. rewrite run_app, Hrun. simpl.
  rewrite Hsticky. simpl.
  assert (Hs : err_status (aux (shrink_to_fit (mkWorld (cb2 c a) errno))) = 4).
  { unfold shrink_to_fit. simpl. by destruct (_ <? _). }
  assert (Hd : report (cb2 c a)
               = Some (mkDiagnostic 1 (Some EmptyString) (curr_row a + 1)
                         "previous line has not enough fields")).
  { unfold report. rewrite He, Hf, Hc, Hr'. reflexivity. }
  destruct ok; simpl.
  - rewrite He. simpl. rewrite Hs, Hd. simpl. by rewrite orb_true_r.
  - rewrite Hs. simpl. by rewrite orb_true_r.
Qed.

Lemma short_row_flagged_witness :
  exists w,
    read_ili_csv_log short_row_file
    = Some (EXIT_FAILURE, w,
            Some (mkDiagnostic 1 (Some EmptyString) 3
                    "previous line has not enough fields")) /\
    err_status (aux w) = 4 /\
    curr_row (aux w) = 3.
Proof.
  pose (d := set_year (set_week (alloc_ili_input reserve_size)
                         (<[0%nat := Some 1]> (week (alloc_ili_input reserve_size))))
               (<[0%nat := Some 2020]> (year (alloc_ili_input reserve_size)))).
  pose (a := mkAux d reserve_size 2 4 0 None).
  exists (shrink_to_fit (mkWorld (cb2 10 a) 0)).
  split; [|split; reflexivity].
  refine (proj2 (proj2 (proj2 (proj2
            (short_row_flagged 10 a _ _ _))))
            short_row_file [] (header_row ++ [Field "0"; Field "2020"; Field "1"])
            [] true [] 0 eq_refl eq_refl eq_refl _ _).
  - reflexivity.
  - simpl; lia.
  - unfold FILE_NUM_COLS; vm_compute; reflexivity.
  - constructor.
  - reflexivity.
Defined.

(** A short last line that [csv_fini] completes is flagged in the same way,
    but after the driver's status test: nothing is printed and the exit
    code is [EXIT_SUCCESS]. *)
Example short_last_line_flushed :
  exists w,
    read_ili_csv_log short_unterminated_file = Some (EXIT_SUCCESS, w, None) /\
    err_status (aux w) = 4 /\
    err_field (aux w) = Some EmptyString /\
    curr_row (aux w) = 3.
Proof. eexists. split; [reflexivity|]. by repeat split. Qed.

(** C3, as first stated, fails: after three fields of line 2 the record
    callback flags the row but the row cursor, which the message prints,
    is on line 3. *)
Lemma short_row_line_counterexample :
  err_status (aux (sample_world 0 4)) = 0 /\
  curr_row (aux (sample_world 0 4)) = 2 /\
  size_t (curr_col (aux (sample_world 0 4)) - 1) = 3 /\
  ~ short_row_reported_in_place 10 (aux (sample_world 0 4)).
Proof.
  repeat split; try reflexivity.
  intros (_ & _ & H). vm_compute in H. discriminate H.
Qed.

(** *** Growth *)

Lemma size_t_small (z : Z) : 0 <= z < 2 ^ 64 -> size_t z = z.
Proof. intros Hz. unfold size_t. by apply Z.mod_small. Qed.

Lemma realloc_cells_length {A} (arr : list (cell A)) (n elt : Z) :
  0 < elt -> 0 <= n -> n * elt < 2 ^ 64 ->
  Z.of_nat (length (realloc_cells arr (size_t (n * elt)) elt)) = n.
Proof.
  intros He Hn Hfit. unfold realloc_cells.
  rewrite size_t_small by nia. rewrite Z.div_mul by lia.
  rewrite length_app, length_take, length_replicate. lia.
Qed.

Lemma realloc_cells_lookup {A} (arr : list (cell A)) (n elt : Z) (i : nat) :
  0 < elt -> 0 <= n -> n * elt < 2 ^ 64 ->
  Z.of_nat i < n -> (i < length arr)%nat ->
  realloc_cells arr (size_t (n * elt)) elt !! i = arr !! i.
Proof.
  intros He Hn Hfit Hi Hlen. unfold realloc_cells.
  rewrite size_t_small by nia. rewrite Z.div_mul by lia.
  rewrite lookup_app_l by (rewrite length_take; lia).
  apply lookup_take_lt. lia.
Qed.

Lemma realloc_ili_input_allocated (d : ILIinput) (n : Z) :
  0 <= n -> n * sizeof_int < 2 ^ 64 ->
  allocated n (realloc_ili_input d n) /\ size (realloc_ili_input d n) = size d.
Proof.
  intros Hn Hfit. unfold allocated, realloc_ili_input. simpl.
  rewrite !realloc_cells_length by (unfold sizeof_int in *; lia). done.
Qed.

(** The record callback on any record after the header, when no error is
    pending: the logical size goes up by one and the capacity changes only
    by the doubling of the growth branch. *)
Lemma cb2_data_row (c : Z) (a : ILIinputAux) :
  err_status a = 0 ->
  curr_row a <> 1 ->
  let n := size_t (size (data_p a) + 1) in
  (capacity a <= n ->
   capacity (cb2 c a) = size_t (capacity a * 2) /\
   data_p (cb2 c a) =
     realloc_ili_input (set_size (data_p a) n) (size_t (capacity a * 2))) /\
  (n < capacity a ->
   capacity (cb2 c a) = capacity a /\
   data_p (cb2 c a) = set_size (data_p a) n).
Proof.
  intros Herr Hrow n. unfold cb2. rewrite Herr. simpl negb. cbv iota.
  destruct ((size_t (curr_col a - 1) <? FILE_NUM_COLS) && (1 <? curr_row a));
    cbn; destruct (Z.eqb_spec (curr_row a) 1); try contradiction;
    fold n; destruct (Z.leb_spec (capacity a) n); cbn; split; intros;
    try lia; done.
Qed.

(** C4: the accumulator grows exactly when the logical size reaches the
    capacity; the new capacity is then exactly twice the old one, each of
    the three arrays has that many cells, and every cell that existed
    before keeps its content; without growth nothing but the size moves. *)
Theorem growth_doubles (c : Z) (a : ILIinputAux) :
  err_status a = 0 ->
  curr_row a <> 1 ->
  consistent a ->
  size (data_p (cb2 c a)) = size (data_p a) + 1 /\
  (capacity (cb2 c a) <> capacity a <-> size (data_p (cb2 c a)) = capacity a) /\
  (size (data_p (cb2 c a)) = capacity a ->
   capacity (cb2 c a) = 2 * capacity a /\
   allocated (2 * capacity a) (data_p (cb2 c a)) /\
   forall i : nat,
     Z.of_nat i < capacity a ->
     year (data_p (cb2 c a)) !! i = year (data_p a) !! i /\
     week (data_p (cb2 c a)) !! i = week (data_p a) !! i /\
     estInc (data_p (cb2 c a)) !! i = estInc (data_p a) !! i) /\
  (size (data_p (cb2 c a)) < capacity a ->
   capacity (cb2 c a) = capacity a /\
   year (data_p (cb2 c a)) = year (data_p a) /\
   week (data_p (cb2 c a)) = week (data_p a) /\
   estInc (data_p (cb2 c a)) = estInc (data_p a)).
Proof.
  intros Herr Hrow ((Hy & Hw & He) & Hsz & Hfit).
  unfold sizeof_int in Hfit.
  destruct (cb2_data_row c a Herr Hrow) as [Hgrow Hstay].
  rewrite (size_t_small (size (data_p a) + 1)) in Hgrow, Hstay by lia.
  rewrite (size_t_small (capacity a * 2)) in Hgrow by lia.
  destruct (Z.le_gt_cases (capacity a) (size (data_p a) + 1)) as [Hc|Hc].
  - destruct (Hgrow Hc) as [Hcap Hd]. rewrite Hcap, Hd. simpl.
    split; [done|]. split; [split; lia|]. split; [|lia].
    intros _. split; [lia|]. split.
    + replace (2 * capacity a) with (capacity a * 2) by lia.
      apply realloc_ili_input_allocated; unfold sizeof_int; lia.
    + intros i Hi.
      rewrite !realloc_cells_lookup by (unfold sizeof_int; lia). done.
  - destruct (Hstay Hc) as [Hcap Hd]. rewrite Hcap, Hd. simpl.
    split; [done|]. split; [split; [congruence|lia]|]. split; [lia|]. done.
Qed.

Lemma growth_doubles_witness :
  consistent (aux (sample_world 52 1)) /\
  capacity (cb2 10 (aux (sample_world 52 1))) = 106 /\
  allocated 106 (data_p (cb2 10 (aux (sample_world 52 1)))).
Proof.
  assert (Hc : consistent (aux (sample_world 52 1))).
  { vm_compute. repeat split; easy. }
  split; [exact Hc|].
  destruct (growth_doubles 10 (aux (sample_world 52 1))) as (Hs & _ & Hg & _).
  - reflexivity.
  - simpl; lia.
  - exact Hc.
  - destruct Hg as (Hcap & Hal & _); [rewrite Hs; reflexivity|].
    split; [exact Hcap | exact Hal].
Defined.

(** *** The read loop never leaves the allocated cells *)

Lemma inv_in_bounds (n : Z) (a : ILIinputAux) :
  inv n a -> in_bounds (data_p a).
Proof. intros ((Hy & Hw & He) & Hs & _). unfold in_bounds. lia. Qed.

Lemma inv_weaken (n m : Z) (a : ILIinputAux) :
  inv n a -> 0 <= m <= n -> inv m a.
Proof.
  unfold inv. intros (Ha & Hs & Hc & Hn & Hb) Hm.
  split; [exact Ha|]. repeat split; lia.
Qed.

Lemma inv_consistent (n : Z) (a : ILIinputAux) :
  inv n a -> consistent a.
Proof.
  unfold inv, consistent, reserve_size, sizeof_int.
  intros (Ha & Hs & Hc & Hn & Hb). split; [exact Ha|]. repeat split; lia.
Qed.

(** The field callback returns whenever the cell at index [size] exists,
    and it changes neither the logical size, nor the capacity, nor the
    number of allocated cells. *)
Lemma cb1_frame (s : string) (len : Z) (w : world) :
  in_bounds (data_p (aux w)) ->
  exists w',
    cb1 s len w = Some w' /\
    size (data_p (aux w')) = size (data_p (aux w)) /\
    capacity (aux w') = capacity (aux w) /\
    length (year (data_p (aux w'))) = length (year (data_p (aux w))) /\
    length (week (data_p (aux w'))) = length (week (data_p (aux w))) /\
    length (estInc (data_p (aux w'))) = length (estInc (data_p (aux w))).
Proof.
  intros (H0 & Hy & Hw & He). unfold cb1.
  destruct (curr_row (aux w) =? 1); [by exists w|].
  destruct (negb (err_status (aux w) =? 0)); [by exists w|].
  destruct (Z.eq_dec (curr_col (aux w)) 2) as [E|N2];
    [|destruct (Z.eq_dec (curr_col (aux w)) 3) as [E|N3];
      [|destruct (Z.eq_dec (curr_col (aux w)) 4) as [E|N4]]].
  1-3: rewrite E; cbv iota; unfold convert_into;
       rewrite store_in_bounds by lia; simpl;
       case_match; eexists; (split; [reflexivity|]); simpl;
       rewrite ?length_insert; done.
  rewrite switch_default by done. simpl.
  case_match; eexists; (split; [reflexivity|]); done.
Qed.

Lemma cb2_header (c : Z) (a : ILIinputAux) :
  curr_row a = 1 ->
  data_p (cb2 c a) = data_p a /\ capacity (cb2 c a) = capacity a.
Proof.
  intros Hrow. destruct a as [d cap row col e f]. simpl in Hrow. subst row.
  unfold cb2. cbn.
  destruct (negb (e =? 0)); [done|].
  rewrite andb_false_r. done.
Qed.

Lemma cb2_inv (c n : Z) (a : ILIinputAux) :
  inv (n + 1) a -> 0 <= n -> inv n (cb2 c a).
Proof.
  intros Hinv Hn.
  destruct (Z.eq_dec (err_status a) 0) as [Herr|Herr];
    [|rewrite cb2_sticky by done; eapply inv_weaken; [exact Hinv|lia]].
  destruct (Z.eq_dec (curr_row a) 1) as [Hrow|Hrow].
  { destruct (cb2_header c a Hrow) as [Hd Hc]. unfold inv. rewrite Hd, Hc.
    apply (inv_weaken (n + 1)); [exact Hinv|lia]. }
  destruct Hinv as ((Hy & Hw & He) & Hs & Hcap & _ & Hb).
  unfold reserve_size in *.
  destruct (cb2_data_row c a Herr Hrow) as [Hgrow Hstay].
  rewrite (size_t_small (size (data_p a) + 1)) in Hgrow, Hstay by lia.
  rewrite (size_t_small (capacity a * 2)) in Hgrow by lia.
  destruct (Z.le_gt_cases (capacity a) (size (data_p a) + 1)) as [Hc|Hc].
  - destruct (Hgrow Hc) as [Hcap' Hd]. unfold inv. rewrite Hcap', Hd.
    destruct (realloc_ili_input_allocated
                (set_size (data_p a) (size (data_p a) + 1)) (capacity a * 2))
      as [Hal Hsz]; [lia|unfold sizeof_int; lia|].
    rewrite Hsz. simpl. unfold reserve_size. repeat split; try apply Hal; lia.
  - destruct (Hstay Hc) as [Hcap' Hd]. unfold inv, allocated.
    rewrite Hcap', Hd. simpl. unfold reserve_size. repeat split; lia.
Qed.

Lemma deliver_inv (ev : event) (n : Z) (w : world) :
  inv (n + 1) (aux w) -> 0 <= n ->
  exists w', deliver ev w = Some w' /\ inv n (aux w').
Proof.
  intros Hinv Hn. destruct ev as [s|c]; simpl.
  - destruct (cb1_frame s (strlen s) w (inv_in_bounds _ _ Hinv))
      as (w' & Hrun & Hs & Hc & Hy & Hw & He).
    exists w'. split; [exact Hrun|].
    destruct Hinv as ((Hy' & Hw' & He') & Hinv).
    unfold inv, allocated. rewrite Hs, Hc, Hy, Hw, He. repeat split; lia.
  - eexists. split; [reflexivity|]. by apply cb2_inv.
Qed.

Lemma run_inv (evs : list event) (n : Z) (w : world) :
  inv (n + Z.of_nat (length evs)) (aux w) -> 0 <= n ->
  exists w', run evs w = Some w' /\ inv n (aux w').
Proof.
  revert w. induction evs as [|ev evs IH]; intros w Hinv Hn.
  - exists w. split; [reflexivity|]. simpl in Hinv. by rewrite Z.add_0_r in Hinv.
  - simpl length in Hinv.
    destruct (deliver_inv ev (n + Z.of_nat (length evs)) w) as (w1 & Hd & Hinv1);
      [eapply inv_weaken; [exact Hinv|lia]|lia|].
    destruct (IH w1 Hinv1 Hn) as (w' & Hrun & Hinv').
    exists w'. split; [|exact Hinv']. simpl. rewrite Hd. exact Hrun.
Qed.

Lemma read_loop_inv (cs : list chunk) (n : Z) (w : world) :
  inv (n + event_count cs) (aux w) -> 0 <= n ->
  exists w' st, read_loop cs w = Some (w', st) /\ inv n (aux w').
Proof.
  revert w. induction cs as [|ch cs IH]; intros w Hinv Hn.
  - exists w, false. split; [reflexivity|].
    unfold event_count in Hinv. simpl in Hinv. by rewrite Z.add_0_r in Hinv.
  - assert (Hcount : event_count (ch :: cs)
                     = event_count cs + Z.of_nat (length (events ch))).
    { unfold event_count. simpl. rewrite length_app. lia. }
    rewrite Hcount in Hinv.
    assert (Hpos : 0 <= event_count cs) by (unfold event_count; lia).
    destruct (run_inv (events ch) (n + event_count cs) w) as (w1 & Hrun & Hinv1);
      [by rewrite <- Z.add_assoc|lia|].
    simpl. rewrite Hrun. simpl.
    destruct (negb (parse_ok ch)).
    { exists w1, true. split; [reflexivity|]. eapply inv_weaken; [exact Hinv1|lia]. }
    destruct (negb (err_status (aux w1) =? 0)).
    { exists w1, false. split; [reflexivity|]. eapply inv_weaken; [exact Hinv1|lia]. }
    by apply IH.
Qed.

Lemma initial_inv (n errno : Z) :
  0 <= n <= 2 ^ 59 ->
  inv n (aux (mkWorld (mkAux (alloc_ili_input reserve_size) reserve_size 1 1 0 None)
                      errno)).
Proof.
  intros Hn. unfold inv. simpl. split; [by vm_compute|].
  unfold reserve_size. lia.
Qed.

(** After the shrink every array has exactly [size] cells, and the cells
    of the stored rows are the ones written by the read loop. *)
Lemma shrink_to_fit_exact (n : Z) (w : world) :
  inv n (aux w) ->
  let w' := shrink_to_fit w in
  size (data_p (aux w')) = size (data_p (aux w)) /\
  err_status (aux w') = err_status (aux w) /\
  allocated (size (data_p (aux w))) (data_p (aux w')) /\
  forall i : nat,
    Z.of_nat i < size (data_p (aux w)) ->
    year (data_p (aux w')) !! i = year (data_p (aux w)) !! i /\
    week (data_p (aux w')) !! i = week (data_p (aux w)) !! i /\
    estInc (data_p (aux w')) !! i = estInc (data_p (aux w)) !! i.
Proof.
  intros ((Hy & Hw & He) & Hs & Hc & Hn & Hb) w'. subst w'.
  unfold shrink_to_fit.
  destruct (Z.ltb_spec (size (data_p (aux w))) (capacity (aux w))); [|lia].
  simpl.
  destruct (realloc_ili_input_allocated (data_p (aux w)) (size (data_p (aux w))))
    as [Hal Hsz]; [lia|unfold sizeof_int; lia|].
  repeat split; try apply Hal.
  all: apply realloc_cells_lookup; unfold sizeof_int; lia.
Qed.

(** The driver up to and including the shrink: for a file of fewer than
    2^59 events the read loop never stores outside the arrays, and when
    [csv_fini] has nothing to flush the driver returns with exactly [size]
    cells in each array. *)
Lemma read_ili_csv_fits_without_flush (inp : input) :
  event_count (chunks inp) <= 2 ^ 59 ->
  fini_events inp = [] ->
  exists rc w,
    read_ili_csv inp = Some (rc, w) /\
    (csv_init_ok inp = true -> fopen_ok inp = true ->
     allocated (size (data_p (aux w))) (data_p (aux w))).
Proof.
  intros Hcount Hfini. unfold read_ili_csv.
  destruct (csv_init_ok inp); simpl; [|by eexists _, _].
  destruct (fopen_ok inp); simpl; [|by eexists _, _].
  assert (Hpos : 0 <= event_count (chunks inp)) by (unfold event_count; lia).
  destruct (read_loop_inv (chunks inp) 0
              (mkWorld (mkAux (alloc_ili_input reserve_size) reserve_size 1 1 0 None)
                       (errno0 inp)))
    as (w1 & st & Hloop & Hinv); [apply initial_inv; lia|lia|].
  rewrite Hloop. simpl.
  destruct (shrink_to_fit_exact 0 w1 Hinv) as (Hs & _ & Hal & _).
  rewrite <- Hs in Hal.
  destruct (ferror inp || negb (err_status (aux (shrink_to_fit w1)) =? 0) || st).
  - by eexists _, _.
  - rewrite Hfini. simpl. by eexists _, _.
Qed.

(** *** The driver on sample files *)

Example two_row_file :
  exists w,
    read_ili_csv
      (mkInput true true
         [mkChunk (header_row ++
                   [Field "0"; Field "2020"; Field "1"; Field "100"; EndOfRecord 10;
                    Field "0"; Field "2020"; Field "2"; Field "150"; EndOfRecord 10])
                  true]
         false [] 0) = Some (EXIT_SUCCESS, w) /\
    size (data_p (aux w)) = 2 /\
    year (data_p (aux w)) = [Some 2020; Some 2020] /\
    week (data_p (aux w)) = [Some 1; Some 2] /\
    estInc (data_p (aux w)) = [Some 100; Some 150].
Proof. eexists. split; [vm_compute; reflexivity|]. by vm_compute. Qed.

(** C1: the logical size counts a row that was rejected for having too few
    fields.  On a header followed by the line [0,2020,1] the driver fails
    with InsufficientFields, yet returns [size = 1] and exposes the row with
    its third value never written. *)
Theorem short_row_is_counted :
  exists w,
    read_ili_csv short_row_file = Some (EXIT_FAILURE, w) /\
    err_status (aux w) = 4 /\
    size (data_p (aux w)) = 1 /\
    year (data_p (aux w)) = [Some 2020] /\
    week (data_p (aux w)) = [Some 1] /\
    estInc (data_p (aux w)) = [None].
Proof. eexists. split; [vm_compute; reflexivity|]. by vm_compute. Qed.

(** C9: at return the arrays can be shorter than the logical size.  When
    the last line has no line feed its record is flushed by [csv_fini],
    after the shrink: the driver returns success with [size = 2] and one
    cell in each array. *)
Theorem flushed_row_exceeds_arrays :
  exists w,
    read_ili_csv unterminated_second_row_file = Some (EXIT_SUCCESS, w) /\
    size (data_p (aux w)) = 2 /\
    year (data_p (aux w)) = [Some 2020] /\
    week (data_p (aux w)) = [Some 1] /\
    estInc (data_p (aux w)) = [Some 100] /\
    ~ size (data_p (aux w)) <= Z.of_nat (length (year (data_p (aux w)))).
Proof. eexists. split; [vm_compute; reflexivity|]. by vm_compute. Qed.

(** The fixed-schema half of C5's failing input: success, no error, one
    row counted, no cell left. *)
Lemma ili_flush_after_shrink :
  exists w,
    read_ili_csv unterminated_file = Some (EXIT_SUCCESS, w) /\
    err_status (aux w) = 0 /\
    size (data_p (aux w)) = 1 /\
    year (data_p (aux w)) = [] /\
    week (data_p (aux w)) = [] /\
    estInc (data_p (aux w)) = [].
Proof. eexists. split; [vm_compute; reflexivity|]. by vm_compute. Qed.

(** A last line whose fourth field is flushed by [csv_fini] is stored
    outside the shrunk arrays: the model has no defined result. *)
Example flushed_field_out_of_bounds :
  read_ili_csv
    (mkInput true true
       [mkChunk (header_row ++ [Field "0"; Field "2020"; Field "1"]) true]
       false [Field "100"; EndOfRecord (-1)] 0) = None.
Proof. reflexivity. Qed.

(** The fixed-schema half of C2's failing input: the empty year field is
    stored as 0 and the file is accepted. *)
Lemma empty_year_accepted :
  exists w,
    read_ili_csv empty_year_file = Some (EXIT_SUCCESS, w) /\
    err_status (aux w) = 0 /\
    size (data_p (aux w)) = 1 /\
    year (data_p (aux w)) = [Some 0].
Proof. eexists. split; [vm_compute; reflexivity|]. by vm_compute. Qed.

End IliTheory.

(** ** The single-column pipeline *)

Module ColumnTheory.
Import Column.

Section Generic.
Context `{Strtod}.

(** What the field callback does on the data column: it always returns,
    the converter's value is in the cell at index [size] of the vector and
    the converter's error kind is in [err_status]. *)
Lemma contacts_cb1_data_column (s : string) (len : Z) (w : world) :
  value_column (aux w) ->
  let r := parse_double_error_check s 0 (errno w) len in
  exists w',
    contacts_cb1 s len w = Some w' /\
    err_status (aux w') = cv_err r /\
    vec_p (aux w') !! Z.to_nat (size_p (aux w)) = Some (Some (cv_ret r)) /\
    size_p (aux w') = size_p (aux w) /\
    curr_row (aux w') = curr_row (aux w) /\
    (cv_err r <> 0 ->
     curr_col (aux w') = curr_col (aux w) /\ err_field (aux w') = Some (c_str s)) /\
    (cv_err r = 0 -> curr_col (aux w') = size_t (curr_col (aux w) + 1)).
Proof.
  intros (Hrow & Herr & Hcol & Hb) r. unfold contacts_cb1.
  destruct (Z.eqb_spec (curr_row (aux w)) 1) as [|_]; [contradiction|].
  rewrite Herr, Hcol. simpl negb. cbv iota. fold r.
  unfold store.
  destruct (Z.leb_spec 0 (size_p (aux w))); [|lia].
  destruct (Z.ltb_spec (size_p (aux w)) (Z.of_nat (length (vec_p (aux w))))); [|lia].
  simpl.
  destruct (Z.eqb_spec (cv_err r) 0) as [E|E]; simpl;
    eexists; (split; [reflexivity|]); simpl;
    rewrite list_lookup_insert_eq by lia; rewrite ?Hcol;
    repeat split; try congruence; try tauto.
Qed.

Lemma contacts_cb1_sticky (s : string) (len : Z) (w : world) :
  err_status (aux w) <> 0 -> contacts_cb1 s len w = Some w.
Proof.
  intros He. unfold contacts_cb1.
  destruct (curr_row (aux w) =? 1); [reflexivity|].
  destruct (Z.eqb_spec (err_status (aux w)) 0); [contradiction|reflexivity].
Qed.

Lemma contacts_cb2_sticky (c : Z) (a : ColumnInputAux) :
  err_status a <> 0 -> contacts_cb2 c a = a.
Proof.
  intros He. unfold contacts_cb2.
  destruct (Z.eqb_spec (err_status a) 0); [contradiction|reflexivity].
Qed.

Lemma contacts_run_app (l1 l2 : list event) (w : world) :
  run (l1 ++ l2) w = w' ← run l1 w; run l2 w'.
Proof.
  revert w. induction l1 as [|ev l1 IH]; intros w; [reflexivity|].
  simpl. destruct (deliver ev w) as [w1|]; simpl; [apply IH|reflexivity].
Qed.

Lemma parse_double_empty (err : Z) :
  parse_double_error_check EmptyString err 0 0 = mkConv dzero err 0.
Proof.
  unfold parse_double_error_check. rewrite strtod_empty. reflexivity.
Qed.

End Generic.

(** The single-column half of C5's failing input, with the decimal
    [strtod]: success, one value counted, no cell left. *)
Lemma column_flush_after_shrink :
  read_csv_double_vector (H := decimal_strtod) contacts_unterminated_file [] 0
  = Some (mkOutcome EXIT_SUCCESS [] 1).
Proof. reflexivity. Qed.

Example two_value_file :
  read_csv_double_vector (H := decimal_strtod)
    (mkInput true true
       [mkChunk (contacts_header_row ++
                 [Field "0"; Field "1.5"; EndOfRecord 10;
                  Field "1"; Field "-2.5e3"; EndOfRecord 10]) true]
       false [] 0) [] 0
  = Some (mkOutcome (H := decimal_strtod) EXIT_SUCCESS
            [Some (Finite false 15 (-1)); Some (Finite true 25 2)] 2).
Proof. reflexivity. Qed.

(** The single-column half of C2's failing input, for every [strtod]: the
    empty value field is stored as 0.0 and the file is accepted. *)
Lemma empty_value_accepted `{Strtod} (vec0 : list (cell double)) (vsize0 : Z) :
  read_csv_double_vector empty_value_file vec0 vsize0
  = Some (mkOutcome EXIT_SUCCESS [Some dzero] 1).
Proof.
  set (cells := malloc_cells (size_t (reserve_size * sizeof_double)) sizeof_double
                : list (cell double)).
  set (w0 := mkWorld (mkAux 0 cells reserve_size 1 1 0 None) 0).
  set (w2 := mkWorld (mkAux 0 cells reserve_size 2 2 0 None) 0).
  set (w3 := mkWorld (mkAux 0 (<[0%nat := Some dzero]> cells) reserve_size 2 3 0 None) 0).
  assert (H1 : run (contacts_header_row ++ [Field "0"]) w0 = Some w2) by reflexivity.
  assert (H2 : run [Field ""] w2 = Some w3).
  { simpl. unfold contacts_cb1. simpl. rewrite parse_double_empty. reflexivity. }
  assert (H3 : run (events (mkChunk (contacts_header_row ++
                      [Field "0"; Field ""; EndOfRecord 10]) true)) w0
               = Some (mkWorld (mkAux 1 (<[0%nat := Some dzero]> cells)
                                      reserve_size 3 1 0 None) 0)).
  { change (run ((contacts_header_row ++ [Field "0"]) ++ [Field ""] ++ [EndOfRecord 10]) w0
            = Some (mkWorld (mkAux 1 (<[0%nat := Some dzero]> cells)
                                   reserve_size 3 1 0 None) 0)).
    rewrite contacts_run_app, H1.
    change (run ([Field ""] ++ [EndOfRecord 10]) w2
            = Some (mkWorld (mkAux 1 (<[0%nat := Some dzero]> cells)
                                   reserve_size 3 1 0 None) 0)).
    rewrite contacts_run_app, H2. reflexivity. }
  assert (H4 : read_loop (chunks empty_value_file) w0
               = Some (mkWorld (mkAux 1 (<[0%nat := Some dzero]> cells)
                                      reserve_size 3 1 0 None) 0, false)).
  { unfold empty_value_file. cbn [chunks read_loop]. rewrite H3. reflexivity. }
  unfold read_csv_double_vector.
  change (csv_init_ok empty_value_file) with true.
  change (fopen_ok empty_value_file) with true.
  change (errno0 empty_value_file) with 0.
  cbn [negb]. fold cells. fold w0. rewrite H4.
  reflexivity.
Qed.

End ColumnTheory.

(** ** Claims that span both pipelines *)

(** C2: an empty field converts.  With [errno] clear, both converters
    consume the zero characters of an empty field, which equals its
    length, and return 0 (respectively 0.0) without writing an error kind;
    a file whose data field is empty is accepted with 0 stored. *)
Theorem empty_field_converts :
  (forall err, parse_int_error_check EmptyString err 0 0 = mkConv 0 err 0) /\
  (forall (S : Strtod) err,
     parse_double_error_check EmptyString err 0 0 = mkConv dzero err 0) /\
  (exists w,
     Ili.read_ili_csv Ili.empty_year_file = Some (EXIT_SUCCESS, w) /\
     Ili.err_status (Ili.aux w) = 0 /\
     Ili.year (Ili.data_p (Ili.aux w)) = [Some 0]) /\
  (forall (S : Strtod) vec0 vsize0,
     Column.read_csv_double_vector Column.empty_value_file vec0 vsize0
     = Some (Column.mkOutcome EXIT_SUCCESS [Some dzero] 1)).
Proof.
  split; [reflexivity|].
  split; [intros S err; apply ColumnTheory.parse_double_empty|].
  split.
  - destruct IliTheory.empty_year_accepted as (w & Hr & He & _ & Hy).
    exists w. split; [exact Hr|]. split; [exact He|exact Hy].
  - intros S vec0 vsize0. apply ColumnTheory.empty_value_accepted.
Qed.

(** C5: the drivers shrink before [csv_fini] flushes the last record.  On
    a file whose last line has no line feed both drivers return success
    with one row counted and no cell allocated for it. *)
Theorem shrink_precedes_flush :
  (exists w,
     Ili.read_ili_csv Ili.unterminated_file = Some (EXIT_SUCCESS, w) /\
     Ili.err_status (Ili.aux w) = 0 /\
     Ili.size (Ili.data_p (Ili.aux w)) = 1 /\
     length (Ili.year (Ili.data_p (Ili.aux w))) = 0%nat /\
     length (Ili.week (Ili.data_p (Ili.aux w))) = 0%nat /\
     length (Ili.estInc (Ili.data_p (Ili.aux w))) = 0%nat) /\
  Column.read_csv_double_vector (H := decimal_strtod) Column.contacts_unterminated_file [] 0
  = Some (Column.mkOutcome EXIT_SUCCESS [] 1).
Proof.
  split; [|exact ColumnTheory.column_flush_after_shrink].
  destruct IliTheory.ili_flush_after_shrink as (w & Hr & He & Hs & Hy & Hw & Hi).
  exists w. rewrite Hy, Hw, Hi. by repeat split.
Qed.

(** C10: a converter that reports an error returns 0 (respectively 0.0).
    The field callback on a data column takes its status from the converter
    and stores the converter's return value in the cell of the current row
    of the column's array; so whenever the converter reports an error on the
    field, the callback's status is that error, the cell holds 0
    (respectively 0.0) and not the digits that were read, the row and column
    cursors and the logical size are left as they were, and the field's text
    is kept as the offending field. *)
Theorem error_stores_zero :
  (forall s errno len,
     cv_err (parse_int_error_check s 0 errno len) <> 0 ->
     cv_ret (parse_int_error_check s 0 errno len) = 0) /\
  (forall (S : Strtod) s errno len,
     cv_err (parse_double_error_check s 0 errno len) <> 0 ->
     cv_ret (parse_double_error_check s 0 errno len) = dzero) /\
  (forall s len w,
     Ili.data_column (Ili.aux w) ->
     Ili.in_bounds (Ili.data_p (Ili.aux w)) ->
     exists w',
       Ili.cb1 s len w = Some w' /\
       Ili.err_status (Ili.aux w')
         = cv_err (parse_int_error_check s 0 (Ili.errno w) len) /\
       Ili.column_array (Ili.curr_col (Ili.aux w)) (Ili.data_p (Ili.aux w'))
         !! Z.to_nat (Ili.size (Ili.data_p (Ili.aux w)))
         = Some (Some (cv_ret (parse_int_error_check s 0 (Ili.errno w) len))) /\
       Ili.size (Ili.data_p (Ili.aux w')) = Ili.size (Ili.data_p (Ili.aux w)) /\
       Ili.curr_row (Ili.aux w') = Ili.curr_row (Ili.aux w) /\
       (cv_err (parse_int_error_check s 0 (Ili.errno w) len) <> 0 ->
        Ili.err_status (Ili.aux w') <> 0 /\
        Ili.column_array (Ili.curr_col (Ili.aux w)) (Ili.data_p (Ili.aux w'))
          !! Z.to_nat (Ili.size (Ili.data_p (Ili.aux w))) = Some (Some 0) /\
        Ili.curr_col (Ili.aux w') = Ili.curr_col (Ili.aux w) /\
        Ili.err_field (Ili.aux w') = Some (c_str s))) /\
  (forall (S : Strtod) s len w,
     Column.value_column (Column.aux w) ->
     exists w',
       Column.contacts_cb1 s len w = Some w' /\
       Column.err_status (Column.aux w')
         = cv_err (parse_double_error_check s 0 (Column.errno w) len) /\
       Column.vec_p (Column.aux w') !! Z.to_nat (Column.size_p (Column.aux w))
         = Some (Some (cv_ret (parse_double_error_check s 0 (Column.errno w) len))) /\
       Column.size_p (Column.aux w') = Column.size_p (Column.aux w) /\
       Column.curr_row (Column.aux w') = Column.curr_row (Column.aux w) /\
       (cv_err (parse_double_error_check s 0 (Column.errno w) len) <> 0 ->
        Column.err_status (Column.aux w') <> 0 /\
        Column.vec_p (Column.aux w') !! Z.to_nat (Column.size_p (Column.aux w))
          = Some (Some dzero) /\
        Column.curr_col (Column.aux w') = Column.curr_col (Column.aux w) /\
        Column.err_field (Column.aux w') = Some (c_str s))).
Proof.
  split; [exact parse_int_error_zero|].
  split; [intros S; exact parse_double_error_zero|].
  split.
  - intros s len w Hcol Hb.
    destruct (IliTheory.cb1_data_column s len w Hcol Hb)
      as (w' & Hrun & _ & Herr & Hcell & Hsz & _ & Hrow & Hfail & _).
    exists w'. do 5 (split; [assumption|]). intros Hne.
    destruct (Hfail Hne) as [Hc Hf].
    rewrite (parse_int_error_zero _ _ _ Hne) in Hcell.
    repeat split; try assumption. by rewrite Herr.
  - intros S s len w Hcol.
    destruct (ColumnTheory.contacts_cb1_data_column s len w Hcol)
      as (w' & Hrun & Herr & Hcell & Hsz & Hrow & Hfail & _).
    exists w'. do 5 (split; [assumption|]). intros Hne.
    destruct (Hfail Hne) as [Hc Hf].
    rewrite (parse_double_error_zero _ _ _ Hne) in Hcell.
    repeat split; try assumption. by rewrite Herr.
Qed.

Lemma error_stores_zero_witness :
  Ili.data_column (Ili.aux (Ili.sample_world 0 2)) /\
  Ili.in_bounds (Ili.data_p (Ili.aux (Ili.sample_world 0 2))) /\
  cv_err (parse_int_error_check "12a" 0 0 3) <> 0 /\
  cv_ret (parse_int_error_check "12a" 0 0 3) = 0 /\
  (exists w',
     Ili.cb1 "12a" 3 (Ili.sample_world 0 2) = Some w' /\
     Ili.err_status (Ili.aux w') = 1 /\
     Ili.year (Ili.data_p (Ili.aux w')) !! 0%nat = Some (Some 0) /\
     Ili.curr_col (Ili.aux w') = 2 /\
     Ili.err_field (Ili.aux w') = Some "12a"%string) /\
  Column.value_column (H := decimal_strtod)
    (Column.aux (Column.contacts_sample_world 0 2)) /\
  (exists w',
     Column.contacts_cb1 (H := decimal_strtod) "1.5x" 4
       (Column.contacts_sample_world 0 2) = Some w' /\
     Column.err_status (Column.aux w') = 1 /\
     Column.vec_p (Column.aux w') !! 0%nat = Some (Some (Finite false 0 0)) /\
     Column.err_field (Column.aux w') = Some "1.5x"%string).
Proof.
  assert (Hc : Ili.data_column (Ili.aux (Ili.sample_world 0 2))).
  { unfold Ili.data_column, FILE_NUM_COLS; simpl; lia. }
  assert (Hb : Ili.in_bounds (Ili.data_p (Ili.aux (Ili.sample_world 0 2)))).
  { unfold Ili.in_bounds; simpl; lia. }
  assert (He : cv_err (parse_int_error_check "12a" 0 0 3) <> 0).
  { vm_compute. discriminate. }
  split; [exact Hc|]. split; [exact Hb|]. split; [exact He|].
  assert (Hv : Column.value_column (H := decimal_strtod)
                 (Column.aux (Column.contacts_sample_world 0 2))).
  { unfold Column.value_column; simpl; lia. }
  assert (Hd : cv_err (parse_double_error_check (H := decimal_strtod)
                         "1.5x" 0 0 4) <> 0).
  { vm_compute. discriminate. }
  destruct error_stores_zero as (Hint & _ & Hcb & Hccb).
  split; [exact (Hint "12a"%string 0 3 He)|].
  split; [|split; [exact Hv|]].
  - destruct (Hcb "12a"%string 3 (Ili.sample_world 0 2) Hc Hb)
      as (w' & Hrun & Herr & _ & _ & _ & Hw).
    destruct (Hw He) as (_ & Hcell & Hcol & Hf).
    exists w'. split; [exact Hrun|]. split; [exact Herr|].
    split; [exact Hcell|]. split; [exact Hcol|exact Hf].
  - destruct (Hccb decimal_strtod "1.5x"%string 4
                (Column.contacts_sample_world 0 2) Hv)
      as (w' & Hrun & Herr & _ & _ & _ & Hw).
    destruct (Hw Hd) as (_ & Hcell & _ & Hf).
    exists w'. split; [exact Hrun|]. split; [exact Herr|].
    split; [exact Hcell|exact Hf].
Defined.

(** * Further properties *)

(** ** The integer converter on every text *)

(** X1: whatever the text, the length and the incoming [errno], the integer
    converter either leaves the error slot alone and returns an [int]
    obtained from a text consumed over its whole length with [errno] not
    [ERANGE], or writes kind 1 or kind 2 and returns 0. *)
Theorem parse_int_contract (s : string) (err errno len : Z) :
  let r := parse_int_error_check s err errno len in
  (cv_err r = err /\
   INT_MIN <= cv_ret r <= INT_MAX /\
   cv_ret r = sl_value (strtol s errno) /\
   size_t (sl_end (strtol s errno)) = len /\
   cv_errno r <> ERANGE) \/
  (cv_err r = 1 /\ cv_ret r = 0 /\ size_t (sl_end (strtol s errno)) <> len) \/
  (cv_err r = 2 /\ cv_ret r = 0 /\ size_t (sl_end (strtol s errno)) = len).
Proof.
  unfold parse_int_error_check. simpl.
  destruct (Z.eqb_spec (size_t (sl_end (strtol s errno))) len) as [El|El]; simpl.
  - destruct (Z.eqb_spec (sl_errno (strtol s errno)) ERANGE) as [Ee|Ee]; simpl;
      [right; right; done|].
    destruct (Z.ltb_spec (sl_value (strtol s errno)) INT_MIN); simpl;
      [right; right; done|].
    destruct (Z.ltb_spec INT_MAX (sl_value (strtol s errno))); simpl;
      [right; right; done|].
    left. repeat split; try done; lia.
  - right; left. done.
Qed.

(** X2: [errno] is never cleared.  Once a conversion has left [ERANGE] in
    [errno] (a text beyond [long], or [ERANGE] already there on entry),
    the next conversion rejects every text, valid or not: it writes kind 1
    or 2, returns 0 and leaves [ERANGE] in place. *)
Theorem stale_erange_rejects (s0 s : string) (err0 err errno0 len0 len : Z) :
  sl_errno (strtol s0 errno0) = ERANGE ->
  let r0 := parse_int_error_check s0 err0 errno0 len0 in
  let r := parse_int_error_check s err (cv_errno r0) len in
  cv_errno r0 = ERANGE /\
  (cv_err r = 1 \/ cv_err r = 2) /\ cv_ret r = 0 /\ cv_errno r = ERANGE.
Proof.
  intros H0 r0 r.
  assert (He : cv_errno r0 = ERANGE).
  { subst r0. unfold parse_int_error_check. rewrite H0.
    repeat case_match; reflexivity. }
  split; [exact He|]. subst r. rewrite He.
  unfold parse_int_error_check.
  destruct (strtol_errno_cases s ERANGE) as [E|E]; rewrite E;
    destruct (negb (size_t (sl_end (strtol s ERANGE)) =? len)); simpl; auto.
Qed.

Lemma stale_erange_rejects_witness :
  sl_errno (strtol "99999999999999999999" 0) = ERANGE /\
  cv_err (parse_int_error_check "2020" 0
            (cv_errno (parse_int_error_check "99999999999999999999" 0 0 20)) 4) = 2.
Proof.
  split; [reflexivity|].
  destruct (stale_erange_rejects "99999999999999999999" "2020" 0 0 0 20 4 eq_refl)
    as (_ & [H|H] & _); [vm_compute in H; discriminate H|exact H].
Defined.

(** ** Reading back a printed integer *)

Lemma digit_char_facts (d : Z) :
  0 <= d <= 9 ->
  isdigit (digit_char d) = true /\
  isspace (digit_char d) = false /\
  code (digit_char d) - 48 = d /\
  scan_sign (String (digit_char d) EmptyString)
    = (false, 0, String (digit_char d) EmptyString).
Proof.
  intros Hd.
  assert (Hc : d = 0 \/ d = 1 \/ d = 2 \/ d = 3 \/ d = 4 \/
               d = 5 \/ d = 6 \/ d = 7 \/ d = 8 \/ d = 9) by lia.
  repeat (destruct Hc as [Hc|Hc]; [subst d; by vm_compute|]).
  subst d. by vm_compute.
Qed.

Lemma scan_digits_cons_digit (d : Z) (s : string) (a : Z) :
  0 <= d <= 9 ->
  scan_digits (String (digit_char d) s) a
  = let '(v, n) := scan_digits s (10 * a + d) in (v, 1 + n).
Proof.
  intros Hd. destruct (digit_char_facts d Hd) as (Hdig & _ & Hcode & _).
  simpl. rewrite Hdig, Hcode. reflexivity.
Qed.

(** Digits printed in front of a numeral give a numeral: [m'] digits, of
    value [n * 10^m + V], the first one a digit character. *)
Lemma print_digits_scan (f : nat) (n : Z) (acc : string) (m V : Z) :
  0 <= n < 10 ^ Z.of_nat (S f) ->
  0 <= m ->
  strlen acc = m ->
  (forall a, scan_digits acc a = (a * 10 ^ m + V, m)) ->
  exists m' d rest,
    m < m' <= m + Z.of_nat (S f) /\
    0 <= d <= 9 /\
    print_digits (S f) n acc = String (digit_char d) rest /\
    strlen (print_digits (S f) n acc) = m' /\
    forall a, scan_digits (print_digits (S f) n acc) a
              = (a * 10 ^ m' + (n * 10 ^ m + V), m').
Proof.
  revert n acc m V. induction f as [|f IH]; intros n acc m V Hn Hm Hlen Hacc.
  - assert (Hn' : n < 10) by (change (10 ^ Z.of_nat 1) with 10 in Hn; lia).
    simpl. destruct (Z.ltb_spec n 10); [|lia].
    rewrite Z.mod_small by lia.
    exists (m + 1), n, acc. repeat split; try lia.
    + unfold strlen in *. simpl String.length. lia.
    + intros a. rewrite scan_digits_cons_digit by lia. rewrite Hacc.
      f_equal; [|lia]. rewrite Z.pow_add_r by lia. ring.
  - assert (Hmod : 0 <= n mod 10 < 10) by (apply Z.mod_pos_bound; lia).
    assert (Hacc' : forall a,
               scan_digits (String (digit_char (n mod 10)) acc) a
               = (a * 10 ^ (m + 1) + (n mod 10 * 10 ^ m + V), m + 1)).
    { intros a. rewrite scan_digits_cons_digit by lia. rewrite Hacc.
      f_equal; [|lia]. rewrite Z.pow_add_r by lia. ring. }
    assert (Hlen' : strlen (String (digit_char (n mod 10)) acc) = m + 1).
    { unfold strlen in *. simpl String.length. lia. }
    cbn [print_digits]. destruct (Z.ltb_spec n 10).
    + rewrite Z.mod_small in * by lia.
      exists (m + 1), n, acc. repeat split; try lia; done.
    + destruct (IH (n / 10) (String (digit_char (n mod 10)) acc) (m + 1)
                  (n mod 10 * 10 ^ m + V)) as (m' & d & rest & Hm' & Hd & Hhead & Hl & Hs);
        [|lia|exact Hlen'|exact Hacc'|].
      { split; [apply Z.div_pos; lia|].
        apply Z.div_lt_upper_bound; [lia|].
        replace (Z.of_nat (S (S f))) with (1 + Z.of_nat (S f)) in Hn by lia.
        rewrite Z.pow_add_r in Hn by lia. lia. }
      exists m', d, rest. repeat split; try lia; try done.
      intros a. rewrite Hs. f_equal. f_equal.
      rewrite Z.pow_add_r by lia.
      pose proof (Z.div_mod n 10 ltac:(lia)) as Hdm. nia.
Qed.

Lemma strtol_head_digit (d : Z) (rest : string) (errno : Z) :
  0 <= d <= 9 ->
  strtol (String (digit_char d) rest) errno
  = let '(v, nd) := scan_digits (String (digit_char d) rest) 0 in
    if nd =? 0 then mkStrtol 0 0 errno
    else if LONG_MAX <? v then mkStrtol LONG_MAX (0 + 0 + nd) ERANGE
         else if v <? LONG_MIN then mkStrtol LONG_MIN (0 + 0 + nd) ERANGE
              else mkStrtol v (0 + 0 + nd) errno.
Proof.
  intros Hd.
  assert (Hc : d = 0 \/ d = 1 \/ d = 2 \/ d = 3 \/ d = 4 \/
               d = 5 \/ d = 6 \/ d = 7 \/ d = 8 \/ d = 9) by lia.
  repeat (destruct Hc as [Hc|Hc]; [subst d; reflexivity|]).
  subst d. reflexivity.
Qed.

(** X3: what [printf] writes for an [int] is read back as that [int]: for
    every [z] of the [int] range and [errno] other than [ERANGE], the
    converter applied to the printed text and its length returns [z] and
    leaves the error slot and [errno] as they were. *)
Theorem print_parse_round_trip (z err errno : Z) :
  INT_MIN <= z <= INT_MAX ->
  errno <> ERANGE ->
  parse_int_error_check (print_int z) err errno (strlen (print_int z))
  = mkConv z err errno.
Proof.
  unfold INT_MIN, INT_MAX. intros Hz He.
  assert (Hbase : forall a, scan_digits EmptyString a = (a * 10 ^ 0 + 0, 0)).
  { intros a. simpl. f_equal. lia. }
  unfold print_int. destruct (Z.ltb_spec z 0) as [Hneg|Hpos].
  - destruct (print_digits_scan 9 (- z) EmptyString 0 0)
      as (m' & d & rest & Hm' & Hd & Hhead & Hl & Hs);
      [change (10 ^ Z.of_nat 10) with 10000000000; lia|lia|reflexivity|exact Hbase|].
    assert (Hst : strtol (String "-" (print_digits 10 (- z) EmptyString)) errno
                  = mkStrtol z (1 + m') errno).
    { unfold strtol. cbn [span_space drop_space isspace].
      change (isspace "-") with false. cbv iota.
      cbn [scan_sign]. rewrite Hs.
      destruct (Z.eqb_spec m' 0); [lia|].
      replace (- (0 * 10 ^ m' + (- z * 10 ^ 0 + 0))) with z by lia.
      unfold LONG_MAX, LONG_MIN.
      destruct (Z.ltb_spec (2 ^ 63 - 1) z); [lia|].
      destruct (Z.ltb_spec z (- 2 ^ 63)); [lia|].
      f_equal; lia. }
    assert (Hlen : strlen (String "-" (print_digits 10 (- z) EmptyString)) = 1 + m').
    { unfold strlen in *. cbn [String.length]. lia. }
    unfold parse_int_error_check. rewrite Hst, Hlen. cbn [sl_end sl_value sl_errno].
    unfold size_t. rewrite Z.mod_small by lia. rewrite Z.eqb_refl. cbn [negb].
    destruct (Z.eqb_spec errno ERANGE); [contradiction|].
    unfold INT_MIN, INT_MAX.
    destruct (Z.ltb_spec z (- 2 ^ 31)); [lia|].
    destruct (Z.ltb_spec (2 ^ 31 - 1) z); [lia|]. reflexivity.
  - destruct (print_digits_scan 9 z EmptyString 0 0)
      as (m' & d & rest & Hm' & Hd & Hhead & Hl & Hs);
      [change (10 ^ Z.of_nat 10) with 10000000000; lia|lia|reflexivity|exact Hbase|].
    assert (Hst : strtol (print_digits 10 z EmptyString) errno = mkStrtol z m' errno).
    { rewrite Hhead at 1. rewrite strtol_head_digit by exact Hd.
      rewrite <- Hhead, Hs.
      destruct (Z.eqb_spec m' 0); [lia|].
      replace (0 * 10 ^ m' + (z * 10 ^ 0 + 0)) with z by lia.
      unfold LONG_MAX, LONG_MIN.
      destruct (Z.ltb_spec (2 ^ 63 - 1) z); [lia|].
      destruct (Z.ltb_spec z (- 2 ^ 63)); [lia|].
      f_equal; lia. }
    unfold parse_int_error_check. rewrite Hst, Hl. cbn [sl_end sl_value sl_errno].
    unfold size_t. rewrite Z.mod_small by lia. rewrite Z.eqb_refl. cbn [negb].
    destruct (Z.eqb_spec errno ERANGE); [contradiction|].
    unfold INT_MIN, INT_MAX.
    destruct (Z.ltb_spec z (- 2 ^ 31)); [lia|].
    destruct (Z.ltb_spec (2 ^ 31 - 1) z); [lia|]. reflexivity.
Qed.

Lemma print_parse_round_trip_witness :
  print_int (-2147483648) = "-2147483648"%string /\
  parse_int_error_check "-2147483648" 0 0 11 = mkConv (-2147483648) 0 0.
Proof.
  split; [reflexivity|].
  refine (print_parse_round_trip (-2147483648) 0 0 _ _).
  - unfold INT_MIN, INT_MAX. lia.
  - unfold ERANGE. lia.
Defined.

(** ** Which texts are consumed whole *)

Lemma size_t_small' (z : Z) : 0 <= z < 2 ^ 64 -> size_t z = z.
Proof. intros Hz. unfold size_t. by apply Z.mod_small. Qed.

Lemma span_drop_space (s : string) :
  0 <= span_space s /\ span_space s + strlen (drop_space s) = strlen s.
Proof.
  unfold strlen. induction s as [|c r IH]; simpl; [lia|].
  destruct (isspace c); simpl; lia.
Qed.

Lemma scan_sign_length (r : string) :
  let '(_, sg, r') := scan_sign r in 0 <= sg /\ sg + strlen r' = strlen r.
Proof.
  unfold strlen, scan_sign. destruct r as [|c t]; [simpl; lia|].
  destruct (Ascii.eqb_spec c "-") as [->|N1]; [simpl; lia|].
  destruct (Ascii.eqb_spec c "+") as [->|N2]; [simpl; lia|].
  assert (Hs : match c with
               | "-"%char => (true, 1, t)
               | "+"%char => (false, 1, t)
               | _ => (false, 0, String c t)
               end = (false, 0, String c t)).
  { destruct c as [[] [] [] [] [] [] [] []]; try reflexivity; congruence. }
  rewrite Hs. simpl. lia.
Qed.

Lemma scan_digits_length (r : string) (a : Z) :
  0 <= snd (scan_digits r a) <= strlen r /\
  (snd (scan_digits r a) = strlen r <-> all_chars isdigit r = true).
Proof.
  unfold strlen. revert a. induction r as [|c t IH]; intros a; simpl; [done|].
  destruct (isdigit c); simpl.
  - specialize (IH (10 * a + (code c - 48))).
    destruct (scan_digits t (10 * a + (code c - 48))) as [v n]. simpl in *.
    destruct IH as [Hr Hi]. split; [lia|]. rewrite <- Hi. lia.
  - split; [lia|]. split; [lia|discriminate].
Qed.

Lemma strtol_end (s : string) (errno : Z) :
  sl_end (strtol s errno)
  = let '(_, sg, r') := scan_sign (drop_space s) in
    let nd := snd (scan_digits r' 0) in
    if nd =? 0 then 0 else span_space s + sg + nd.
Proof.
  unfold strtol.
  destruct (scan_sign (drop_space s)) as [[neg sg] r'].
  destruct (scan_digits r' 0) as [v nd]. simpl.
  repeat case_match; reflexivity.
Qed.

Lemma strtol_whole_text (s : string) (errno : Z) :
  strlen s < 2 ^ 64 ->
  size_t (sl_end (strtol s errno)) = strlen s <->
  s = EmptyString \/ integer_text s = true.
Proof.
  intros Hfit. rewrite strtol_end. unfold integer_text.
  destruct (span_drop_space s) as [Hws Hsum].
  pose proof (scan_sign_length (drop_space s)) as Hsg.
  destruct (scan_sign (drop_space s)) as [[neg sg] r'].
  destruct Hsg as [Hsg0 Hsg].
  destruct (scan_digits_length r' 0) as [Hnd Hall].
  cbv zeta.
  assert (Hlen0 : strlen s = 0 <-> s = EmptyString).
  { unfold strlen. destruct s; simpl; split; try done; lia. }
  assert (Hr0 : strlen r' = 0 <-> r' = EmptyString).
  { unfold strlen. destruct r'; simpl; split; try done; lia. }
  assert (Hpos : 0 <= strlen r') by (unfold strlen; lia).
  destruct (Z.eqb_spec (snd (scan_digits r' 0)) 0) as [E0|N0].
  - rewrite size_t_small' by lia. split.
    + intros He. left. apply Hlen0. lia.
    + intros [Hs|Hi]; [apply Hlen0 in Hs; lia|].
      destruct r' as [|c t]; [discriminate|].
      apply Hall in Hi. rewrite E0 in Hi. unfold strlen in Hi. simpl in Hi. lia.
  - rewrite size_t_small' by lia. split.
    + intros He. right. destruct r' as [|c t]; [simpl in N0; done|].
      apply Hall. lia.
    + intros [Hs|Hi].
      * subst s. simpl in *. unfold strlen in *. simpl in *. lia.
      * destruct r' as [|c t]; [discriminate|]. apply Hall in Hi. lia.
Qed.

(** X4: the integer converter reports InvalidFormat (kind 1) exactly for the
    nonempty texts that are not a numeral over their whole length; white
    space is accepted in front of the number only, and a text holding any
    other character is rejected. *)
Theorem invalid_format_criterion (s : string) (errno : Z) :
  strlen s < 2 ^ 64 ->
  cv_err (parse_int_error_check s 0 errno (strlen s)) = 1 <->
  s <> EmptyString /\ integer_text s = false.
Proof.
  intros Hfit. pose proof (strtol_whole_text s errno Hfit) as Hend.
  unfold parse_int_error_check.
  destruct (Z.eqb_spec (size_t (sl_end (strtol s errno))) (strlen s)) as [E|E]; simpl.
  - apply Hend in E. split.
    + intros H1. exfalso. repeat case_match; simpl in H1; discriminate.
    + intros [Hne Hf]. destruct E as [E|E]; [contradiction|congruence].
  - split; [|done]. intros _. split.
    + intros ->. apply E, Hend. by left.
    + destruct (integer_text s) eqn:Hi; [|done]. exfalso. apply E, Hend. by right.
Qed.

Lemma invalid_format_criterion_witness :
  cv_err (parse_int_error_check "12 " 0 0 3) = 1 /\
  cv_err (parse_int_error_check "1e3" 0 0 3) = 1.
Proof.
  split.
  - apply (invalid_format_criterion "12 " 0); [by vm_compute|].
    split; [discriminate|reflexivity].
  - apply (invalid_format_criterion "1e3" 0); [by vm_compute|].
    split; [discriminate|reflexivity].
Defined.

(** ** Error messages *)

(** X5: the last entry of either message table is never returned.  Every
    status outside 0..3, the code 4 of a short line as well as any code
    that is not a status at all, is described as a previous line with not
    enough fields; the statuses 0..3 get their own entry. *)
Theorem fallback_message (e : Z) :
  cb_err_str e <> "invalid status code"%string /\
  cb_err_str_double e <> "invalid status code"%string /\
  (e < 0 \/ 4 <= e <->
   cb_err_str e = "previous line has not enough fields"%string) /\
  (e < 0 \/ 4 <= e <->
   cb_err_str_double e = "previous line has not enough fields"%string).
Proof.
  unfold cb_err_str, cb_err_str_double, PARSE_EINVALID, PARSE_EINVALID_DOUBLE.
  destruct (Z.leb_spec 4 e); simpl.
  { repeat split; try discriminate; auto. }
  destruct (Z.ltb_spec e 0); simpl.
  { repeat split; try discriminate; auto. }
  assert (Hc : e = 0 \/ e = 1 \/ e = 2 \/ e = 3) by lia.
  destruct Hc as [-> | [-> | [-> | ->]]]; simpl;
    repeat split; try discriminate; try lia.
Qed.

(** ** Whole files through the fixed-schema driver *)

Module IliFile.
Import Ili IliTheory.

Lemma read_loop_all (cs : list chunk) (w : world) :
  all_parsed cs ->
  read_loop cs w = w' ← run (concat (map events cs)) w; Some (w', false).
Proof.
  intros Hall. revert w. induction Hall as [|ch cs Hok _ IH]; intros w; [reflexivity|].
  simpl. rewrite run_app.
  destruct (run (events ch) w) as [w1|]; simpl; [|reflexivity].
  rewrite Hok. simpl.
  destruct (Z.eqb_spec (err_status (aux w1)) 0) as [E|E]; simpl.
  - apply IH.
  - rewrite run_after_error by done. reflexivity.
Qed.

(** X6: the way the file is cut into chunks does not matter.  Two inputs
    whose [csv_parse] calls all succeed and deliver the same events in
    sequence, with the same flags, flushed events and [errno], give the
    same exit code and the same machine. *)
Theorem chunking_irrelevant (inp1 inp2 : input) :
  all_parsed (chunks inp1) ->
  all_parsed (chunks inp2) ->
  concat (map events (chunks inp1)) = concat (map events (chunks inp2)) ->
  csv_init_ok inp1 = csv_init_ok inp2 ->
  fopen_ok inp1 = fopen_ok inp2 ->
  ferror inp1 = ferror inp2 ->
  fini_events inp1 = fini_events inp2 ->
  errno0 inp1 = errno0 inp2 ->
  read_ili_csv inp1 = read_ili_csv inp2.
Proof.
  intros H1 H2 Hev Hi Hf He Hfi Hen. unfold read_ili_csv.
  rewrite !read_loop_all by done. rewrite Hev, Hi, Hf, He, Hfi, Hen. reflexivity.
Qed.

Lemma chunking_irrelevant_witness :
  read_ili_csv
    (mkInput true true
       [mkChunk [Field "idx"; Field "year"] true;
        mkChunk [Field "week"; Field "est"; EndOfRecord 10; Field "0"] true;
        mkChunk [Field "2020"; Field "1"; EndOfRecord 10] true]
       false [] 0)
  = read_ili_csv short_row_file.
Proof.
  apply chunking_irrelevant; try reflexivity.
  - repeat constructor.
  - repeat constructor.
Defined.

Lemma converts_errno (e : Z) (s : string) :
  converts e s -> cv_errno (parse_int_error_check s 0 e (strlen s)) = e.
Proof.
  unfold converts, parse_int_error_check.
  destruct (strtol_errno_cases s e) as [E|E]; rewrite E.
  - repeat case_match; simpl; done.
  - change (ERANGE =? ERANGE) with true. simpl.
    destruct (negb (size_t (sl_end (strtol s e)) =? strlen s)); simpl; discriminate.
Qed.

Lemma cb1_header (s : string) (len : Z) (w : world) :
  curr_row (aux w) = 1 -> cb1 s len w = Some w.
Proof. intros Hrow. unfold cb1. by rewrite Hrow. Qed.

Lemma run_header_fields (fs : list string) (w : world) :
  curr_row (aux w) = 1 -> run (map Field fs) w = Some w.
Proof.
  intros Hrow. induction fs as [|f fs IH]; [reflexivity|].
  simpl. rewrite cb1_header by done. exact IH.
Qed.

Lemma run_header_record (fs : list string) (c : Z) (w : world) :
  curr_row (aux w) = 1 ->
  err_status (aux w) = 0 ->
  run (map Field fs ++ [EndOfRecord c]) w
  = Some (mkWorld (set_curr_row (set_curr_col (aux w) 1) 2) (errno w)).
Proof.
  intros Hrow Herr. rewrite run_app, run_header_fields by done. simpl.
  destruct w as [[d cap row col err f] en]. simpl in *. subst row err.
  unfold cb2. simpl. rewrite andb_false_r. reflexivity.
Qed.

(** X7: the first record of a file is dropped whatever it holds.  From the
    first row with no error pending, any fields (none, fewer or more than
    the schema, numeric or not) followed by a record end leave the dataset,
    the capacity, the error status and [errno] untouched and put the
    cursors on row 2, column 1. *)
Theorem header_skipped (fs : list string) (c : Z) (w : world) :
  curr_row (aux w) = 1 ->
  err_status (aux w) = 0 ->
  run (map Field fs ++ [EndOfRecord c]) w
  = Some (mkWorld (set_curr_row (set_curr_col (aux w) 1) 2) (errno w)).
Proof. apply run_header_record. Qed.

Lemma header_skipped_witness :
  run (map Field ["1"; "2147483648"; "x"; ""; "9"; "9"]%string ++ [EndOfRecord 10])
      (mkWorld (mkAux (alloc_ili_input reserve_size) reserve_size 1 1 0 None) 0)
  = Some (mkWorld (mkAux (alloc_ili_input reserve_size) reserve_size 2 1 0 None) 0).
Proof.
  exact (header_skipped ["1"; "2147483648"; "x"; ""; "9"; "9"]%string 10
           (mkWorld (mkAux (alloc_ili_input reserve_size) reserve_size 1 1 0 None) 0)
           eq_refl eq_refl).
Defined.

(** *** What one callback changes *)

Lemma keeps_rows_refl (w : world) : keeps_rows w w.
Proof. unfold keeps_rows. repeat split; done. Qed.

Lemma keeps_rows_trans (w1 w2 w3 : world) :
  keeps_rows w1 w2 -> keeps_rows w2 w3 -> keeps_rows w1 w3.
Proof.
  intros (Hs & Hc & Hr & Hy & Hw & He & Hl) (Hs' & Hc' & Hr' & Hy' & Hw' & He' & Hl').
  unfold keeps_rows. repeat split; try congruence.
  all: intros; destruct (Hl i) as (A & B & C); [lia|];
       destruct (Hl' i) as (A' & B' & C'); [lia|]; congruence.
Qed.

Lemma column_array_other (k : Z) (d : ILIinput) :
  k <> 2 -> k <> 3 -> k <> 4 -> column_array k d = [].
Proof.
  intros H2 H3 H4. unfold column_array. destruct k as [|p|p]; try reflexivity.
  do 3 (try destruct p as [p|p|]); try reflexivity; lia.
Qed.

Lemma store_effect {A} (arr arr' : list (cell A)) (i : Z) (v : A) :
  store arr i v = Some arr' ->
  0 <= i < Z.of_nat (length arr) /\
  length arr' = length arr /\
  arr' !! Z.to_nat i = Some (Some v) /\
  forall j : nat, j <> Z.to_nat i -> arr' !! j = arr !! j.
Proof.
  unfold store. intros H.
  destruct (Z.leb_spec 0 i); [|discriminate].
  destruct (Z.ltb_spec i (Z.of_nat (length arr))); [|discriminate].
  injection H as <-. split; [lia|]. split; [by rewrite length_insert|].
  split; [apply list_lookup_insert_eq; lia|].
  intros j Hj. by apply list_lookup_insert_ne.
Qed.

(** A field callback that returns has changed nothing of the stored rows,
    and no array other than the one of its column. *)
Lemma cb1_effect (s : string) (len : Z) (w w' : world) :
  cb1 s len w = Some w' ->
  keeps_rows w w' /\
  forall k, k <> curr_col (aux w) ->
            column_array k (data_p (aux w')) = column_array k (data_p (aux w)).
Proof.
  intros H. unfold cb1 in H.
  destruct (curr_row (aux w) =? 1);
    [injection H as <-; split; [apply keeps_rows_refl|done]|].
  destruct (Z.eqb_spec (err_status (aux w)) 0) as [Herr|Herr]; simpl negb in H;
    cbv iota in H;
    [|injection H as <-; split; [apply keeps_rows_refl|done]].
  destruct (Z.eq_dec (curr_col (aux w)) 2) as [E|N2];
    [|destruct (Z.eq_dec (curr_col (aux w)) 3) as [E|N3];
      [|destruct (Z.eq_dec (curr_col (aux w)) 4) as [E|N4]]].
  1-3: rewrite E in *; cbv iota in H; unfold convert_into in H;
       match type of H with
       | context [store ?a ?i ?v] =>
           destruct (store a i v) as [arr|] eqn:Hst; simpl in H; [|discriminate];
           destruct (store_effect _ _ _ _ Hst) as (Hi & Hlen & _ & Hne)
       end;
       assert (Hw' : keeps_rows w w' /\
                     forall k, k <> curr_col (aux w) ->
                       column_array k (data_p (aux w')) = column_array k (data_p (aux w)));
       [|rewrite E in Hw'; exact Hw'];
       case_match; injection H as <-; unfold keeps_rows; simpl;
       (split;
        [repeat split; try done;
         intros; rewrite ?Hne by lia; done
        |intros k Hk; rewrite E in Hk;
         destruct (Z.eq_dec k 2) as [->|]; [try done|];
         destruct (Z.eq_dec k 3) as [->|]; [try done|];
         destruct (Z.eq_dec k 4) as [->|]; [try done|];
         by rewrite !column_array_other by done]).
  rewrite switch_default in H by done. simpl in H. rewrite Herr in H. simpl in H.
  injection H as <-. split; [|done]. unfold keeps_rows. simpl. repeat split; done.
Qed.

Lemma run_cons_inv (ev : event) (evs : list event) (w w' : world) :
  run (ev :: evs) w = Some w' ->
  exists w1, deliver ev w = Some w1 /\ run evs w1 = Some w'.
Proof.
  simpl. destruct (deliver ev w) as [w1|]; simpl; [|discriminate].
  intros H. by exists w1.
Qed.

Lemma cb1_first_column (s : string) (len : Z) (w : world) :
  curr_row (aux w) <> 1 ->
  err_status (aux w) = 0 ->
  curr_col (aux w) = 1 ->
  cb1 s len w = Some (mkWorld (set_curr_col (aux w) 2) (errno w)).
Proof.
  intros Hrow Herr Hcol. unfold cb1.
  destruct (Z.eqb_spec (curr_row (aux w)) 1); [contradiction|].
  rewrite Herr, Hcol. simpl. by rewrite Herr, Hcol.
Qed.

(** A data field that converts: the value is in the cell of the current
    row, the cursor is on the next column, nothing else has moved. *)
Lemma cb1_ok_step (s : string) (w w' : world) :
  data_column (aux w) ->
  in_bounds (data_p (aux w)) ->
  converts (errno w) s ->
  cb1 s (strlen s) w = Some w' ->
  errno w' = errno w /\
  err_status (aux w') = 0 /\
  curr_col (aux w') = curr_col (aux w) + 1 /\
  column_array (curr_col (aux w)) (data_p (aux w'))
    !! Z.to_nat (size (data_p (aux w))) = Some (Some (value (errno w) s)).
Proof.
  intros Hcol Hb Hconv Hrun.
  destruct (cb1_data_column s (strlen s) w Hcol Hb)
    as (w2 & Hrun2 & Hen & Herr & Hcell & _ & _ & _ & _ & Hok).
  rewrite Hrun in Hrun2. injection Hrun2 as <-.
  unfold converts in Hconv. destruct (Hok Hconv) as [Hc _].
  rewrite Hen, Herr, Hc. split; [by apply converts_errno|]. split; [done|].
  split; [|exact Hcell].
  destruct Hcol as (_ & _ & Hr). unfold FILE_NUM_COLS in Hr.
  apply size_t_small. lia.
Qed.

Lemma keeps_rows_in_bounds (w w' : world) :
  keeps_rows w w' -> in_bounds (data_p (aux w)) -> in_bounds (data_p (aux w')).
Proof.
  intros (Hs & _ & _ & Hy & Hw & He & _). unfold in_bounds.
  rewrite Hs, Hy, Hw, He. done.
Qed.

Lemma keeps_rows_consistent (w w' : world) :
  keeps_rows w w' -> consistent (aux w) -> consistent (aux w').
Proof.
  intros (Hs & Hc & _ & Hy & Hw & He & _). unfold consistent, allocated.
  rewrite Hs, Hc, Hy, Hw, He. done.
Qed.

(** The record callback on a row after the header, no error pending: one
    more row, and every cell that existed keeps its content. *)
Lemma cb2_cells (c : Z) (a : ILIinputAux) :
  err_status a = 0 ->
  curr_row a <> 1 ->
  consistent a ->
  size (data_p (cb2 c a)) = size (data_p a) + 1 /\
  forall i : nat,
    Z.of_nat i < capacity a ->
    year (data_p (cb2 c a)) !! i = year (data_p a) !! i /\
    week (data_p (cb2 c a)) !! i = week (data_p a) !! i /\
    estInc (data_p (cb2 c a)) !! i = estInc (data_p a) !! i.
Proof.
  intros Herr Hrow ((Hy & Hw & He) & Hsz & Hfit).
  unfold sizeof_int in Hfit.
  destruct (cb2_data_row c a Herr Hrow) as [Hgrow Hstay].
  rewrite (size_t_small (size (data_p a) + 1)) in Hgrow, Hstay by lia.
  rewrite (size_t_small (capacity a * 2)) in Hgrow by lia.
  destruct (Z.le_gt_cases (capacity a) (size (data_p a) + 1)) as [Hc|Hc].
  - destruct (Hgrow Hc) as [_ Hd]. rewrite Hd. simpl. split; [done|].
    intros i Hi. rewrite !realloc_cells_lookup by (unfold sizeof_int; lia). done.
  - destruct (Hstay Hc) as [_ Hd]. rewrite Hd. simpl. done.
Qed.

Lemma line_events_length (l : line) :
  Z.of_nat (length (line_events l)) = 5 + Z.of_nat (length (l_extra l)).
Proof.
  unfold line_events. cbn [length]. rewrite length_app, length_map. simpl. lia.
Qed.

Lemma holds_snoc (d : ILIinput) (ys ws es : list Z) (vy vw ve : Z) (n : Z) :
  length ws = length ys -> length es = length ys ->
  n = Z.of_nat (length ys) ->
  size d = n + 1 ->
  (forall i v, ys !! i = Some v -> year d !! i = Some (Some v)) ->
  (forall i v, ws !! i = Some v -> week d !! i = Some (Some v)) ->
  (forall i v, es !! i = Some v -> estInc d !! i = Some (Some v)) ->
  year d !! Z.to_nat n = Some (Some vy) ->
  week d !! Z.to_nat n = Some (Some vw) ->
  estInc d !! Z.to_nat n = Some (Some ve) ->
  holds d (ys ++ [vy]) (ws ++ [vw]) (es ++ [ve]).
Proof.
  intros Hlw Hle Hn Hsz Hy Hw He Hvy Hvw Hve. subst n.
  rewrite Nat2Z.id in Hvy, Hvw, Hve.
  unfold holds. rewrite !length_app. simpl.
  split; [lia|]. split; [lia|]. split; [lia|].
  repeat split; intros i v Hi.
  - destruct (proj1 (lookup_app_Some _ _ _ _) Hi) as [H|[Hge H]]; [by apply Hy|].
    destruct (i - length ys)%nat eqn:E; simpl in H; [|done].
    injection H as <-. replace i with (length ys) by lia. done.
  - destruct (proj1 (lookup_app_Some _ _ _ _) Hi) as [H|[Hge H]]; [by apply Hw|].
    destruct (i - length ws)%nat eqn:E; simpl in H; [|done].
    injection H as <-. replace i with (length ys) by lia. done.
  - destruct (proj1 (lookup_app_Some _ _ _ _) Hi) as [H|[Hge H]]; [by apply He|].
    destruct (i - length es)%nat eqn:E; simpl in H; [|done].
    injection H as <-. replace i with (length ys) by lia. done.
Qed.

(** A line whose three data fields convert is stored as the next row. *)
Lemma run_line (l : line) (n e : Z) (w : world) (ys ws es : list Z) :
  row_start e w ->
  inv (n + Z.of_nat (length (line_events l))) (aux w) ->
  0 <= n ->
  line_ok e l ->
  holds (data_p (aux w)) ys ws es ->
  exists w',
    run (line_events l) w = Some w' /\
    row_start e w' /\
    inv n (aux w') /\
    holds (data_p (aux w'))
      (ys ++ [value e (l_year l)]) (ws ++ [value e (l_week l)])
      (es ++ [value e (l_estInc l)]).
Proof.
  intros (Hen & Herr & Hcol & Hrow) Hinv Hn (Hcy & Hcw & Hce)
         (Hsz & Hlw & Hle & Hys & Hws & Hes).
  destruct (run_inv (line_events l) n w Hinv Hn) as (w' & Hrun & Hinv').
  exists w'. split; [exact Hrun|].
  pose proof (inv_in_bounds _ _ Hinv) as Hb.
  pose proof (inv_consistent _ _ Hinv) as Hcons.
  pose proof (line_events_length l) as Hlen.
  assert (Hbudget : size (data_p (aux w)) + 5 + Z.of_nat (length (l_extra l)) <= 2 ^ 59).
  { destruct Hinv as (_ & _ & _ & _ & Hbud). lia. }
  assert (Hsz0 : 0 <= size (data_p (aux w))) by (destruct Hb; lia).
  assert (Hrow1 : curr_row (aux w) <> 1) by lia.
  unfold line_events in Hrun.
  apply run_cons_inv in Hrun as (w1 & H1 & Hrun).
  apply run_cons_inv in Hrun as (w2 & H2 & Hrun).
  apply run_cons_inv in Hrun as (w3 & H3 & Hrun).
  apply run_cons_inv in Hrun as (w4 & H4 & Hrun).
  simpl in H1, H2, H3, H4.
  (* first field *)
  rewrite cb1_first_column in H1 by done. injection H1 as <-.
  (* year *)
  destruct (cb1_effect _ _ _ _ H2) as [K2 O2].
  assert (D2 : data_column (aux (mkWorld (set_curr_col (aux w) 2) (errno w)))).
  { unfold data_column, FILE_NUM_COLS. simpl. lia. }
  assert (Cv2 : converts (errno (mkWorld (set_curr_col (aux w) 2) (errno w)))
                  (l_year l)) by (simpl; by rewrite Hen).
  destruct (cb1_ok_step _ _ _ D2 Hb Cv2 H2) as (E2 & R2 & C2 & V2).
  simpl in E2, C2, V2, K2, O2. rewrite Hen in V2.
  (* week *)
  destruct (cb1_effect _ _ _ _ H3) as [K3 O3].
  assert (Hb2 : in_bounds (data_p (aux w2))) by (eapply keeps_rows_in_bounds; eauto).
  destruct K2 as (S2 & Cap2 & Row2 & Ly2 & Lw2 & Le2 & P2). simpl in *.
  assert (D3 : data_column (aux w2)).
  { unfold data_column, FILE_NUM_COLS. lia. }
  assert (Cv3 : converts (errno w2) (l_week l)) by (by rewrite E2, Hen).
  destruct (cb1_ok_step _ _ _ D3 Hb2 Cv3 H3) as (E3 & R3 & C3 & V3).
  rewrite C2 in V3, O3. rewrite S2 in V3. rewrite E2, Hen in V3. simpl in V3.
  (* estInc *)
  destruct (cb1_effect _ _ _ _ H4) as [K4 O4].
  assert (Hb3 : in_bounds (data_p (aux w3))).
  { eapply keeps_rows_in_bounds; eauto. }
  destruct K3 as (S3 & Cap3 & Row3 & Ly3 & Lw3 & Le3 & P3).
  assert (D4 : data_column (aux w3)).
  { unfold data_column, FILE_NUM_COLS. lia. }
  assert (Cv4 : converts (errno w3) (l_estInc l)) by (by rewrite E3, E2, Hen).
  destruct (cb1_ok_step _ _ _ D4 Hb3 Cv4 H4) as (E4 & R4 & C4 & V4).
  rewrite C3, C2 in V4, O4. rewrite S3, S2 in V4. rewrite E3, E2, Hen in V4.
  simpl in V4.
  destruct K4 as (S4 & Cap4 & Row4 & Ly4 & Lw4 & Le4 & P4).
  (* further fields *)
  rewrite run_app in Hrun.
  rewrite run_beyond_schema in Hrun
    by (unfold FILE_NUM_COLS; rewrite ?C4, ?C3, ?C2; try lia; congruence).
  simpl in Hrun. injection Hrun as <-. simpl.
  set (a5 := set_curr_col (aux w4) (curr_col (aux w4) + Z.of_nat (length (l_extra l)))).
  assert (Herr5 : err_status a5 = 0) by exact R4.
  assert (Hrow5 : curr_row a5 <> 1) by (simpl; congruence).
  assert (Hcons5 : consistent a5).
  { unfold consistent, allocated in *. simpl.
    rewrite S4, S3, S2, Cap4, Cap3, Cap2, Ly4, Ly3, Ly2, Lw4, Lw3, Lw2, Le4, Le3, Le2.
    exact Hcons. }
  destruct (cb2_cells (l_term l) a5 Herr5 Hrow5 Hcons5) as [Hs5 Hcells].
  destruct (cb2_full_row (l_term l) a5 Herr5 Hrow5) as (He5 & _ & Hc5 & Hr5 & _).
  { unfold FILE_NUM_COLS. simpl. rewrite size_t_small; lia. }
  simpl in Hs5, Hr5, Hcells.
  assert (Hsize4 : size (data_p (aux w4)) = size (data_p (aux w))) by congruence.
  assert (Hcap4 : capacity (aux w4) = capacity (aux w)) by congruence.
  split.
  { unfold row_start. simpl. rewrite He5, Hc5, Hr5, Hs5.
    split; [congruence|]. split; [done|]. split; [done|].
    rewrite Row4, Row3, Row2. simpl. rewrite Hrow, Hsize4.
    rewrite size_t_small by lia. lia. }
  split; [exact Hinv'|].
  destruct Hcons as (_ & Hslt & _).
  assert (Hidx : forall i : nat,
             Z.of_nat i <= size (data_p (aux w)) -> Z.of_nat i < capacity (aux w4)).
  { intros i Hi. rewrite Hcap4. lia. }
  apply (holds_snoc _ ys ws es _ _ _ (size (data_p (aux w)))); try done.
  - rewrite Hs5. lia.
  - intros i v Hi. pose proof (lookup_lt_Some _ _ _ Hi) as Hlt.
    destruct (Hcells i) as (A & _ & _); [apply Hidx; lia|]. rewrite A.
    destruct (P4 i) as (A4 & _ & _); [lia|].
    destruct (P3 i) as (A3 & _ & _); [lia|].
    destruct (P2 i) as (A2 & _ & _); [lia|].
    rewrite A4, A3, A2. by apply Hys.
  - intros i v Hi. pose proof (lookup_lt_Some _ _ _ Hi) as Hlt.
    destruct (Hcells i) as (_ & A & _); [apply Hidx; lia|]. rewrite A.
    destruct (P4 i) as (_ & A4 & _); [lia|].
    destruct (P3 i) as (_ & A3 & _); [lia|].
    destruct (P2 i) as (_ & A2 & _); [lia|].
    rewrite A4, A3, A2. by apply Hws.
  - intros i v Hi. pose proof (lookup_lt_Some _ _ _ Hi) as Hlt.
    destruct (Hcells i) as (_ & _ & A); [apply Hidx; lia|]. rewrite A.
    destruct (P4 i) as (_ & _ & A4); [lia|].
    destruct (P3 i) as (_ & _ & A3); [lia|].
    destruct (P2 i) as (_ & _ & A2); [lia|].
    rewrite A4, A3, A2. by apply Hes.
  - destruct (Hcells (Z.to_nat (size (data_p (aux w))))) as (A & _ & _);
      [apply Hidx; lia|]. rewrite A.
    pose proof (O4 2 ltac:(lia)) as Oy4. pose proof (O3 2 ltac:(lia)) as Oy3.
    simpl in Oy4, Oy3. rewrite Oy4, Oy3. exact V2.
  - destruct (Hcells (Z.to_nat (size (data_p (aux w))))) as (_ & A & _);
      [apply Hidx; lia|]. rewrite A.
    pose proof (O4 3 ltac:(lia)) as Ow4. simpl in Ow4. rewrite Ow4. exact V3.
  - destruct (Hcells (Z.to_nat (size (data_p (aux w))))) as (_ & _ & A);
      [apply Hidx; lia|]. rewrite A. exact V4.
Qed.

Lemma run_lines (ls : list line) (n e : Z) (w : world) (ys ws es : list Z) :
  row_start e w ->
  inv (n + Z.of_nat (length (concat (map line_events ls)))) (aux w) ->
  0 <= n ->
  Forall (line_ok e) ls ->
  holds (data_p (aux w)) ys ws es ->
  exists w',
    run (concat (map line_events ls)) w = Some w' /\
    row_start e w' /\
    inv n (aux w') /\
    holds (data_p (aux w'))
      (ys ++ map (fun l => value e (l_year l)) ls)
      (ws ++ map (fun l => value e (l_week l)) ls)
      (es ++ map (fun l => value e (l_estInc l)) ls).
Proof.
  revert w ys ws es. induction ls as [|l ls IH]; intros w ys ws es Hst Hinv Hn Hok Hh.
  - simpl in *. rewrite Z.add_0_r in Hinv. rewrite !app_nil_r. by exists w.
  - inversion Hok as [|? ? Hl Hls]; subst.
    cbn [map concat] in *. rewrite length_app in Hinv.
    destruct (run_line l (n + Z.of_nat (length (concat (map line_events ls))))
                e w ys ws es Hst) as (w1 & Hrun1 & Hst1 & Hinv1 & Hh1);
      [eapply inv_weaken; [exact Hinv|lia]|lia|exact Hl|exact Hh|].
    destruct (IH w1 _ _ _ Hst1 Hinv1 Hn Hls Hh1) as (w' & Hrun & Hst' & Hinv' & Hh').
    exists w'. rewrite run_app, Hrun1. simpl.
    split; [exact Hrun|]. split; [exact Hst'|]. split; [exact Hinv'|].
    rewrite <- !app_assoc in Hh'. exact Hh'.
Qed.

Lemma exact_cells (arr : list (cell Z)) (vs : list Z) :
  length arr = length vs ->
  (forall i v, vs !! i = Some v -> arr !! i = Some (Some v)) ->
  arr = map Some vs.
Proof.
  intros Hlen Hcells. apply list_eq. intros i.
  change (map Some vs) with (Some <$> vs). rewrite list_lookup_fmap.
  destruct (vs !! i) as [v|] eqn:Hv; simpl.
  - by apply Hcells.
  - apply lookup_ge_None. apply lookup_ge_None in Hv. lia.
Qed.

(** After the shrink the arrays are exactly the stored rows. *)
Lemma shrink_holds (w : world) (ys ws es : list Z) :
  inv 0 (aux w) ->
  holds (data_p (aux w)) ys ws es ->
  size (data_p (aux (shrink_to_fit w))) = Z.of_nat (length ys) /\
  err_status (aux (shrink_to_fit w)) = err_status (aux w) /\
  year (data_p (aux (shrink_to_fit w))) = map Some ys /\
  week (data_p (aux (shrink_to_fit w))) = map Some ws /\
  estInc (data_p (aux (shrink_to_fit w))) = map Some es.
Proof.
  intros Hinv (Hsz & Hlw & Hle & Hys & Hws & Hes).
  destruct (shrink_to_fit_exact 0 w Hinv) as (Hs & He & (Hy & Hw & Hi) & Hcells).
  split; [congruence|]. split; [exact He|].
  repeat split; apply exact_cells; try lia.
  - intros i v Hv. pose proof (lookup_lt_Some _ _ _ Hv).
    destruct (Hcells i) as (A & _ & _); [lia|]. rewrite A. by apply Hys.
  - intros i v Hv. pose proof (lookup_lt_Some _ _ _ Hv).
    destruct (Hcells i) as (_ & A & _); [lia|]. rewrite A. by apply Hws.
  - intros i v Hv. pose proof (lookup_lt_Some _ _ _ Hv).
    destruct (Hcells i) as (_ & _ & A); [lia|]. rewrite A. by apply Hes.
Qed.

(** X8: a well-formed file is ingested whole.  For a file delivered by
    successful [csv_parse] calls as a header record and data lines whose
    three data fields all convert, every line ended by its record event
    (nothing left for [csv_fini]), the driver returns success with [size]
    the number of lines and the three arrays holding exactly the converted
    values, in order, with as many cells as lines. *)
Theorem valid_file_ingested (inp : input) (header : list string) (c : Z)
    (ls : list line) :
  csv_init_ok inp = true ->
  fopen_ok inp = true ->
  ferror inp = false ->
  all_parsed (chunks inp) ->
  fini_events inp = [] ->
  concat (map events (chunks inp)) = file_events header c ls ->
  Forall (line_ok (errno0 inp)) ls ->
  event_count (chunks inp) <= 2 ^ 59 ->
  exists w,
    read_ili_csv inp = Some (EXIT_SUCCESS, w) /\
    err_status (aux w) = 0 /\
    size (data_p (aux w)) = Z.of_nat (length ls) /\
    year (data_p (aux w)) = map (fun l => Some (value (errno0 inp) (l_year l))) ls /\
    week (data_p (aux w)) = map (fun l => Some (value (errno0 inp) (l_week l))) ls /\
    estInc (data_p (aux w)) = map (fun l => Some (value (errno0 inp) (l_estInc l))) ls.
Proof.
  intros Hinit Hopen Hferr Hall Hfini Hev Hok Hcount.
  unfold read_ili_csv. rewrite Hinit, Hopen, Hferr. simpl negb. cbv iota.
  rewrite read_loop_all by done.
  unfold event_count in Hcount. rewrite Hev in *. unfold file_events in *.
  rewrite app_assoc, run_app, run_header_record by done. simpl mbind.
  rewrite !length_app in Hcount.
  set (wh := mkWorld _ (errno0 inp)).
  assert (Hst : row_start (errno0 inp) wh) by (by unfold row_start).
  assert (Hinv : inv (0 + Z.of_nat (length (concat (map line_events ls)))) (aux wh)).
  { pose proof (initial_inv (Z.of_nat (length (concat (map line_events ls))))
                  (errno0 inp)) as Hi.
    rewrite Z.add_0_l. apply Hi. lia. }
  assert (Hh : holds (data_p (aux wh)) [] [] []).
  { unfold holds. simpl. repeat split; try done. }
  destruct (run_lines ls 0 (errno0 inp) wh [] [] [] Hst Hinv ltac:(lia) Hok Hh)
    as (w1 & Hrun & (_ & Herr1 & _) & Hinv1 & Hh1).
  rewrite Hrun. simpl mbind. simpl in Hh1.
  destruct (shrink_holds w1 _ _ _ Hinv1 Hh1) as (Hs & He & Hy & Hw & Hi).
  rewrite He, Herr1. simpl. rewrite Hfini. simpl.
  eexists. split; [reflexivity|]. simpl.
  rewrite He, Herr1, Hs, Hy, Hw, Hi, !length_map, !map_map. done.
Qed.

Lemma valid_file_ingested_witness :
  exists w,
    read_ili_csv
      (mkInput true true
         [mkChunk (header_row ++ [Field "0"; Field "2020"]) true;
          mkChunk [Field "1"; Field "100"; EndOfRecord 10; Field "1"] true;
          mkChunk [Field " 2020"; Field "+2"; Field "-150"; Field "x";
                   EndOfRecord 13] true]
         false [] 0) = Some (EXIT_SUCCESS, w) /\
    size (data_p (aux w)) = 2 /\
    year (data_p (aux w)) = [Some 2020; Some 2020] /\
    week (data_p (aux w)) = [Some 1; Some 2] /\
    estInc (data_p (aux w)) = [Some 100; Some (-150)].
Proof.
  destruct (valid_file_ingested
              (mkInput true true
                 [mkChunk (header_row ++ [Field "0"; Field "2020"]) true;
                  mkChunk [Field "1"; Field "100"; EndOfRecord 10; Field "1"] true;
                  mkChunk [Field " 2020"; Field "+2"; Field "-150"; Field "x";
                           EndOfRecord 13] true]
                 false [] 0)
              ["idx"; "year"; "week"; "est"]%string 10
              [mkLine "0" "2020" "1" "100" [] 10;
               mkLine "1" " 2020" "+2" "-150" ["x"%string] 13])
    as (w & Hr & _ & Hs & Hy & Hw & He); try reflexivity.
  - repeat constructor.
  - repeat constructor.
  - by vm_compute.
  - exists w. split; [exact Hr|]. split; [exact Hs|].
    split; [exact Hy|]. split; [exact Hw|exact He].
Defined.

(** *** The first field that does not convert *)

Lemma run_good_fields (goods : list string) (w : world) :
  curr_row (aux w) <> 1 ->
  err_status (aux w) = 0 ->
  2 <= curr_col (aux w) ->
  curr_col (aux w) + Z.of_nat (length goods) <= 5 ->
  in_bounds (data_p (aux w)) ->
  Forall (converts (errno w)) goods ->
  exists w',
    run (map Field goods) w = Some w' /\
    keeps_rows w w' /\
    errno w' = errno w /\
    err_status (aux w') = 0 /\
    curr_col (aux w') = curr_col (aux w) + Z.of_nat (length goods).
Proof.
  revert w. induction goods as [|g goods IH]; intros w Hrow Herr Hc2 Hc5 Hb Hok.
  - exists w. simpl. split; [done|]. split; [apply keeps_rows_refl|].
    repeat split; try done; lia.
  - inversion Hok as [|? ? Hg Hgs]; subst. simpl length in Hc5.
    assert (Hdc : data_column (aux w)).
    { unfold data_column, FILE_NUM_COLS. lia. }
    destruct (cb1_frame g (strlen g) w Hb) as (w1 & Hrun1 & _).
    destruct (cb1_effect _ _ _ _ Hrun1) as [K1 _].
    destruct (cb1_ok_step _ _ _ Hdc Hb Hg Hrun1) as (E1 & R1 & C1 & _).
    pose proof K1 as (_ & _ & Row1 & _).
    destruct (IH w1) as (w' & Hrun & K & E & R & C);
      [congruence|done|lia|lia|by eapply keeps_rows_in_bounds|by rewrite E1|].
    exists w'. simpl. rewrite Hrun1. simpl.
    split; [exact Hrun|]. split; [by eapply keeps_rows_trans|].
    repeat split; try congruence; lia.
Qed.

Lemma keeps_rows_inv (n : Z) (w w' : world) :
  keeps_rows w w' -> inv n (aux w) -> inv n (aux w').
Proof.
  intros (Hs & Hc & _ & Hy & Hw & He & _). unfold inv, allocated.
  rewrite Hs, Hc, Hy, Hw, He. done.
Qed.

Lemma keeps_rows_holds (w w' : world) (ys ws es : list Z) :
  keeps_rows w w' ->
  holds (data_p (aux w)) ys ws es -> holds (data_p (aux w')) ys ws es.
Proof.
  intros (Hs & _ & _ & _ & _ & _ & Hl) (Hsz & Hlw & Hle & Hys & Hws & Hes).
  unfold holds. rewrite Hs. repeat split; try done.
  - intros i v Hv. pose proof (lookup_lt_Some _ _ _ Hv).
    destruct (Hl i) as (A & _ & _); [lia|]. rewrite A. by apply Hys.
  - intros i v Hv. pose proof (lookup_lt_Some _ _ _ Hv).
    destruct (Hl i) as (_ & A & _); [lia|]. rewrite A. by apply Hws.
  - intros i v Hv. pose proof (lookup_lt_Some _ _ _ Hv).
    destruct (Hl i) as (_ & _ & A); [lia|]. rewrite A. by apply Hes.
Qed.

Lemma shrink_cursors (w : world) :
  curr_row (aux (shrink_to_fit w)) = curr_row (aux w) /\
  curr_col (aux (shrink_to_fit w)) = curr_col (aux w) /\
  err_field (aux (shrink_to_fit w)) = err_field (aux w).
Proof. unfold shrink_to_fit. case_match; done. Qed.

Lemma first_bad_field (inp : input) (header : list string) (c : Z)
    (ls : list line) (idx : string) (goods : list string) (bad : string)
    (rest : list event) :
  csv_init_ok inp = true ->
  fopen_ok inp = true ->
  all_parsed (chunks inp) ->
  concat (map events (chunks inp))
    = file_events header c ls ++ Field idx :: map Field goods ++ Field bad :: rest ->
  Forall (line_ok (errno0 inp)) ls ->
  Forall (converts (errno0 inp)) goods ->
  (length goods <= 2)%nat ->
  ~ converts (errno0 inp) bad ->
  event_count (chunks inp) <= 2 ^ 59 ->
  exists w,
    read_ili_csv inp = Some (EXIT_FAILURE, w) /\
    err_status (aux w)
      = cv_err (parse_int_error_check bad 0 (errno0 inp) (strlen bad)) /\
    report (aux w)
      = Some (mkDiagnostic (2 + Z.of_nat (length goods)) (Some (c_str bad))
                (Z.of_nat (length ls) + 2) (cb_err_str (err_status (aux w)))) /\
    size (data_p (aux w)) = Z.of_nat (length ls) /\
    year (data_p (aux w)) = map (fun l => Some (value (errno0 inp) (l_year l))) ls /\
    week (data_p (aux w)) = map (fun l => Some (value (errno0 inp) (l_week l))) ls /\
    estInc (data_p (aux w)) = map (fun l => Some (value (errno0 inp) (l_estInc l))) ls.
Proof.
  intros Hinit Hopen Hall Hev Hok Hgoods Hlen Hbad Hcount.
  unfold read_ili_csv. rewrite Hinit, Hopen. simpl negb. cbv iota.
  rewrite read_loop_all by done.
  unfold event_count in Hcount. rewrite Hev in *. unfold file_events in *.
  rewrite !length_app in Hcount. cbn [length] in Hcount.
  rewrite !length_app, !length_map in Hcount. cbn [length] in Hcount.
  rewrite (app_assoc (map Field header)), <- (app_assoc (map Field header ++ _)).
  rewrite run_app, run_header_record by done. simpl mbind.
  set (wh := mkWorld _ (errno0 inp)).
  set (tail := Field idx :: map Field goods ++ Field bad :: rest).
  assert (Htail : Z.of_nat (length tail)
                  = 2 + Z.of_nat (length goods) + Z.of_nat (length rest)).
  { subst tail. cbn [length]. rewrite length_app, length_map. cbn [length]. lia. }
  assert (Hst : row_start (errno0 inp) wh) by (by unfold row_start).
  assert (Hinv : inv (Z.of_nat (length tail)
                      + Z.of_nat (length (concat (map line_events ls)))) (aux wh)).
  { apply (initial_inv _ (errno0 inp)). lia. }
  assert (Hh : holds (data_p (aux wh)) [] [] []).
  { unfold holds. simpl. repeat split; try done. }
  destruct (run_lines ls (Z.of_nat (length tail)) (errno0 inp) wh [] [] []
              Hst Hinv ltac:(lia) Hok Hh)
    as (w1 & Hrun & (Hen1 & Herr1 & Hcol1 & Hrow1) & Hinv1 & Hh1).
  rewrite run_app, Hrun. simpl mbind. simpl in Hh1.
  pose proof (inv_in_bounds _ _ Hinv1) as Hb1.
  assert (Hsz1 : 0 <= size (data_p (aux w1))) by (destruct Hb1; lia).
  (* first field of the line *)
  subst tail. cbn [run deliver].
  rewrite cb1_first_column by (try done; lia). simpl mbind.
  set (w2 := mkWorld (set_curr_col (aux w1) 2) (errno w1)).
  (* fields that convert *)
  destruct (run_good_fields goods w2) as (w3 & Hrun3 & K3 & E3 & R3 & C3);
    [simpl; lia|done|simpl; lia|simpl; lia|exact Hb1|simpl; by rewrite Hen1|].
  rewrite run_app, Hrun3. simpl mbind. simpl in C3, E3.
  (* the field that does not convert *)
  pose proof K3 as (S3 & _ & Row3 & _). simpl in S3, Row3.
  assert (Hdc : data_column (aux w3)).
  { unfold data_column, FILE_NUM_COLS. lia. }
  assert (Hb3 : in_bounds (data_p (aux w3))) by (by eapply keeps_rows_in_bounds).
  destruct (cb1_data_column bad (strlen bad) w3 Hdc Hb3)
    as (w4 & Hrun4 & _ & Herr4 & _ & _ & _ & _ & Hfail & _).
  destruct (cb1_effect _ _ _ _ Hrun4) as [K4 _].
  rewrite E3, Hen1 in Herr4, Hfail.
  unfold converts in Hbad. destruct (Hfail Hbad) as [C4 F4].
  cbn [run deliver]. rewrite Hrun4. simpl mbind.
  rewrite run_after_error by (by rewrite Herr4). simpl mbind.
  (* the shrink *)
  assert (K : keeps_rows w1 w4).
  { eapply keeps_rows_trans; [|exact K4]. eapply keeps_rows_trans; [|exact K3].
    unfold keeps_rows. simpl. repeat split; done. }
  assert (Hinv4 : inv 0 (aux w4)).
  { eapply keeps_rows_inv; [exact K|]. eapply inv_weaken; [exact Hinv1|lia]. }
  pose proof (keeps_rows_holds _ _ _ _ _ K Hh1) as Hh4.
  destruct (shrink_holds w4 _ _ _ Hinv4 Hh4) as (Hs & He & Hy & Hw & Hi).
  destruct (shrink_cursors w4) as (Hr5 & Hc5 & Hf5).
  rewrite He.
  destruct (Z.eqb_spec (err_status (aux w4)) 0) as [E0|_]; [congruence|].
  simpl negb. rewrite orb_true_r. simpl orb. cbv iota.
  eexists. split; [reflexivity|]. simpl.
  rewrite He, Hs, Hy, Hw, Hi, !length_map, !map_map.
  split; [exact Herr4|]. split; [|done].
  unfold report. rewrite He, Hr5, Hc5, Hf5.
  destruct (Z.eqb_spec (err_status (aux w4)) 0) as [E0|_]; [congruence|].
  simpl negb. cbv iota.
  pose proof K as (S4 & _ & Row4 & _).
  destruct Hh1 as (Hsz & _). rewrite length_map in Hsz.
  rewrite C4, C3, F4, Row4, Hrow1, Hsz. do 2 f_equal; lia.
Qed.

Lemma report_shrink (w : world) :
  report (aux (shrink_to_fit w)) = report (aux w).
Proof. unfold shrink_to_fit. by destruct (_ <? _). Qed.

Lemma read_loop_log_all (cs : list chunk) (w : world) :
  all_parsed cs ->
  err_status (aux w) = 0 ->
  read_loop_log cs w
  = w' ← run (concat (map events cs)) w; Some (w', false, report (aux w')).
Proof.
  intros Hall. revert w. induction Hall as [|ch cs Hok _ IH]; intros w He.
  - simpl. unfold report. by rewrite He.
  - simpl. rewrite run_app.
    destruct (run (events ch) w) as [w1|]; simpl; [|reflexivity].
    rewrite Hok. simpl.
    destruct (Z.eqb_spec (err_status (aux w1)) 0) as [E|E]; simpl.
    + by apply IH.
    + rewrite run_after_error by done. reflexivity.
Qed.

(** When every [csv_parse] call succeeds, a failing driver has printed the
    diagnostic of the machine it returns. *)
Lemma read_ili_csv_log_failure (inp : input) (w : world) :
  csv_init_ok inp = true ->
  fopen_ok inp = true ->
  all_parsed (chunks inp) ->
  read_ili_csv inp = Some (EXIT_FAILURE, w) ->
  read_ili_csv_log inp = Some (EXIT_FAILURE, w, report (aux w)).
Proof.
  intros Hinit Hopen Hall. unfold read_ili_csv, read_ili_csv_log, initial_world.
  rewrite Hinit, Hopen. simpl negb. cbv iota.
  rewrite read_loop_all, read_loop_log_all by done.
  destruct (run (concat (map events (chunks inp))) _) as [w1|]; simpl; [|discriminate].
  destruct (ferror inp || negb (err_status (aux (shrink_to_fit w1)) =? 0) || false).
  - intros Hr. injection Hr as <-. by rewrite report_shrink.
  - destruct (run (fini_events inp) (shrink_to_fit w1)); simpl; discriminate.
Qed.

(** X9: the first field that does not convert ends the ingestion and is
    reported exactly, when a [csv_parse] call delivers it (the last field of
    a file that does not end with a line terminator is delivered by
    [csv_fini] instead, and is not covered here).  After a header and lines
    that convert, all delivered by [csv_parse] calls that succeed, a line
    whose data field number [2 + length goods] is delivered by such a call
    and does not convert makes the driver fail, whatever follows in the
    file, with the converter's kind in [err_status]; the diagnostic that the
    driver prints names that field, its text and the line's own number;
    [size] counts the lines before it and the arrays hold exactly their
    values (the cells written for the rejected line are cut off by the
    shrink). *)
Theorem conversion_error_reported (inp : input) (header : list string) (c : Z)
    (ls : list line) (idx : string) (goods : list string) (bad : string)
    (rest : list event) :
  csv_init_ok inp = true ->
  fopen_ok inp = true ->
  all_parsed (chunks inp) ->
  concat (map events (chunks inp))
    = file_events header c ls ++ Field idx :: map Field goods ++ Field bad :: rest ->
  Forall (line_ok (errno0 inp)) ls ->
  Forall (converts (errno0 inp)) goods ->
  (length goods <= 2)%nat ->
  ~ converts (errno0 inp) bad ->
  event_count (chunks inp) <= 2 ^ 59 ->
  exists w,
    read_ili_csv inp = Some (EXIT_FAILURE, w) /\
    read_ili_csv_log inp
      = Some (EXIT_FAILURE, w,
              Some (mkDiagnostic (2 + Z.of_nat (length goods)) (Some (c_str bad))
                      (Z.of_nat (length ls) + 2) (cb_err_str (err_status (aux w))))) /\
    err_status (aux w)
      = cv_err (parse_int_error_check bad 0 (errno0 inp) (strlen bad)) /\
    size (data_p (aux w)) = Z.of_nat (length ls) /\
    year (data_p (aux w)) = map (fun l => Some (value (errno0 inp) (l_year l))) ls /\
    week (data_p (aux w)) = map (fun l => Some (value (errno0 inp) (l_week l))) ls /\
    estInc (data_p (aux w)) = map (fun l => Some (value (errno0 inp) (l_estInc l))) ls.
Proof.
  intros Hinit Hopen Hall Hev Hls Hgoods Hlen Hbad Hcount.
  destruct (first_bad_field inp header c ls idx goods bad rest)
    as (w & Hr & He & Hd & Hrest); try done.
  exists w. split; [exact Hr|]. split; [|split; [exact He|exact Hrest]].
  rewrite <- Hd. by apply read_ili_csv_log_failure.
Qed.

Lemma conversion_error_reported_witness :
  exists w,
    read_ili_csv_log
      (mkInput true true
         [mkChunk (header_row ++
                   [Field "0"; Field "2020"; Field "1"; Field "100"; EndOfRecord 10;
                    Field "1"; Field "2020"; Field "1O"; Field "7"]) true;
          mkChunk [EndOfRecord 10; Field "2"; Field "2020"] true]
         false [] 0)
    = Some (EXIT_FAILURE, w,
            Some (mkDiagnostic 3 (Some "1O"%string) 3
                    "could not convert string to int")) /\
    size (data_p (aux w)) = 1 /\
    year (data_p (aux w)) = [Some 2020] /\
    week (data_p (aux w)) = [Some 1] /\
    estInc (data_p (aux w)) = [Some 100].
Proof.
  destruct (conversion_error_reported
              (mkInput true true
                 [mkChunk (header_row ++
                           [Field "0"; Field "2020"; Field "1"; Field "100";
                            EndOfRecord 10;
                            Field "1"; Field "2020"; Field "1O"; Field "7"]) true;
                  mkChunk [EndOfRecord 10; Field "2"; Field "2020"] true]
                 false [] 0)
              ["idx"; "year"; "week"; "est"]%string 10
              [mkLine "0" "2020" "1" "100" [] 10]
              "1" ["2020"%string] "1O"
              [Field "7"; EndOfRecord 10; Field "2"; Field "2020"])
    as (w & _ & Hd & He & Hs & Hy & Hw & Hi); try reflexivity.
  - repeat constructor.
  - repeat constructor.
  - repeat constructor.
  - simpl. lia.
  - by vm_compute.
  - by vm_compute.
  - exists w. split.
    + rewrite Hd, He. reflexivity.
    + by repeat split.
Defined.

(** X10: an ingestion entered with [errno] equal to [ERANGE] rejects every
    file in which [csv_parse] calls, all succeeding, deliver a header and
    the first two fields of a data line.  Whatever the second field of that
    line is, the driver fails and the diagnostic it prints names line 2,
    field 2, with no row stored; the kind is 1 or 2 and never 0. *)
Theorem stale_errno_rejects_file (inp : input) (header : list string) (c : Z)
    (idx y : string) (rest : list event) :
  csv_init_ok inp = true ->
  fopen_ok inp = true ->
  all_parsed (chunks inp) ->
  concat (map events (chunks inp))
    = map Field header ++ [EndOfRecord c] ++ Field idx :: Field y :: rest ->
  errno0 inp = ERANGE ->
  event_count (chunks inp) <= 2 ^ 59 ->
  exists w,
    read_ili_csv inp = Some (EXIT_FAILURE, w) /\
    read_ili_csv_log inp
      = Some (EXIT_FAILURE, w,
              Some (mkDiagnostic 2 (Some (c_str y)) 2
                      (cb_err_str (err_status (aux w))))) /\
    (err_status (aux w) = 1 \/ err_status (aux w) = 2) /\
    size (data_p (aux w)) = 0 /\
    year (data_p (aux w)) = [] /\
    week (data_p (aux w)) = [] /\
    estInc (data_p (aux w)) = [].
Proof.
  intros Hinit Hopen Hall Hev Hen Hcount.
  assert (Hkind : forall s len,
             cv_err (parse_int_error_check s 0 ERANGE len) = 1 \/
             cv_err (parse_int_error_check s 0 ERANGE len) = 2).
  { intros s len. unfold parse_int_error_check.
    destruct (strtol_errno_cases s ERANGE) as [E|E]; rewrite E;
      destruct (negb (size_t (sl_end (strtol s ERANGE)) =? len)); simpl; auto. }
  destruct (first_bad_field inp header c [] idx [] y rest)
    as (w & Hr & He & Hd & Hs & Hy & Hw & Hi); try done.
  - rewrite Hev. unfold file_events. simpl. rewrite <- app_assoc. reflexivity.
  - simpl. lia.
  - unfold converts. rewrite Hen. destruct (Hkind y (strlen y)); lia.
  - exists w. rewrite Hen in He. split; [exact Hr|]. split; [|split].
    + change (2 + Z.of_nat (length (@nil string))) with 2 in Hd.
      change (Z.of_nat (length (@nil line)) + 2) with 2 in Hd.
      rewrite <- Hd. by apply read_ili_csv_log_failure.
    + rewrite He. apply Hkind.
    + by repeat split.
Qed.

Lemma stale_errno_rejects_file_witness :
  exists w,
    read_ili_csv_log
      (mkInput true true
         [mkChunk (header_row ++
                   [Field "0"; Field "2020"; Field "1"; Field "100"; EndOfRecord 10])
                  true]
         false [] ERANGE)
    = Some (EXIT_FAILURE, w,
            Some (mkDiagnostic 2 (Some "2020"%string) 2
                    "value is out of range for int")).
Proof.
  destruct (stale_errno_rejects_file
              (mkInput true true
                 [mkChunk (header_row ++
                           [Field "0"; Field "2020"; Field "1"; Field "100";
                            EndOfRecord 10]) true]
                 false [] ERANGE)
              ["idx"; "year"; "week"; "est"]%string 10 "0" "2020"
              [Field "1"; Field "100"; EndOfRecord 10])
    as (w & Hr & Hd & _); try reflexivity.
  - repeat constructor.
  - by vm_compute.
  - exists w. rewrite Hd.
    assert (He : err_status (aux w) = 2).
    { vm_compute in Hr. injection Hr as <-. reflexivity. }
    rewrite He. reflexivity.
Defined.

(** *** Allocation failures *)

Section AllocationsSucceed.
Variable heap : nat -> bool.
Hypothesis heap_ok : forall k, heap k = true.

Lemma three_ok_true (k : nat) : three_ok heap k = true.
Proof. unfold three_ok. by rewrite !heap_ok. Qed.

Lemma realloc_ili_input_heap_ok (d : ILIinput) (n : Z) (k : nat) :
  realloc_ili_input_heap heap d n k = realloc_ili_input d n.
Proof. unfold realloc_ili_input_heap, realloc_or_null. by rewrite !heap_ok. Qed.

Lemma cb1_heap_ok (s : string) (len : Z) (w : world) (k : nat) :
  fst <$> cb1_heap heap s len w k = cb1 s len w.
Proof.
  unfold cb1_heap, cb1.
  destruct (curr_row (aux w) =? 1); [reflexivity|].
  destruct (negb (err_status (aux w) =? 0)); [reflexivity|].
  destruct (match curr_col (aux w) with
            | 2 => _ | 3 => _ | 4 => _ | _ => _ end) as [w1|]; simpl; [|reflexivity].
  destruct (negb (err_status (aux w1) =? 0)); [|reflexivity].
  by rewrite heap_ok.
Qed.

Lemma cb2_heap_ok (c : Z) (w : world) (k : nat) :
  fst <$> cb2_heap heap c w k = Some (mkWorld (cb2 c (aux w)) (errno w)).
Proof.
  unfold cb2_heap, cb2. destruct w as [a e]. simpl.
  destruct (negb (err_status a =? 0)); [reflexivity|].
  rewrite heap_ok. simpl negb. rewrite andb_false_r.
  destruct ((size_t (curr_col a - 1) <? FILE_NUM_COLS) && (1 <? curr_row a)); simpl;
    destruct (curr_row a =? 1); simpl; try reflexivity;
    rewrite three_ok_true, realloc_ili_input_heap_ok;
    destruct (capacity a <=? size_t (size (data_p a) + 1)); reflexivity.
Qed.

Lemma deliver_heap_ok (ev : event) (w : world) (k : nat) :
  fst <$> deliver_heap heap ev w k = deliver ev w.
Proof. destruct ev; [apply cb1_heap_ok|apply cb2_heap_ok]. Qed.

Lemma run_heap_ok (evs : list event) (w : world) (k : nat) :
  fst <$> run_heap heap evs w k = run evs w.
Proof.
  revert w k. induction evs as [|ev evs IH]; intros w k; [reflexivity|].
  simpl. rewrite <- deliver_heap_ok with (k := k).
  destruct (deliver_heap heap ev w k) as [[w' k']|]; simpl; [apply IH|reflexivity].
Qed.

Lemma read_loop_heap_ok (cs : list chunk) (w : world) (k : nat) :
  (fun r => (r.1.1, r.2)) <$> read_loop_heap heap cs w k = read_loop cs w.
Proof.
  revert w k. induction cs as [|ch cs IH]; intros w k; [reflexivity|].
  simpl. rewrite <- run_heap_ok with (k := k).
  destruct (run_heap heap (events ch) w k) as [[w' k']|]; simpl; [|reflexivity].
  destruct (negb (parse_ok ch)); [reflexivity|].
  destruct (negb (err_status (aux w') =? 0)); [reflexivity|]. apply IH.
Qed.

Lemma shrink_to_fit_heap_ok (w : world) (k : nat) :
  (shrink_to_fit_heap heap w k).1 = shrink_to_fit w.
Proof.
  unfold shrink_to_fit_heap, shrink_to_fit.
  destruct (size (data_p (aux w)) <? capacity (aux w)); [|reflexivity].
  simpl. by rewrite three_ok_true, realloc_ili_input_heap_ok.
Qed.

(** On the runs in which every allocation succeeds, the driver with
    allocation failures is the driver. *)
Lemma read_ili_csv_heap_ok (inp : input) :
  read_ili_csv_heap heap inp = read_ili_csv inp.
Proof.
  unfold read_ili_csv_heap, read_ili_csv, alloc_ili_input_heap, alloc_ili_input,
    malloc_or_null.
  rewrite three_ok_true, !heap_ok. simpl negb. cbv iota. simpl errno_after.
  destruct (negb (csv_init_ok inp)); [reflexivity|].
  destruct (negb (fopen_ok inp)); [reflexivity|].
  rewrite <- read_loop_heap_ok with (k := 3%nat).
  destruct (read_loop_heap heap (chunks inp) _ 3) as [[[w1 k1] st]|]; simpl;
    [|reflexivity].
  pose proof (shrink_to_fit_heap_ok w1 k1) as Hs.
  destruct (shrink_to_fit_heap heap w1 k1) as [w2 k2]. simpl in Hs. subst w2.
  destruct (ferror inp || negb (err_status (aux (shrink_to_fit w1)) =? 0) || st);
    [reflexivity|].
  rewrite <- run_heap_ok with (k := k2).
  by destruct (run_heap heap (fini_events inp) (shrink_to_fit w1) k2) as [[w3 k3]|].
Qed.

End AllocationsSucceed.

(** X11: on the runs in which every [malloc] and [realloc] call succeeds, the
    read loop is memory safe on every event sequence.  For a file of at most
    2^59 events, whatever they are and however they are cut into chunks, no
    callback of the read loop stores outside the arrays; when [csv_fini] has
    nothing to flush the driver returns, and after an opened file each array
    has exactly [size] cells. *)
Theorem read_loop_memory_safe (heap : nat -> bool) (inp : input) :
  (forall k, heap k = true) ->
  event_count (chunks inp) <= 2 ^ 59 ->
  fini_events inp = [] ->
  exists rc w,
    read_ili_csv_heap heap inp = Some (rc, w) /\
    (csv_init_ok inp = true -> fopen_ok inp = true ->
     allocated (size (data_p (aux w))) (data_p (aux w))).
Proof.
  intros Hheap Hcount Hfini. rewrite read_ili_csv_heap_ok by exact Hheap.
  by apply read_ili_csv_fits_without_flush.
Qed.

Lemma read_loop_memory_safe_witness :
  exists rc w,
    read_ili_csv_heap (fun _ => true) short_row_file = Some (rc, w) /\
    allocated (size (data_p (aux w))) (data_p (aux w)).
Proof.
  destruct (read_loop_memory_safe (fun _ => true) short_row_file)
    as (rc & w & Hr & Hal).
  - reflexivity.
  - by vm_compute.
  - reflexivity.
  - exists rc, w. split; [exact Hr|]. by apply Hal.
Defined.

(** X20: a growth whose [realloc] fails goes unnoticed.  When the record
    end of a full data row makes the arrays grow and the first of the three
    [realloc] calls fails, the record callback still counts the row and
    doubles the capacity, sets no error, and leaves [year] with no cell; the
    year field of the next row is then stored through [NULL]. *)
Theorem failed_growth_unnoticed (heap : nat -> bool) (c : Z) (w : world)
    (k : nat) (idx yr : string) :
  err_status (aux w) = 0 ->
  1 < curr_row (aux w) < 2 ^ 64 - 1 ->
  FILE_NUM_COLS <= size_t (curr_col (aux w) - 1) ->
  capacity (aux w) <= size_t (size (data_p (aux w)) + 1) ->
  heap k = false ->
  exists w',
    cb2_heap heap c w k = Some (w', S (S (S k))) /\
    err_status (aux w') = 0 /\
    size (data_p (aux w')) = size_t (size (data_p (aux w)) + 1) /\
    capacity (aux w') = size_t (capacity (aux w) * 2) /\
    year (data_p (aux w')) = [] /\
    run_heap heap [Field idx; Field yr] w' (S (S (S k))) = None.
Proof.
  intros Herr Hrow Hcol Hcap Hk.
  unfold cb2_heap. rewrite Herr. simpl negb. cbv iota.
  destruct (Z.ltb_spec (size_t (curr_col (aux w) - 1)) FILE_NUM_COLS); [lia|].
  simpl andb. cbv iota. simpl.
  destruct (Z.eqb_spec (curr_row (aux w)) 1); [lia|].
  destruct (Z.leb_spec (capacity (aux w)) (size_t (size (data_p (aux w)) + 1)));
    [|lia].
  eexists. split; [reflexivity|]. simpl.
  unfold realloc_or_null. rewrite Hk.
  do 4 (split; [done|]).
  unfold cb1_heap. simpl.
  assert (Hr : size_t (curr_row (aux w) + 1) = curr_row (aux w) + 1).
  { unfold size_t. apply Z.mod_small. lia. }
  rewrite Hr, Herr.
  destruct (Z.eqb_spec (curr_row (aux w) + 1) 1); [lia|]. simpl.
  rewrite Herr. simpl.
  destruct (Z.eqb_spec (curr_row (aux w) + 1) 1); [lia|]. simpl.
  unfold convert_into, realloc_ili_input_heap, realloc_or_null. simpl.
  rewrite Hk. unfold store. simpl.
  change (Z.of_nat 0) with 0.
  destruct (Z.leb_spec 0 (size_t (size (data_p (aux w)) + 1)));
    destruct (Z.ltb_spec (size_t (size (data_p (aux w)) + 1)) 0);
    try reflexivity.
  lia.
Qed.

Lemma failed_growth_unnoticed_witness :
  exists w',
    cb2_heap (fun k => negb (k =? 3)%nat) 10
      (mkWorld (mkAux (set_size (alloc_ili_input reserve_size) 52)
                  reserve_size 54 5 0 None) 0) 3
    = Some (w', 6%nat) /\
    err_status (aux w') = 0 /\
    size (data_p (aux w')) = 53 /\
    capacity (aux w') = 106 /\
    year (data_p (aux w')) = [] /\
    run_heap (fun k => negb (k =? 3)%nat) [Field "53"; Field "2021"] w' 6 = None.
Proof.
  destruct (failed_growth_unnoticed (fun k => negb (k =? 3)%nat) 10
              (mkWorld (mkAux (set_size (alloc_ili_input reserve_size) 52)
                          reserve_size 54 5 0 None) 0) 3 "53" "2021")
    as (w' & Hr & He & Hs & Hc & Hy & Hn).
  - reflexivity.
  - simpl; lia.
  - by vm_compute.
  - by vm_compute.
  - reflexivity.
  - exists w'. by repeat split.
Defined.

(** *** A tokenizer failure *)

Lemma read_loop_stops_at_failure (pre post : list chunk) (evs : list event)
    (w : world) :
  read_loop (pre ++ mkChunk evs false :: post) w
  = read_loop (pre ++ [mkChunk evs false]) w /\
  forall w' st,
    read_loop (pre ++ [mkChunk evs false]) w = Some (w', st) ->
    st = true \/ err_status (aux w') <> 0.
Proof.
  revert w. induction pre as [|ch pre IH]; intros w.
  - simpl. destruct (run evs w) as [w1|]; simpl; [|done].
    split; [reflexivity|]. intros w' st Hr. injection Hr as <- <-. by left.
  - simpl. destruct (run (events ch) w) as [w1|]; simpl; [|done].
    destruct (negb (parse_ok ch)).
    { split; [reflexivity|]. intros w' st Hr. injection Hr as <- <-. by left. }
    destruct (Z.eqb_spec (err_status (aux w1)) 0) as [E|E]; simpl.
    + apply IH.
    + split; [reflexivity|]. intros w' st Hr. injection Hr as <- <-. by right.
Qed.

(** X18: a [csv_parse] call that fails ends the ingestion.  The chunks
    after the failing one are never read (the result is the same without
    them) and the driver never returns success, even when no field or
    record was rejected. *)
Theorem tokenizer_failure_stops (inp : input) (pre post : list chunk)
    (evs : list event) :
  chunks inp = pre ++ mkChunk evs false :: post ->
  read_ili_csv inp
  = read_ili_csv (mkInput (csv_init_ok inp) (fopen_ok inp)
                    (pre ++ [mkChunk evs false]) (ferror inp) (fini_events inp)
                    (errno0 inp)) /\
  forall rc w, read_ili_csv inp = Some (rc, w) -> rc = EXIT_FAILURE.
Proof.
  intros Hch. unfold read_ili_csv. simpl. rewrite Hch.
  set (w0 := mkWorld _ (errno0 inp)).
  destruct (read_loop_stops_at_failure pre post evs w0) as [Heq Hst].
  rewrite Heq. split; [reflexivity|].
  intros rc w Hr.
  destruct (csv_init_ok inp); simpl in Hr; [|by injection Hr as <- _].
  destruct (fopen_ok inp); simpl in Hr; [|by injection Hr as <- _].
  destruct (read_loop (pre ++ [mkChunk evs false]) w0) as [[w1 st]|] eqn:Hl;
    simpl in Hr; [|discriminate].
  destruct (Hst _ _ eq_refl) as [->|He].
  - rewrite !orb_true_r in Hr. by injection Hr as <- _.
  - assert (He' : err_status (aux (shrink_to_fit w1)) <> 0).
    { unfold shrink_to_fit.
      destruct (size (data_p (aux w1)) <? capacity (aux w1)); exact He. }
    destruct (Z.eqb_spec (err_status (aux (shrink_to_fit w1))) 0); [contradiction|].
    simpl in Hr. rewrite orb_true_r in Hr. simpl in Hr. by injection Hr as <- _.
Qed.

Lemma tokenizer_failure_stops_witness :
  read_ili_csv
    (mkInput true true
       [mkChunk header_row true;
        mkChunk [Field "0"; Field "2020"] false;
        mkChunk [Field "1"; Field "100"; EndOfRecord 10] true]
       false [] 0)
  = read_ili_csv
      (mkInput true true
         [mkChunk header_row true; mkChunk [Field "0"; Field "2020"] false]
         false [] 0).
Proof.
  exact (proj1 (tokenizer_failure_stops
                  (mkInput true true
                     [mkChunk header_row true;
                      mkChunk [Field "0"; Field "2020"] false;
                      mkChunk [Field "1"; Field "100"; EndOfRecord 10] true]
                     false [] 0)
                  [mkChunk header_row true]
                  [mkChunk [Field "1"; Field "100"; EndOfRecord 10] true]
                  [Field "0"; Field "2020"] eq_refl)).
Defined.
End IliFile.

(** ** The single-column pipeline, callback by callback *)

Module ColumnFile.
Import Column ColumnTheory.

Section Generic.
Context `{Strtod}.

Lemma to_int_small (z : Z) : INT_MIN <= z <= INT_MAX -> to_int z = z.
Proof.
  unfold to_int, INT_MIN, INT_MAX. intros Hz.
  rewrite Z.mod_small by lia. lia.
Qed.

Lemma contacts_switch_default {A} (col : Z) (x y : A) :
  col <> 2 ->
  match col with
  | 0 | 1 => x | 2 => y | _ => x
  end = x.
Proof.
  intros H2. destruct col as [|p|p]; try reflexivity.
  do 2 (try destruct p as [p|p|]); try reflexivity; lia.
Qed.

Lemma contacts_deliver_sticky (ev : event) (w : world) :
  err_status (aux w) <> 0 -> deliver ev w = Some w.
Proof.
  intros He. destruct ev as [s|c]; simpl.
  - by apply contacts_cb1_sticky.
  - rewrite contacts_cb2_sticky by done. by destruct w.
Qed.

Lemma contacts_run_after_error (evs : list event) (w : world) :
  err_status (aux w) <> 0 -> run evs w = Some w.
Proof.
  intros He. induction evs as [|ev evs IH]; [reflexivity|].
  simpl. rewrite contacts_deliver_sticky by done. exact IH.
Qed.

(** X12: the error of the single-column reader is sticky.  Once
    [err_status] is nonzero no field or record event changes the vector,
    the size, the cursors or [errno], and the read loop stops after the
    chunk in which the error arose. *)
Theorem contacts_sticky_error (evs : list event) (cs : list chunk) (ok : bool)
    (w : world) :
  err_status (aux w) <> 0 ->
  run evs w = Some w /\
  read_loop (mkChunk evs ok :: cs) w = Some (w, negb ok).
Proof.
  intros He. split; [by apply contacts_run_after_error|].
  simpl. rewrite contacts_run_after_error by done. simpl.
  destruct ok; simpl; [|reflexivity].
  destruct (Z.eqb_spec (err_status (aux w)) 0); [contradiction|reflexivity].
Qed.

(** The record callback on a record after the header, no error pending. *)
Lemma contacts_cb2_data_row (c : Z) (a : ColumnInputAux) :
  err_status a = 0 ->
  curr_row a <> 1 ->
  0 <= size_p a -> size_p a + 1 <= INT_MAX ->
  size_p (contacts_cb2 c a) = size_p a + 1 /\
  curr_col (contacts_cb2 c a) = 1 /\
  curr_row (contacts_cb2 c a) = size_t (curr_row a + 1) /\
  (capacity a <= size_p a + 1 ->
   capacity (contacts_cb2 c a) = size_t (capacity a * 2) /\
   vec_p (contacts_cb2 c a)
   = realloc_cells (vec_p a) (size_t (size_t (capacity a * 2) * sizeof_double))
       sizeof_double) /\
  (size_p a + 1 < capacity a ->
   capacity (contacts_cb2 c a) = capacity a /\
   vec_p (contacts_cb2 c a) = vec_p a).
Proof.
  intros Herr Hrow H0 Hmax. unfold contacts_cb2. rewrite Herr. simpl negb. cbv iota.
  assert (Hi : to_int (size_p a + 1) = size_p a + 1).
  { apply to_int_small. unfold INT_MIN, INT_MAX in *. lia. }
  assert (Hs : size_t (size_p a + 1) = size_p a + 1).
  { apply IliTheory.size_t_small. unfold INT_MAX in *. lia. }
  destruct ((size_t (curr_col a - 1) <? 2) && (1 <? curr_row a));
    cbn; destruct (Z.eqb_spec (curr_row a) 1); try contradiction;
    rewrite Hi, Hs; destruct (Z.leb_spec (capacity a) (size_p a + 1)); cbn;
    repeat split; intros; try lia; done.
Qed.

(** X13: the vector grows exactly when the number of values reaches the
    capacity; the new capacity is then twice the old one, the vector has
    that many cells and every cell that existed keeps its content; without
    growth only the size moves. *)
Theorem contacts_growth_doubles (c : Z) (a : ColumnInputAux) :
  err_status a = 0 ->
  curr_row a <> 1 ->
  contacts_consistent a ->
  size_p (contacts_cb2 c a) = size_p a + 1 /\
  (capacity (contacts_cb2 c a) <> capacity a <-> size_p (contacts_cb2 c a) = capacity a) /\
  (size_p (contacts_cb2 c a) = capacity a ->
   capacity (contacts_cb2 c a) = 2 * capacity a /\
   Z.of_nat (length (vec_p (contacts_cb2 c a))) = 2 * capacity a /\
   forall i : nat,
     Z.of_nat i < capacity a ->
     vec_p (contacts_cb2 c a) !! i = vec_p a !! i) /\
  (size_p (contacts_cb2 c a) < capacity a ->
   capacity (contacts_cb2 c a) = capacity a /\
   vec_p (contacts_cb2 c a) = vec_p a).
Proof.
  intros Herr Hrow (Hlen & Hsz & Hcap). unfold INT_MAX in Hcap.
  destruct (contacts_cb2_data_row c a Herr Hrow) as (Hs & _ & _ & Hgrow & Hstay);
    [lia|unfold INT_MAX; lia|].
  rewrite (IliTheory.size_t_small (capacity a * 2)) in Hgrow by lia.
  rewrite Hs. split; [done|].
  destruct (Z.le_gt_cases (capacity a) (size_p a + 1)) as [Hc|Hc].
  - destruct (Hgrow Hc) as [Hcap' Hv]. rewrite Hcap', Hv.
    split; [split; lia|]. split; [|lia].
    intros _. split; [lia|]. split.
    + replace (2 * capacity a) with (capacity a * 2) by lia.
      apply IliTheory.realloc_cells_length; unfold sizeof_double; lia.
    + intros i Hi.
      apply IliTheory.realloc_cells_lookup; unfold sizeof_double; lia.
  - destruct (Hstay Hc) as [Hcap' Hv]. rewrite Hcap', Hv.
    split; [split; [congruence|lia]|]. split; [lia|]. done.
Qed.

(** X14: a data line with fewer than two fields is flagged and still
    counted.  The record callback sets [err_status] to 4 with an empty
    offending text, puts the cursors on column 1 of the next line, and
    increments the number of values although none was stored for the
    line; the message for the status is the one of a short previous
    line. *)
Theorem contacts_short_row (c : Z) (a : ColumnInputAux) :
  err_status a = 0 ->
  1 < curr_row a < 2 ^ 64 - 1 ->
  size_t (curr_col a - 1) < 2 ->
  0 <= size_p a -> size_p a + 1 <= INT_MAX ->
  err_status (contacts_cb2 c a) = 4 /\
  err_field (contacts_cb2 c a) = Some EmptyString /\
  curr_col (contacts_cb2 c a) = 1 /\
  curr_row (contacts_cb2 c a) = curr_row a + 1 /\
  size_p (contacts_cb2 c a) = size_p a + 1 /\
  cb_err_str_double (err_status (contacts_cb2 c a))
    = "previous line has not enough fields"%string.
Proof.
  intros Herr Hrow Hcol H0 Hmax.
  destruct (contacts_cb2_data_row c a Herr ltac:(lia) H0 Hmax)
    as (Hs & Hc & Hr & _ & _).
  rewrite IliTheory.size_t_small in Hr by lia.
  assert (He : err_status (contacts_cb2 c a) = 4 /\
               err_field (contacts_cb2 c a) = Some EmptyString).
  { unfold contacts_cb2. rewrite Herr. simpl negb. cbv iota.
    destruct (Z.ltb_spec (size_t (curr_col a - 1)) 2); [|lia].
    destruct (Z.ltb_spec 1 (curr_row a)); [|lia].
    simpl andb. cbv iota. cbn.
    destruct (Z.eqb_spec (curr_row a) 1); [lia|].
    case_match; done. }
  destruct He as [He Hf]. rewrite He. repeat split; done.
Qed.

Lemma contacts_cb1_beyond_schema (s : string) (len : Z) (w : world) :
  curr_row (aux w) <> 1 ->
  err_status (aux w) = 0 ->
  2 < curr_col (aux w) ->
  contacts_cb1 s len w =
  Some (mkWorld (set_curr_col (aux w) (size_t (curr_col (aux w) + 1))) (errno w)).
Proof.
  intros Hrow Herr Hcol. unfold contacts_cb1.
  destruct (Z.eqb_spec (curr_row (aux w)) 1); [contradiction|].
  rewrite Herr. simpl negb. cbv iota.
  rewrite contacts_switch_default by lia. simpl. rewrite Herr. reflexivity.
Qed.

Lemma contacts_run_beyond_schema (extras : list string) (w : world) :
  curr_row (aux w) <> 1 ->
  err_status (aux w) = 0 ->
  2 < curr_col (aux w) ->
  curr_col (aux w) + Z.of_nat (length extras) < 2 ^ 64 ->
  run (map Field extras) w =
  Some (mkWorld (set_curr_col (aux w)
                   (curr_col (aux w) + Z.of_nat (length extras)))
                (errno w)).
Proof.
  revert w. induction extras as [|s extras IH]; intros w Hrow Herr Hcol Hfit.
  - destruct w as [[sz v cap row col e f] en]. simpl. by rewrite Z.add_0_r.
  - simpl map. simpl run. rewrite contacts_cb1_beyond_schema by done. simpl.
    simpl length in Hfit.
    rewrite (IliTheory.size_t_small (curr_col (aux w) + 1)) by lia.
    rewrite IH; simpl; try done; try lia.
    do 2 f_equal. unfold set_curr_col. simpl. f_equal. lia.
Qed.

Lemma contacts_cb2_cursor_irrelevant (c k : Z) (a : ColumnInputAux) :
  err_status a = 0 ->
  (size_t (k - 1) <? 2) = (size_t (curr_col a - 1) <? 2) ->
  contacts_cb2 c (set_curr_col a k) = contacts_cb2 c a.
Proof.
  intros He Hk. destruct a as [sz v cap row col e f]. unfold contacts_cb2. simpl in *.
  subst e. simpl negb. cbv iota. rewrite Hk.
  destruct ((size_t (col - 1) <? 2) && (1 <? row)); cbn;
    destruct (row =? 1); try reflexivity;
    destruct (cap <=? size_t (to_int (sz + 1))); reflexivity.
Qed.

(** X15: fields beyond the value column are ignored.  Once the value
    column has been passed on a data line with no error, any further
    fields only move the column cursor, and the record that follows is
    accepted exactly as if they had not been there, with no error. *)
Theorem contacts_extra_columns_ignored (extras : list string) (c : Z) (w : world) :
  curr_row (aux w) <> 1 ->
  err_status (aux w) = 0 ->
  2 < curr_col (aux w) ->
  curr_col (aux w) + Z.of_nat (length extras) < 2 ^ 64 ->
  run (map Field extras) w =
    Some (mkWorld (set_curr_col (aux w)
                     (curr_col (aux w) + Z.of_nat (length extras)))
                  (errno w)) /\
  run (map Field extras ++ [EndOfRecord c]) w = run [EndOfRecord c] w /\
  exists w',
    run (map Field extras ++ [EndOfRecord c]) w = Some w' /\
    err_status (aux w') = 0.
Proof.
  intros Hrow Herr Hcol Hfit.
  pose proof (contacts_run_beyond_schema extras w Hrow Herr Hcol Hfit) as Hrun.
  assert (Heq : run (map Field extras ++ [EndOfRecord c]) w = run [EndOfRecord c] w).
  { rewrite contacts_run_app, Hrun. simpl.
    rewrite contacts_cb2_cursor_irrelevant; [done|done|].
    rewrite !IliTheory.size_t_small by lia.
    destruct (Z.ltb_spec (curr_col (aux w) + Z.of_nat (length extras) - 1) 2);
      destruct (Z.ltb_spec (curr_col (aux w) - 1) 2); try reflexivity; lia. }
  split; [exact Hrun|]. split; [exact Heq|].
  rewrite Heq. simpl. eexists. split; [reflexivity|]. simpl.
  unfold contacts_cb2. rewrite Herr. simpl negb. cbv iota.
  rewrite (IliTheory.size_t_small (curr_col (aux w) - 1)) by lia.
  destruct (Z.ltb_spec (curr_col (aux w) - 1) 2); [lia|].
  simpl andb. cbv iota. cbn.
  destruct (Z.eqb_spec (curr_row (aux w)) 1); [contradiction|].
  case_match; done.
Qed.

(** *** The read loop never leaves the vector *)

Lemma contacts_keeps_rows_refl (w : world) : contacts_keeps_rows w w.
Proof. unfold contacts_keeps_rows. repeat split; done. Qed.

Lemma contacts_keeps_rows_trans (w1 w2 w3 : world) :
  contacts_keeps_rows w1 w2 -> contacts_keeps_rows w2 w3 ->
  contacts_keeps_rows w1 w3.
Proof.
  intros (Hs & Hc & Hr & Hl & Hv) (Hs' & Hc' & Hr' & Hl' & Hv').
  unfold contacts_keeps_rows. repeat split; try congruence.
  intros i Hi. rewrite Hv' by lia. by apply Hv.
Qed.

Lemma contacts_cb1_effect (s : string) (len : Z) (w w' : world) :
  contacts_cb1 s len w = Some w' -> contacts_keeps_rows w w'.
Proof.
  intros Hrun. unfold contacts_cb1 in Hrun.
  destruct (curr_row (aux w) =? 1);
    [injection Hrun as <-; apply contacts_keeps_rows_refl|].
  destruct (Z.eqb_spec (err_status (aux w)) 0) as [Herr|Herr]; simpl negb in Hrun;
    cbv iota in Hrun;
    [|injection Hrun as <-; apply contacts_keeps_rows_refl].
  destruct (Z.eq_dec (curr_col (aux w)) 2) as [E|N2].
  - rewrite E in Hrun. cbv iota in Hrun.
    match type of Hrun with
    | context [store ?a ?i ?v] =>
        destruct (store a i v) as [arr|] eqn:Hst; simpl in Hrun; [|discriminate];
        destruct (IliFile.store_effect _ _ _ _ Hst) as (Hi & Hlen & _ & Hne)
    end.
    case_match; injection Hrun as <-; unfold contacts_keeps_rows; simpl;
      repeat split; try done; intros; apply Hne; lia.
  - rewrite contacts_switch_default in Hrun by done. simpl in Hrun.
    rewrite Herr in Hrun. simpl in Hrun. injection Hrun as <-.
    unfold contacts_keeps_rows. simpl. repeat split; done.
Qed.

Lemma contacts_cb1_total (s : string) (len : Z) (w : world) :
  0 <= size_p (aux w) < Z.of_nat (length (vec_p (aux w))) ->
  exists w', contacts_cb1 s len w = Some w'.
Proof.
  intros Hb. unfold contacts_cb1.
  destruct (curr_row (aux w) =? 1); [by eexists|].
  destruct (negb (err_status (aux w) =? 0)); [by eexists|].
  destruct (Z.eq_dec (curr_col (aux w)) 2) as [E|N2].
  - rewrite E. cbv iota. rewrite IliTheory.store_in_bounds by lia. simpl.
    case_match; by eexists.
  - rewrite contacts_switch_default by done. simpl. case_match; by eexists.
Qed.

Lemma contacts_cb2_header (c : Z) (a : ColumnInputAux) :
  curr_row a = 1 ->
  size_p (contacts_cb2 c a) = size_p a /\
  vec_p (contacts_cb2 c a) = vec_p a /\
  capacity (contacts_cb2 c a) = capacity a.
Proof.
  intros Hrow. destruct a as [sz v cap row col e f]. simpl in Hrow. subst row.
  unfold contacts_cb2. cbn.
  destruct (negb (e =? 0)); [done|].
  rewrite andb_false_r. done.
Qed.

Lemma contacts_inv_weaken (n m : Z) (a : ColumnInputAux) :
  contacts_inv n a -> 0 <= m <= n -> contacts_inv m a.
Proof. unfold contacts_inv. intros (Hl & Hs & Hc & Hn & Hb) Hm. repeat split; lia. Qed.

Lemma contacts_cb2_inv (c n : Z) (a : ColumnInputAux) :
  contacts_inv (n + 1) a -> 0 <= n -> contacts_inv n (contacts_cb2 c a).
Proof.
  intros Hinv Hn.
  destruct (Z.eq_dec (err_status a) 0) as [Herr|Herr];
    [|rewrite contacts_cb2_sticky by done; eapply contacts_inv_weaken; [exact Hinv|lia]].
  destruct (Z.eq_dec (curr_row a) 1) as [Hrow|Hrow].
  { destruct (contacts_cb2_header c a Hrow) as (Hs & Hv & Hc).
    unfold contacts_inv. rewrite Hs, Hv, Hc.
    apply (contacts_inv_weaken (n + 1)); [exact Hinv|lia]. }
  destruct Hinv as (Hl & Hs & Hcap & _ & Hb). unfold reserve_size in *.
  destruct (contacts_cb2_data_row c a Herr Hrow) as (Hs' & _ & _ & Hgrow & Hstay);
    [lia|unfold INT_MAX; lia|].
  rewrite (IliTheory.size_t_small (capacity a * 2)) in Hgrow by lia.
  unfold contacts_inv. rewrite Hs'.
  destruct (Z.le_gt_cases (capacity a) (size_p a + 1)) as [Hc|Hc].
  - destruct (Hgrow Hc) as [Hcap' Hv]. rewrite Hcap', Hv.
    rewrite IliTheory.realloc_cells_length by (unfold sizeof_double; lia).
    unfold reserve_size. repeat split; lia.
  - destruct (Hstay Hc) as [Hcap' Hv]. rewrite Hcap', Hv.
    unfold reserve_size. repeat split; lia.
Qed.

Lemma contacts_deliver_inv (ev : event) (n : Z) (w : world) :
  contacts_inv (n + 1) (aux w) -> 0 <= n ->
  exists w', deliver ev w = Some w' /\ contacts_inv n (aux w').
Proof.
  intros Hinv Hn. destruct ev as [s|c]; simpl.
  - destruct (contacts_cb1_total s (strlen s) w) as (w' & Hrun);
      [destruct Hinv as (Hl & Hs & _); lia|].
    exists w'. split; [exact Hrun|].
    destruct (contacts_cb1_effect _ _ _ _ Hrun) as (Hs & Hc & _ & Hl & _).
    destruct Hinv as (Hl' & Hinv). unfold contacts_inv.
    rewrite Hs, Hc, Hl. repeat split; lia.
  - eexists. split; [reflexivity|]. by apply contacts_cb2_inv.
Qed.

Lemma contacts_run_inv (evs : list event) (n : Z) (w : world) :
  contacts_inv (n + Z.of_nat (length evs)) (aux w) -> 0 <= n ->
  exists w', run evs w = Some w' /\ contacts_inv n (aux w').
Proof.
  revert w. induction evs as [|ev evs IH]; intros w Hinv Hn.
  - exists w. split; [reflexivity|]. simpl in Hinv. by rewrite Z.add_0_r in Hinv.
  - simpl length in Hinv.
    destruct (contacts_deliver_inv ev (n + Z.of_nat (length evs)) w)
      as (w1 & Hd & Hinv1);
      [eapply contacts_inv_weaken; [exact Hinv|lia]|lia|].
    destruct (IH w1 Hinv1 Hn) as (w' & Hrun & Hinv').
    exists w'. split; [|exact Hinv']. simpl. rewrite Hd. exact Hrun.
Qed.

Lemma contacts_read_loop_all (cs : list chunk) (w : world) :
  contacts_all_parsed cs ->
  read_loop cs w = w' ← run (concat (map events cs)) w; Some (w', false).
Proof.
  intros Hall. revert w. induction Hall as [|ch cs Hok _ IH]; intros w; [reflexivity|].
  simpl. rewrite contacts_run_app.
  destruct (run (events ch) w) as [w1|]; simpl; [|reflexivity].
  rewrite Hok. simpl.
  destruct (Z.eqb_spec (err_status (aux w1)) 0) as [E|E]; simpl.
  - apply IH.
  - rewrite contacts_run_after_error by done. reflexivity.
Qed.

Lemma contacts_read_loop_inv (cs : list chunk) (n : Z) (w : world) :
  contacts_inv (n + event_count cs) (aux w) -> 0 <= n ->
  exists w' st, read_loop cs w = Some (w', st) /\ contacts_inv n (aux w').
Proof.
  revert w. induction cs as [|ch cs IH]; intros w Hinv Hn.
  - exists w, false. split; [reflexivity|].
    unfold event_count in Hinv. simpl in Hinv. by rewrite Z.add_0_r in Hinv.
  - assert (Hcount : event_count (ch :: cs)
                     = event_count cs + Z.of_nat (length (events ch))).
    { unfold event_count. simpl. rewrite length_app. lia. }
    rewrite Hcount in Hinv.
    assert (Hpos : 0 <= event_count cs) by (unfold event_count; lia).
    destruct (contacts_run_inv (events ch) (n + event_count cs) w)
      as (w1 & Hrun & Hinv1); [by rewrite <- Z.add_assoc|lia|].
    simpl. rewrite Hrun. simpl.
    destruct (negb (parse_ok ch)).
    { exists w1, true. split; [reflexivity|].
      eapply contacts_inv_weaken; [exact Hinv1|lia]. }
    destruct (negb (err_status (aux w1) =? 0)).
    { exists w1, false. split; [reflexivity|].
      eapply contacts_inv_weaken; [exact Hinv1|lia]. }
    by apply IH.
Qed.

Lemma contacts_initial_inv (n errno : Z) :
  0 <= n <= 2 ^ 29 ->
  contacts_inv n
    (aux (mkWorld
            (mkAux 0 (malloc_cells (size_t (reserve_size * sizeof_double)) sizeof_double)
                   reserve_size 1 1 0 None) errno)).
Proof.
  intros Hn. unfold contacts_inv. simpl. split; [by vm_compute|].
  unfold reserve_size. lia.
Qed.

Lemma contacts_shrink_exact (w : world) :
  contacts_inv 0 (aux w) ->
  size_p (aux (shrink_to_fit w)) = size_p (aux w) /\
  err_status (aux (shrink_to_fit w)) = err_status (aux w) /\
  Z.of_nat (length (vec_p (aux (shrink_to_fit w)))) = size_p (aux w) /\
  forall i : nat,
    Z.of_nat i < size_p (aux w) ->
    vec_p (aux (shrink_to_fit w)) !! i = vec_p (aux w) !! i.
Proof.
  intros (Hl & Hs & Hc & _ & Hb). unfold shrink_to_fit.
  rewrite (IliTheory.size_t_small (size_p (aux w))) by lia.
  destruct (Z.ltb_spec (size_p (aux w)) (capacity (aux w))); [|lia].
  simpl. repeat split.
  - apply IliTheory.realloc_cells_length; unfold sizeof_double; lia.
  - intros i Hi. apply IliTheory.realloc_cells_lookup; unfold sizeof_double; lia.
Qed.

Lemma read_csv_double_vector_fits_without_flush (inp : input) (vec0 : list (cell double))
    (vsize0 : Z) :
  event_count (chunks inp) <= 2 ^ 29 ->
  fini_events inp = [] ->
  exists o,
    read_csv_double_vector inp vec0 vsize0 = Some o /\
    (csv_init_ok inp = true -> fopen_ok inp = true ->
     Z.of_nat (length (vec o)) = vsize o).
Proof.
  intros Hcount Hfini. unfold read_csv_double_vector.
  destruct (csv_init_ok inp); simpl; [|by eexists].
  destruct (fopen_ok inp); simpl; [|by eexists].
  assert (Hpos : 0 <= event_count (chunks inp)) by (unfold event_count; lia).
  destruct (contacts_read_loop_inv (chunks inp) 0
              (mkWorld
                 (mkAux 0 (malloc_cells (size_t (reserve_size * sizeof_double))
                             sizeof_double) reserve_size 1 1 0 None)
                 (errno0 inp)))
    as (w1 & st & Hloop & Hinv); [apply contacts_initial_inv; lia|lia|].
  rewrite Hloop. simpl.
  destruct (contacts_shrink_exact w1 Hinv) as (Hs & _ & Hl & _).
  destruct (ferror inp || negb (err_status (aux (shrink_to_fit w1)) =? 0) || st).
  - eexists. split; [reflexivity|]. simpl. intros _ _. congruence.
  - rewrite Hfini. simpl. eexists. split; [reflexivity|]. simpl. intros _ _. congruence.
Qed.

(** *** Allocation failures *)

Section AllocationsSucceed.
Variable heap : nat -> bool.
Hypothesis heap_ok : forall k, heap k = true.

Lemma contacts_cb1_heap_ok (s : string) (len : Z) (w : world) (k : nat) :
  fst <$> contacts_cb1_heap heap s len w k = contacts_cb1 s len w.
Proof.
  unfold contacts_cb1_heap, contacts_cb1.
  destruct (curr_row (aux w) =? 1); [reflexivity|].
  destruct (negb (err_status (aux w) =? 0)); [reflexivity|].
  destruct (match curr_col (aux w) with
            | 2 => _ | _ => _ end) as [w1|]; simpl; [|reflexivity].
  destruct (negb (err_status (aux w1) =? 0)); [|reflexivity].
  by rewrite heap_ok.
Qed.

Lemma contacts_cb2_heap_ok (c : Z) (w : world) (k : nat) :
  fst <$> contacts_cb2_heap heap c w k
  = Some (mkWorld (contacts_cb2 c (aux w)) (errno w)).
Proof.
  unfold contacts_cb2_heap, contacts_cb2, realloc_or_null. destruct w as [a e]. simpl.
  destruct (negb (err_status a =? 0)); [reflexivity|].
  rewrite !heap_ok. simpl negb. rewrite andb_false_r.
  destruct ((size_t (curr_col a - 1) <? 2) && (1 <? curr_row a)); simpl;
    destruct (curr_row a =? 1); simpl; try reflexivity;
    rewrite ?heap_ok;
    destruct (capacity a <=? size_t (to_int (size_p a + 1))); reflexivity.
Qed.

Lemma contacts_deliver_heap_ok (ev : event) (w : world) (k : nat) :
  fst <$> deliver_heap heap ev w k = deliver ev w.
Proof. destruct ev; [apply contacts_cb1_heap_ok|apply contacts_cb2_heap_ok]. Qed.

Lemma contacts_run_heap_ok (evs : list event) (w : world) (k : nat) :
  fst <$> run_heap heap evs w k = run evs w.
Proof.
  revert w k. induction evs as [|ev evs IH]; intros w k; [reflexivity|].
  simpl. rewrite <- contacts_deliver_heap_ok with (k := k).
  destruct (deliver_heap heap ev w k) as [[w' k']|]; simpl; [apply IH|reflexivity].
Qed.

Lemma contacts_read_loop_heap_ok (cs : list chunk) (w : world) (k : nat) :
  (fun r => (r.1.1, r.2)) <$> read_loop_heap heap cs w k = read_loop cs w.
Proof.
  revert w k. induction cs as [|ch cs IH]; intros w k; [reflexivity|].
  simpl. rewrite <- contacts_run_heap_ok with (k := k).
  destruct (run_heap heap (events ch) w k) as [[w' k']|]; simpl; [|reflexivity].
  destruct (negb (parse_ok ch)); [reflexivity|].
  destruct (negb (err_status (aux w') =? 0)); [reflexivity|]. apply IH.
Qed.

Lemma contacts_shrink_to_fit_heap_ok (w : world) (k : nat) :
  (shrink_to_fit_heap heap w k).1 = shrink_to_fit w.
Proof.
  unfold shrink_to_fit_heap, shrink_to_fit, realloc_or_null.
  destruct (size_t (size_p (aux w)) <? capacity (aux w)); [|reflexivity].
  simpl. by rewrite heap_ok.
Qed.

(** On the runs in which every allocation succeeds, the reader with
    allocation failures is the reader. *)
Lemma read_csv_double_vector_heap_ok (inp : input) (vec0 : list (cell double))
    (vsize0 : Z) :
  read_csv_double_vector_heap heap inp vec0 vsize0
  = read_csv_double_vector inp vec0 vsize0.
Proof.
  unfold read_csv_double_vector_heap, read_csv_double_vector, malloc_or_null.
  destruct (negb (csv_init_ok inp)); [reflexivity|].
  rewrite !heap_ok. simpl negb. cbv iota.
  destruct (negb (fopen_ok inp)); [reflexivity|].
  rewrite <- contacts_read_loop_heap_ok with (k := 1%nat).
  destruct (read_loop_heap heap (chunks inp) _ 1) as [[[w1 k1] st]|]; simpl;
    [|reflexivity].
  pose proof (contacts_shrink_to_fit_heap_ok w1 k1) as Hs.
  destruct (shrink_to_fit_heap heap w1 k1) as [w2 k2]. simpl in Hs. subst w2.
  destruct (ferror inp || negb (err_status (aux (shrink_to_fit w1)) =? 0) || st);
    [reflexivity|].
  rewrite <- contacts_run_heap_ok with (k := k2).
  by destruct (run_heap heap (fini_events inp) (shrink_to_fit w1) k2) as [[w3 k3]|].
Qed.

End AllocationsSucceed.

(** X16: on the runs in which every [malloc] and [realloc] call succeeds,
    the read loop of the single-column reader is memory safe on every event
    sequence.  For a file of at most 2^29 events, whatever they are, no
    callback stores outside the vector; when [csv_fini] has nothing to
    flush the reader returns, and after an opened file the vector has
    exactly [*vsize_p] cells. *)
Theorem contacts_read_loop_memory_safe (heap : nat -> bool) (inp : input)
    (vec0 : list (cell double)) (vsize0 : Z) :
  (forall k, heap k = true) ->
  event_count (chunks inp) <= 2 ^ 29 ->
  fini_events inp = [] ->
  exists o,
    read_csv_double_vector_heap heap inp vec0 vsize0 = Some o /\
    (csv_init_ok inp = true -> fopen_ok inp = true ->
     Z.of_nat (length (vec o)) = vsize o).
Proof.
  intros Hheap Hcount Hfini. rewrite read_csv_double_vector_heap_ok by exact Hheap.
  by apply read_csv_double_vector_fits_without_flush.
Qed.

(** X21: in the single-column reader too a growth whose [realloc] fails
    goes unnoticed.  When the record end of a full data row makes the
    vector grow and the [realloc] call fails, the record callback still
    counts the row and doubles the capacity, sets no error, and leaves the
    vector with no cell; the value of the next row is then stored through
    [NULL]. *)
Theorem contacts_failed_growth_unnoticed (heap : nat -> bool) (c : Z) (w : world)
    (k : nat) (idx v : string) :
  err_status (aux w) = 0 ->
  1 < curr_row (aux w) < 2 ^ 64 - 1 ->
  2 <= size_t (curr_col (aux w) - 1) ->
  capacity (aux w) <= size_t (to_int (size_p (aux w) + 1)) ->
  heap k = false ->
  exists w',
    contacts_cb2_heap heap c w k = Some (w', S k) /\
    err_status (aux w') = 0 /\
    size_p (aux w') = to_int (size_p (aux w) + 1) /\
    capacity (aux w') = size_t (capacity (aux w) * 2) /\
    vec_p (aux w') = [] /\
    run_heap heap [Field idx; Field v] w' (S k) = None.
Proof.
  intros Herr Hrow Hcol Hcap Hk.
  unfold contacts_cb2_heap. rewrite Herr. simpl negb. cbv iota.
  destruct (Z.ltb_spec (size_t (curr_col (aux w) - 1)) 2); [lia|].
  simpl andb. cbv iota. simpl.
  destruct (Z.eqb_spec (curr_row (aux w)) 1); [lia|].
  destruct (Z.leb_spec (capacity (aux w)) (size_t (to_int (size_p (aux w) + 1))));
    [|lia].
  eexists. split; [reflexivity|]. simpl.
  unfold realloc_or_null. rewrite Hk.
  do 4 (split; [done|]).
  unfold contacts_cb1_heap. simpl.
  assert (Hr : size_t (curr_row (aux w) + 1) = curr_row (aux w) + 1).
  { unfold size_t. apply Z.mod_small. lia. }
  rewrite Hr, Herr.
  destruct (Z.eqb_spec (curr_row (aux w) + 1) 1); [lia|]. simpl.
  rewrite Herr. simpl.
  destruct (Z.eqb_spec (curr_row (aux w) + 1) 1); [lia|]. simpl.
  unfold store. simpl. change (Z.of_nat 0) with 0.
  destruct (Z.leb_spec 0 (to_int (size_p (aux w) + 1)));
    destruct (Z.ltb_spec (to_int (size_p (aux w) + 1)) 0);
    try reflexivity.
  lia.
Qed.

(** *** Whole files *)

Lemma contacts_run_cons_inv (ev : event) (evs : list event) (w w' : world) :
  run (ev :: evs) w = Some w' ->
  exists w1, deliver ev w = Some w1 /\ run evs w1 = Some w'.
Proof.
  simpl. destruct (deliver ev w) as [w1|]; simpl; [|discriminate].
  intros Hr. by exists w1.
Qed.

Lemma contacts_cb1_first_column (s : string) (len : Z) (w : world) :
  curr_row (aux w) <> 1 ->
  err_status (aux w) = 0 ->
  curr_col (aux w) = 1 ->
  contacts_cb1 s len w = Some (mkWorld (set_curr_col (aux w) 2) (errno w)).
Proof.
  intros Hrow Herr Hcol. unfold contacts_cb1.
  destruct (Z.eqb_spec (curr_row (aux w)) 1); [contradiction|].
  rewrite Herr, Hcol. simpl. by rewrite Herr, Hcol.
Qed.

Lemma contacts_cb1_errno (s : string) (len : Z) (w w' : world) :
  value_column (aux w) ->
  contacts_cb1 s len w = Some w' ->
  errno w' = cv_errno (parse_double_error_check s 0 (errno w) len).
Proof.
  intros (Hrow & Herr & Hcol & Hb) Hrun. unfold contacts_cb1 in Hrun.
  destruct (Z.eqb_spec (curr_row (aux w)) 1) as [|_]; [contradiction|].
  rewrite Herr, Hcol in Hrun. simpl negb in Hrun. cbv iota in Hrun.
  rewrite IliTheory.store_in_bounds in Hrun by lia. simpl in Hrun.
  case_match; injection Hrun as <-; reflexivity.
Qed.

Lemma contacts_line_events_length (l : contacts_line) :
  Z.of_nat (length (contacts_line_events l)) = 3 + Z.of_nat (length (cl_extra l)).
Proof.
  unfold contacts_line_events. cbn [length]. rewrite length_app, length_map.
  simpl. lia.
Qed.

Lemma contacts_cb2_full_row (c : Z) (a : ColumnInputAux) :
  err_status a = 0 ->
  curr_row a <> 1 ->
  2 <= size_t (curr_col a - 1) ->
  err_status (contacts_cb2 c a) = 0.
Proof.
  intros Herr Hrow Hcol. unfold contacts_cb2. rewrite Herr. simpl negb. cbv iota.
  destruct (Z.ltb_spec (size_t (curr_col a - 1)) 2); [lia|].
  simpl andb. cbv iota. cbn.
  destruct (Z.eqb_spec (curr_row a) 1); [contradiction|].
  case_match; exact Herr.
Qed.

(** A line whose value field converts is stored as the next value. *)
Lemma contacts_run_line (l : contacts_line) (n e : Z) (w : world)
    (vs : list double) :
  contacts_row_start e w ->
  contacts_inv (n + Z.of_nat (length (contacts_line_events l))) (aux w) ->
  0 <= n ->
  value_converts e (cl_value l) ->
  contacts_holds (aux w) vs ->
  exists w',
    run (contacts_line_events l) w = Some w' /\
    contacts_row_start e w' /\
    contacts_inv n (aux w') /\
    contacts_holds (aux w') (vs ++ [value_of e (cl_value l)]).
Proof.
  intros (Hen & Herr & Hcol & Hrow) Hinv Hn (Hcv & Hce) (Hsz & Hvs).
  destruct (contacts_run_inv (contacts_line_events l) n w Hinv Hn)
    as (w' & Hrun & Hinv').
  exists w'. split; [exact Hrun|].
  pose proof (contacts_line_events_length l) as Hlen.
  destruct Hinv as (Hl & Hs & Hcap & _ & Hbud). unfold reserve_size in Hcap.
  assert (Hrow1 : curr_row (aux w) <> 1) by lia.
  unfold contacts_line_events in Hrun.
  apply contacts_run_cons_inv in Hrun as (w1 & H1 & Hrun).
  apply contacts_run_cons_inv in Hrun as (w2 & H2 & Hrun).
  simpl in H1, H2.
  rewrite contacts_cb1_first_column in H1 by done. injection H1 as <-.
  assert (Hvc : value_column (aux (mkWorld (set_curr_col (aux w) 2) (errno w)))).
  { unfold value_column. simpl. repeat split; try done; lia. }
  pose proof (contacts_cb1_effect _ _ _ _ H2) as (S2 & Cap2 & Row2 & L2 & P2).
  pose proof (contacts_cb1_errno _ _ _ _ Hvc H2) as E2.
  destruct (contacts_cb1_data_column (cl_value l) (strlen (cl_value l)) _ Hvc)
    as (w2' & H2' & R2 & V2 & _ & _ & _ & C2).
  rewrite H2 in H2'. injection H2' as <-.
  simpl in S2, Cap2, Row2, L2, P2, E2, R2, V2, C2.
  rewrite Hen in E2, R2, V2, C2. rewrite Hce in E2. rewrite Hcv in R2.
  specialize (C2 Hcv). change (size_t (2 + 1)) with 3 in C2.
  rewrite contacts_run_app in Hrun.
  rewrite contacts_run_beyond_schema in Hrun by (rewrite ?C2; try lia; congruence).
  simpl in Hrun. injection Hrun as <-. simpl.
  set (a5 := set_curr_col (aux w2) (curr_col (aux w2) + Z.of_nat (length (cl_extra l)))).
  destruct (contacts_cb2_data_row (cl_term l) a5)
    as (Hs5 & Hc5 & Hr5 & Hgrow & Hstay);
    [exact R2|simpl; congruence|simpl; lia|unfold INT_MAX; simpl; lia|].
  simpl in Hs5, Hr5, Hgrow, Hstay.
  assert (Hcells : forall i : nat,
             Z.of_nat i < capacity (aux w) ->
             vec_p (contacts_cb2 (cl_term l) a5) !! i = vec_p (aux w2) !! i).
  { intros i Hi.
    destruct (Z.le_gt_cases (capacity (aux w2)) (size_p (aux w2) + 1)) as [Hc|Hc].
    - destruct (Hgrow Hc) as [_ Hv]. rewrite Hv.
      rewrite (IliTheory.size_t_small (capacity (aux w2) * 2)) by lia.
      apply IliTheory.realloc_cells_lookup; unfold sizeof_double; lia.
    - destruct (Hstay Hc) as [_ Hv]. by rewrite Hv. }
  split.
  { unfold contacts_row_start. simpl.
    split; [congruence|]. split.
    - apply contacts_cb2_full_row; [exact R2|simpl; congruence|].
      simpl. rewrite IliTheory.size_t_small by lia. lia.
    - split; [exact Hc5|]. rewrite Hr5, Hs5, Row2, S2, Hrow.
      rewrite IliTheory.size_t_small by lia. lia. }
  split; [exact Hinv'|].
  unfold contacts_holds. rewrite Hs5, S2, length_app. simpl.
  split; [lia|].
  intros i v Hi.
  destruct (proj1 (lookup_app_Some _ _ _ _) Hi) as [Hv|[Hge Hv]].
  - pose proof (lookup_lt_Some _ _ _ Hv).
    rewrite Hcells by lia. rewrite P2 by lia. by apply Hvs.
  - destruct (i - length vs)%nat eqn:E; simpl in Hv; [|done].
    injection Hv as <-. replace i with (Z.to_nat (size_p (aux w))) by lia.
    rewrite Hcells by lia. exact V2.
Qed.

Lemma contacts_run_lines (ls : list contacts_line) (n e : Z) (w : world)
    (vs : list double) :
  contacts_row_start e w ->
  contacts_inv (n + Z.of_nat (length (concat (map contacts_line_events ls)))) (aux w) ->
  0 <= n ->
  Forall (fun l => value_converts e (cl_value l)) ls ->
  contacts_holds (aux w) vs ->
  exists w',
    run (concat (map contacts_line_events ls)) w = Some w' /\
    contacts_row_start e w' /\
    contacts_inv n (aux w') /\
    contacts_holds (aux w') (vs ++ map (fun l => value_of e (cl_value l)) ls).
Proof.
  revert w vs. induction ls as [|l ls IH]; intros w vs Hst Hinv Hn Hok Hh.
  - simpl in *. rewrite Z.add_0_r in Hinv. rewrite app_nil_r. by exists w.
  - inversion Hok as [|? ? Hl Hls]; subst.
    cbn [map concat] in *. rewrite length_app in Hinv.
    destruct (contacts_run_line l
                (n + Z.of_nat (length (concat (map contacts_line_events ls))))
                e w vs Hst) as (w1 & Hrun1 & Hst1 & Hinv1 & Hh1);
      [eapply contacts_inv_weaken; [exact Hinv|lia]|lia|exact Hl|exact Hh|].
    destruct (IH w1 _ Hst1 Hinv1 Hn Hls Hh1) as (w' & Hrun & Hst' & Hinv' & Hh').
    exists w'. rewrite contacts_run_app, Hrun1. simpl.
    split; [exact Hrun|]. split; [exact Hst'|]. split; [exact Hinv'|].
    rewrite <- app_assoc in Hh'. exact Hh'.
Qed.

(** X17: a well-formed file is read whole by the single-column reader.
    For a file delivered by successful [csv_parse] calls as a header record
    and data lines whose value field converts, every line ended by its
    record event, the reader returns success, [*vsize_p] is the number of
    lines and [*vec_p] holds exactly the converted values, in order, with
    as many cells as lines. *)
Theorem contacts_valid_file_ingested (inp : input) (header : list string) (c : Z)
    (ls : list contacts_line) (vec0 : list (cell double)) (vsize0 : Z) :
  csv_init_ok inp = true ->
  fopen_ok inp = true ->
  ferror inp = false ->
  contacts_all_parsed (chunks inp) ->
  fini_events inp = [] ->
  concat (map events (chunks inp)) = contacts_file_events header c ls ->
  Forall (fun l => value_converts (errno0 inp) (cl_value l)) ls ->
  event_count (chunks inp) <= 2 ^ 29 ->
  read_csv_double_vector inp vec0 vsize0
  = Some (mkOutcome EXIT_SUCCESS
            (map (fun l => Some (value_of (errno0 inp) (cl_value l))) ls)
            (Z.of_nat (length ls))).
Proof.
  intros Hinit Hopen Hferr Hall Hfini Hev Hok Hcount.
  unfold read_csv_double_vector. rewrite Hinit, Hopen, Hferr. simpl negb. cbv iota.
  rewrite contacts_read_loop_all by done.
  unfold event_count in Hcount. rewrite Hev in *. unfold contacts_file_events in *.
  rewrite !length_app in Hcount.
  rewrite app_assoc, contacts_run_app.
  set (w0 := mkWorld _ (errno0 inp)).
  assert (Hhead : run (map Field header ++ [EndOfRecord c]) w0
                  = Some (mkWorld (set_curr_row (set_curr_col (aux w0) 1) 2)
                                  (errno0 inp))).
  { rewrite contacts_run_app.
    assert (Hf : run (map Field header) w0 = Some w0).
    { clear. induction header as [|f fs IH]; [reflexivity|]. simpl. exact IH. }
    rewrite Hf. reflexivity. }
  rewrite Hhead. simpl mbind.
  set (wh := mkWorld _ (errno0 inp)).
  assert (Hst : contacts_row_start (errno0 inp) wh) by (by unfold contacts_row_start).
  assert (Hinv : contacts_inv
                   (0 + Z.of_nat (length (concat (map contacts_line_events ls))))
                   (aux wh)).
  { rewrite Z.add_0_l.
    apply (contacts_initial_inv _ (errno0 inp)). lia. }
  assert (Hh : contacts_holds (aux wh) []).
  { unfold contacts_holds. simpl. split; done. }
  destruct (contacts_run_lines ls 0 (errno0 inp) wh [] Hst Hinv ltac:(lia) Hok Hh)
    as (w1 & Hrun & (_ & Herr1 & _) & Hinv1 & (Hsz1 & Hvs1)).
  rewrite Hrun. simpl mbind. simpl in Hsz1, Hvs1. rewrite length_map in Hsz1.
  destruct (contacts_shrink_exact w1 Hinv1) as (Hs & He & Hl & Hcells).
  rewrite He, Herr1. simpl. rewrite Hfini. simpl. rewrite Hs, Hsz1.
  f_equal. f_equal.
  apply list_eq. intros i. rewrite list_lookup_fmap.
  destruct (ls !! i) as [l|] eqn:Hli; simpl.
  - pose proof (lookup_lt_Some _ _ _ Hli).
    rewrite Hcells by lia. apply Hvs1.
    change (map (fun l0 => value_of (errno0 inp) (cl_value l0)) ls)
      with ((fun l0 => value_of (errno0 inp) (cl_value l0)) <$> ls).
    by rewrite list_lookup_fmap, Hli.
  - apply lookup_ge_None. apply lookup_ge_None in Hli. lia.
Qed.

(** X19: the first value that does not convert ends the reading, when a
    [csv_parse] call delivers it (the last field of a file that does not end
    with a line terminator is delivered by [csv_fini] instead, and is not
    covered here).  After a header and lines whose value converts, all
    delivered by [csv_parse] calls that succeed, a line whose value field
    is delivered by such a call and does not convert makes the reader fail,
    whatever follows in the file; [*vsize_p] counts the lines before it and
    [*vec_p] holds exactly their values (the cell written for the rejected
    value is cut off). *)
Theorem contacts_conversion_error (inp : input) (header : list string) (c : Z)
    (ls : list contacts_line) (idx bad : string) (rest : list event)
    (vec0 : list (cell double)) (vsize0 : Z) :
  csv_init_ok inp = true ->
  fopen_ok inp = true ->
  contacts_all_parsed (chunks inp) ->
  concat (map events (chunks inp))
    = contacts_file_events header c ls ++ Field idx :: Field bad :: rest ->
  Forall (fun l => value_converts (errno0 inp) (cl_value l)) ls ->
  cv_err (parse_double_error_check bad 0 (errno0 inp) (strlen bad)) <> 0 ->
  event_count (chunks inp) <= 2 ^ 29 ->
  read_csv_double_vector inp vec0 vsize0
  = Some (mkOutcome EXIT_FAILURE
            (map (fun l => Some (value_of (errno0 inp) (cl_value l))) ls)
            (Z.of_nat (length ls))).
Proof.
  intros Hinit Hopen Hall Hev Hok Hbad Hcount.
  unfold read_csv_double_vector. rewrite Hinit, Hopen. simpl negb. cbv iota.
  rewrite contacts_read_loop_all by done.
  unfold event_count in Hcount. rewrite Hev in *. unfold contacts_file_events in *.
  rewrite !length_app in Hcount. cbn [length] in Hcount.
  rewrite (app_assoc (map Field header)), <- (app_assoc (map Field header ++ _)).
  rewrite contacts_run_app.
  set (w0 := mkWorld _ (errno0 inp)).
  assert (Hhead : run (map Field header ++ [EndOfRecord c]) w0
                  = Some (mkWorld (set_curr_row (set_curr_col (aux w0) 1) 2)
                                  (errno0 inp))).
  { rewrite contacts_run_app.
    assert (Hf : run (map Field header) w0 = Some w0).
    { clear. induction header as [|f fs IH]; [reflexivity|]. simpl. exact IH. }
    rewrite Hf. reflexivity. }
  rewrite Hhead. simpl mbind.
  set (wh := mkWorld _ (errno0 inp)).
  assert (Hst : contacts_row_start (errno0 inp) wh) by (by unfold contacts_row_start).
  assert (Hinv : contacts_inv
                   (Z.of_nat (S (S (length rest)))
                    + Z.of_nat (length (concat (map contacts_line_events ls))))
                   (aux wh)).
  { apply (contacts_initial_inv _ (errno0 inp)). lia. }
  assert (Hh : contacts_holds (aux wh) []).
  { unfold contacts_holds. simpl. split; done. }
  destruct (contacts_run_lines ls _ (errno0 inp) wh [] Hst Hinv ltac:(lia) Hok Hh)
    as (w1 & Hrun & (Hen1 & Herr1 & Hcol1 & Hrow1) & Hinv1 & Hh1).
  rewrite contacts_run_app, Hrun. simpl mbind. simpl in Hh1.
  pose proof Hinv1 as (Hl1 & Hs1 & _).
  cbn [run deliver].
  rewrite contacts_cb1_first_column by (try done; lia). simpl mbind.
  assert (Hvc : value_column (aux (mkWorld (set_curr_col (aux w1) 2) (errno w1)))).
  { unfold value_column. simpl. repeat split; try done; lia. }
  destruct (contacts_cb1_data_column bad (strlen bad) _ Hvc)
    as (w3 & Hrun3 & R3 & _).
  pose proof (contacts_cb1_effect _ _ _ _ Hrun3) as K3.
  simpl in R3. rewrite Hen1 in R3.
  rewrite Hrun3. simpl mbind.
  rewrite contacts_run_after_error by (by rewrite R3). simpl mbind.
  assert (Hinv3 : contacts_inv 0 (aux w3)).
  { destruct K3 as (S3 & C3 & _ & L3 & _). simpl in S3, C3, L3.
    destruct Hinv1 as (A & B & C & _ & D). unfold contacts_inv.
    rewrite S3, C3, L3. repeat split; lia. }
  destruct (contacts_shrink_exact w3 Hinv3) as (Hs & He & Hl & Hcells).
  rewrite He.
  destruct (Z.eqb_spec (err_status (aux w3)) 0) as [E0|_]; [congruence|].
  simpl negb. rewrite orb_true_r. simpl orb. cbv iota.
  destruct K3 as (S3 & _ & _ & _ & P3). simpl in S3, P3.
  destruct Hh1 as (Hsz1 & Hvs1). rewrite length_map in Hsz1.
  rewrite Hs, S3, Hsz1. f_equal. f_equal.
  apply list_eq. intros i. rewrite list_lookup_fmap.
  destruct (ls !! i) as [l|] eqn:Hli; simpl.
  - pose proof (lookup_lt_Some _ _ _ Hli).
    rewrite Hcells by lia. rewrite P3 by lia. apply Hvs1.
    change (map (fun l0 => value_of (errno0 inp) (cl_value l0)) ls)
      with ((fun l0 => value_of (errno0 inp) (cl_value l0)) <$> ls).
    by rewrite list_lookup_fmap, Hli.
  - apply lookup_ge_None. apply lookup_ge_None in Hli. lia.
Qed.

End Generic.

(** Instances of the statements above, with the decimal [strtod]. *)

#[local] Existing Instance decimal_strtod.

Lemma contacts_sticky_error_witness :
  run [Field "3"; Field "0.5"; EndOfRecord 10]
      (mkWorld (set_err_status (aux (contacts_sample_world 4 2)) 2) ERANGE)
  = Some (mkWorld (set_err_status (aux (contacts_sample_world 4 2)) 2) ERANGE).
Proof.
  refine (proj1 (contacts_sticky_error _ [] true _ _)).
  simpl. lia.
Defined.

Lemma contacts_growth_doubles_witness :
  contacts_consistent (aux (contacts_sample_world 24 1)) /\
  capacity (contacts_cb2 10 (aux (contacts_sample_world 24 1))) = 50 /\
  Z.of_nat (length (vec_p (contacts_cb2 10 (aux (contacts_sample_world 24 1))))) = 50.
Proof.
  assert (Hc : contacts_consistent (aux (contacts_sample_world 24 1))).
  { vm_compute. repeat split; easy. }
  split; [exact Hc|].
  destruct (contacts_growth_doubles 10 (aux (contacts_sample_world 24 1)))
    as (Hs & _ & Hg & _).
  - reflexivity.
  - simpl; lia.
  - exact Hc.
  - destruct Hg as (Hcap & Hal & _); [rewrite Hs; reflexivity|].
    split; [exact Hcap | exact Hal].
Defined.

Lemma contacts_short_row_witness :
  err_status (contacts_cb2 10 (aux (contacts_sample_world 3 2))) = 4 /\
  size_p (contacts_cb2 10 (aux (contacts_sample_world 3 2))) = 4.
Proof.
  destruct (contacts_short_row 10 (aux (contacts_sample_world 3 2)))
    as (He & _ & _ & _ & Hs & _).
  - reflexivity.
  - simpl; lia.
  - by vm_compute.
  - simpl; lia.
  - unfold INT_MAX; simpl; lia.
  - split; [exact He|exact Hs].
Defined.

Lemma contacts_extra_columns_ignored_witness :
  run (map Field ["x"; "7"]%string ++ [EndOfRecord 10]) (contacts_sample_world 0 3)
  = run [EndOfRecord 10] (contacts_sample_world 0 3).
Proof.
  apply (contacts_extra_columns_ignored ["x"; "7"]%string 10
           (contacts_sample_world 0 3)).
  - simpl; lia.
  - reflexivity.
  - simpl; lia.
  - simpl; lia.
Defined.

Lemma contacts_read_loop_memory_safe_witness :
  exists o,
    read_csv_double_vector_heap (fun _ => true)
      (mkInput true true
         [mkChunk (contacts_header_row ++
                   [Field "0"; Field "1.5"; EndOfRecord 10; Field "1"; Field "x"])
                  true]
         false [] 0) [] 0 = Some o /\
    Z.of_nat (length (vec o)) = vsize o.
Proof.
  destruct (contacts_read_loop_memory_safe (fun _ => true)
              (mkInput true true
                 [mkChunk (contacts_header_row ++
                           [Field "0"; Field "1.5"; EndOfRecord 10;
                            Field "1"; Field "x"]) true]
                 false [] 0) [] 0) as (o & Hr & Hl).
  - reflexivity.
  - by vm_compute.
  - reflexivity.
  - exists o. split; [exact Hr|]. by apply Hl.
Defined.

Lemma contacts_failed_growth_unnoticed_witness :
  exists w',
    contacts_cb2_heap (fun k => negb (k =? 1)%nat) 10
      (mkWorld (mkAux 24 (malloc_cells (size_t (reserve_size * sizeof_double))
                            sizeof_double) reserve_size 26 3 0 None) 0) 1
    = Some (w', 2%nat) /\
    err_status (aux w') = 0 /\
    size_p (aux w') = 25 /\
    capacity (aux w') = 50 /\
    vec_p (aux w') = [] /\
    run_heap (fun k => negb (k =? 1)%nat) [Field "25"; Field "0.5"] w' 2 = None.
Proof.
  destruct (contacts_failed_growth_unnoticed (fun k => negb (k =? 1)%nat) 10
              (mkWorld (mkAux 24 (malloc_cells (size_t (reserve_size * sizeof_double))
                                    sizeof_double) reserve_size 26 3 0 None) 0)
              1 "25" "0.5")
    as (w' & Hr & He & Hs & Hc & Hy & Hn).
  - reflexivity.
  - simpl; lia.
  - by vm_compute.
  - by vm_compute.
  - reflexivity.
  - exists w'. by repeat split.
Defined.

Lemma contacts_valid_file_ingested_witness :
  read_csv_double_vector
    (mkInput true true
       [mkChunk (contacts_header_row ++ [Field "0"; Field "1.5"]) true;
        mkChunk [EndOfRecord 10; Field "1"; Field "-2.5e3"; Field "x";
                 EndOfRecord 10] true]
       false [] 0) [] 7
  = Some (mkOutcome EXIT_SUCCESS
            [Some (Finite false 15 (-1)); Some (Finite true 25 2)] 2).
Proof.
  eapply eq_trans;
    [apply (contacts_valid_file_ingested
              (mkInput true true
                 [mkChunk (contacts_header_row ++ [Field "0"; Field "1.5"]) true;
                  mkChunk [EndOfRecord 10; Field "1"; Field "-2.5e3"; Field "x";
                           EndOfRecord 10] true]
                 false [] 0)
              ["idx"; "contacts"]%string 10
              [mkContactsLine "0" "1.5" [] 10;
               mkContactsLine "1" "-2.5e3" ["x"%string] 10] [] 7)
    |reflexivity]; try reflexivity.
  - repeat constructor.
  - repeat constructor.
  - by vm_compute.
Defined.

Lemma contacts_conversion_error_witness :
  read_csv_double_vector
    (mkInput true true
       [mkChunk (contacts_header_row ++
                 [Field "0"; Field "1.5"; EndOfRecord 10;
                  Field "1"; Field "1,5"; EndOfRecord 10]) true]
       false [] 0) [] 0
  = Some (mkOutcome EXIT_FAILURE [Some (Finite false 15 (-1))] 1).
Proof.
  eapply eq_trans;
    [apply (contacts_conversion_error
              (mkInput true true
                 [mkChunk (contacts_header_row ++
                           [Field "0"; Field "1.5"; EndOfRecord 10;
                            Field "1"; Field "1,5"; EndOfRecord 10]) true]
                 false [] 0)
              ["idx"; "contacts"]%string 10
              [mkContactsLine "0" "1.5" [] 10] "1" "1,5" [EndOfRecord 10] [] 0)
    |reflexivity]; try reflexivity.
  - repeat constructor.
  - repeat constructor.
  - by vm_compute.
  - by vm_compute.
Defined.
End ColumnFile.
